(** * Quanta app-icon setup script: a shallow embedding and its properties

    The development embeds [scripts/setup_app_icon.py].  The script is a
    batch tool: it reads one source image, resamples it through the imaging
    library for every row of a static size table, writes the results below a
    fixed set of directories, writes an iOS manifest and copies the iOS icons
    next to it.

    - [Path]: the string functions of [os.path] the script relies on.
    - [Imaging]: the interface of the imaging library (an external
      dependency, kept abstract) and [Raster], a small concrete instance.
    - Section [Script]: the file system, the effect monad (state, event log,
      exceptions) and the functions of the script, in source order.
    - Section [Plan]: the loops of [generate_icons] as a list of jobs, and
      the vocabulary of the properties.
    - Section [Properties]: lemmas about the loops, the claims C1 to C10,
      and further properties X1 to X18 of the functions of the script.
    - At the end, runs of the script on sample file systems. *)

From Stdlib Require Import Ascii.
From stdpp Require Import gmap strings list pretty.

Open Scope Z_scope.

Set Warnings "-clear-no-such-hyp".

(** ** Path strings *)

Module Path.

Definition is_sep (c : ascii) : bool := bool_decide (c = "/"%char).

Fixpoint has_sep (s : string) : bool :=
  match s with
  | EmptyString => false
  | String c r => is_sep c || has_sep r
  end.

(** [s.startswith(p)] and the remainder after the prefix. *)
Fixpoint strip_prefix (p s : string) : option string :=
  match p, s with
  | EmptyString, _ => Some s
  | String a p', String b s' =>
      if bool_decide (a = b) then strip_prefix p' s' else None
  | String _ _, EmptyString => None
  end.

Definition startswith (s p : string) : bool :=
  match strip_prefix p s with Some _ => true | None => false end.

Fixpoint endswith (s suffix : string) : bool :=
  bool_decide (s = suffix) ||
  match s with
  | EmptyString => false
  | String _ r => endswith r suffix
  end.

(** [p[:p.rfind('/') + 1]] and [p[p.rfind('/') + 1:]]. *)
Fixpoint head_part (p : string) : string :=
  match p with
  | EmptyString => EmptyString
  | String c r =>
      if has_sep r then String c (head_part r)
      else if is_sep c then String c EmptyString
      else EmptyString
  end.

Fixpoint basename (p : string) : string :=
  match p with
  | EmptyString => EmptyString
  | String c r =>
      if has_sep r then basename r
      else if is_sep c then r
      else p
  end.

Fixpoint rstrip_sep (s : string) : string :=
  match s with
  | EmptyString => EmptyString
  | String c r =>
      match rstrip_sep r with
      | EmptyString => if is_sep c then EmptyString else String c EmptyString
      | r' => String c r'
      end
  end.

(** [posixpath.dirname]: the head, without trailing separators unless it
    consists of separators only. *)
Definition dirname (p : string) : string :=
  let head := head_part p in
  match rstrip_sep head with
  | EmptyString => head
  | stripped => stripped
  end.

(** [posixpath.join(a, b)] for two components. *)
Definition join (a b : string) : string :=
  if startswith b "/" then b
  else if bool_decide (a = "") || endswith a "/" then a +:+ b
  else a +:+ "/" +:+ b.

(** The directories [os.makedirs] walks through for a path, outermost
    first and the path itself last. *)
Fixpoint ancestors_from (acc s : string) : list string :=
  match s with
  | EmptyString => [acc]
  | String c r =>
      if is_sep c && negb (bool_decide (acc = ""))
      then acc :: ancestors_from (acc +:+ "/") r
      else ancestors_from (acc +:+ String c EmptyString) r
  end.

Definition ancestors (p : string) : list string := ancestors_from "" p.

(** [name] when [p] is the entry [name] of directory [d]. *)
Definition child_of (d p : string) : option string :=
  match strip_prefix (d +:+ "/") p with
  | Some name =>
      if bool_decide (name = "") || has_sep name then None else Some name
  | None => None
  end.

(** [p] lies below directory [d]. *)
Definition under (d p : string) : bool := startswith p (d +:+ "/").

End Path.

(** ** The imaging library

    [PIL.Image] is not part of the repository; the script only calls it.
    Its operations are kept abstract.  A call that raises is [None]. *)

Class Imaging := {
  Image : Type;
  (** [img.size] *)
  im_size : Image -> Z * Z;
  (** [img.mode] *)
  im_mode : Image -> string;
  (** [img.resize(size, Image.Resampling.LANCZOS)] *)
  im_resize : Image -> Z * Z -> option Image;
  (** [Image.new(mode, size, color=color)] *)
  im_new : string -> Z * Z -> string -> Image;
  (** [base.paste(im, box, mask)]: the base image after the in-place update *)
  im_paste : Image -> Image -> Z * Z -> option Image -> option Image;
}.

(** ** Data of the script *)

(** The static size table, [ICON_SIZES]; a Python dict keeps insertion order. *)
Definition ICON_SIZES : list (string * list (Z * Z * string)) :=
  [ ("ios",
      [ (1024, 1024, "ios-marketing");
        (180, 180, "iphone-app-60pt@3x");
        (167, 167, "ipad-pro-app");
        (152, 152, "ipad-app-76pt@2x");
        (120, 120, "iphone-app-60pt@2x");
        (87, 87, "iphone-settings-29pt@3x");
        (80, 80, "iphone-spotlight-40pt@2x");
        (76, 76, "ipad-app-76pt@1x");
        (58, 58, "iphone-settings-29pt@2x");
        (40, 40, "iphone-spotlight-40pt@1x");
        (29, 29, "iphone-settings-29pt@1x");
        (20, 20, "iphone-notification-20pt@1x") ]);
    ("android",
      [ (192, 192, "xxxhdpi");
        (144, 144, "xxhdpi");
        (96, 96, "xhdpi");
        (72, 72, "hdpi");
        (48, 48, "mdpi") ]);
    ("store",
      [ (512, 512, "play_store");
        (1024, 500, "play_store_feature") ]) ].

(** [ICON_SIZES[key]] *)
Fixpoint getitem {A} (d : list (string * list A)) (key : string) : list A :=
  match d with
  | [] => []
  | (k, v) :: rest => if bool_decide (k = key) then v else getitem rest key
  end.

(** The directories of [create_directories]. *)
Definition directories : list string :=
  [ "assets/app_icons/generated/ios";
    "assets/app_icons/generated/android";
    "assets/app_icons/generated/store";
    "android/app/src/main/res/mipmap-xxxhdpi";
    "android/app/src/main/res/mipmap-xxhdpi";
    "android/app/src/main/res/mipmap-xhdpi";
    "android/app/src/main/res/mipmap-hdpi";
    "android/app/src/main/res/mipmap-mdpi";
    "ios/Runner/Assets.xcassets/AppIcon.appiconset" ].

(** One entry of the ["images"] list of the manifest. *)
Record IconEntry := {
  filename : string;
  idiom : string;
  scale : string;
  size_pt : string;
}.

(** The dict that [create_ios_contents_json] dumps. *)
Record Manifest := {
  images : list IconEntry;
  info_author : string;
  info_version : Z;
}.

Definition contents : Manifest :=
  {| images :=
       [ {| filename := "icon_1024x1024_ios-marketing.png"; idiom := "ios-marketing"; scale := "1x"; size_pt := "1024x1024" |};
         {| filename := "icon_180x180_iphone-app-60pt@3x.png"; idiom := "iphone"; scale := "3x"; size_pt := "60x60" |};
         {| filename := "icon_120x120_iphone-app-60pt@2x.png"; idiom := "iphone"; scale := "2x"; size_pt := "60x60" |};
         {| filename := "icon_87x87_iphone-settings-29pt@3x.png"; idiom := "iphone"; scale := "3x"; size_pt := "29x29" |};
         {| filename := "icon_58x58_iphone-settings-29pt@2x.png"; idiom := "iphone"; scale := "2x"; size_pt := "29x29" |};
         {| filename := "icon_29x29_iphone-settings-29pt@1x.png"; idiom := "iphone"; scale := "1x"; size_pt := "29x29" |};
         {| filename := "icon_80x80_iphone-spotlight-40pt@2x.png"; idiom := "iphone"; scale := "2x"; size_pt := "40x40" |};
         {| filename := "icon_40x40_iphone-spotlight-40pt@1x.png"; idiom := "iphone"; scale := "1x"; size_pt := "40x40" |};
         {| filename := "icon_20x20_iphone-notification-20pt@1x.png"; idiom := "iphone"; scale := "1x"; size_pt := "20x20" |};
         {| filename := "icon_167x167_ipad-pro-app.png"; idiom := "ipad"; scale := "2x"; size_pt := "83.5x83.5" |};
         {| filename := "icon_152x152_ipad-app-76pt@2x.png"; idiom := "ipad"; scale := "2x"; size_pt := "76x76" |};
         {| filename := "icon_76x76_ipad-app-76pt@1x.png"; idiom := "ipad"; scale := "1x"; size_pt := "76x76" |} ];
     info_author := "Quanta App Icon Generator";
     info_version := 1 |}.

(** Exceptions the model distinguishes.  [SystemExit] is not an
    [Exception]; every other one is. *)
Inductive Exn :=
  | FileNotFoundError
  | FileExistsError
  | IsADirectoryError
  | NotADirectoryError
  | SameFileError
  | UnidentifiedImageError
  | ImagingError
  | SystemExit (code : Z).

Definition is_Exception (e : Exn) : bool :=
  match e with SystemExit _ => false | _ => true end.

(** What the script prints, one constructor per [print] call site; the
    arguments are the values interpolated into the text. *)
Inductive Msg :=
  | MCreatedDirectory (directory : string)
  | MSourceNotFound (path : string)
  | MSizeWarning (size : Z * Z)
  | MHeading (platform : string)
  | MGenerated (width height : Z) (path : string)
  | MErrorGenerating (e : Exn)
  | MCreatedContents (path : string)
  | MIosIconsNotFound (dir : string)
  | MCopied (name : string)
  | MNextSteps (line : nat)
  | MUsage
  | MExample
  | MBanner
  | MRule
  | MFailed.

(** ** File system, events, runs

    The data the script works on, for any type [I] of images. *)

Inductive Outcome (A : Type) :=
  | Ok (a : A)
  | Raise (e : Exn).
Arguments Ok {A} a.
Arguments Raise {A} e.

Section Data.

Variable I : Type.

(** What a file holds: an encoded image (its format and its pixels), the
    dumped manifest, or anything else. *)
Inductive ContentOf :=
  | CImage (format : string) (im : I)
  | CJson (doc : Manifest)
  | CBytes (raw : string).

(** Directories and regular files, by path.  Paths are compared as
    strings; the working directory is the empty path. *)
Record WorldOf := {
  dirs : gset string;
  files : gmap string ContentOf;
}.

(** The observable effects, in program order. *)
Inductive EventOf :=
  | EPrint (m : Msg)
  | EMkdir (d : string)
  | EWrite (p : string) (c : ContentOf).

(** A finished computation: the file system it leaves, what it did, and
    how it ended. *)
Record RunOf (A : Type) := {
  final : WorldOf;
  events : list EventOf;
  outcome : Outcome A;
}.

End Data.

Arguments CImage {I} format im.
Arguments CJson {I} doc.
Arguments CBytes {I} raw.
Arguments dirs {I} w.
Arguments files {I} w.
Arguments Build_WorldOf {I} dirs files.
Arguments EPrint {I} m.
Arguments EMkdir {I} d.
Arguments EWrite {I} p c.
Arguments final {I A} r.
Arguments events {I A} r.
Arguments outcome {I A} r.
Arguments Build_RunOf {I A} final events outcome.

(** With the images of the imaging library at hand. *)
Abbreviation Content := (ContentOf Image).
Abbreviation World := (WorldOf Image).
Abbreviation Event := (EventOf Image).
Abbreviation Run := (RunOf Image).

(** ** The script *)

Section Script.

Context `{Imaging}.

(** *** Effects *)

Definition M (A : Type) : Type := World -> Run A.

Definition ret {A} (a : A) : M A :=
  fun w => {| final := w; events := []; outcome := Ok a |}.

Definition raise {A} (e : Exn) : M A :=
  fun w => {| final := w; events := []; outcome := Raise e |}.

Definition bind {A B} (m : M A) (k : A -> M B) : M B :=
  fun w =>
    let r := m w in
    match outcome r with
    | Ok a =>
        let r' := k a (final r) in
        {| final := final r'; events := events r ++ events r';
           outcome := outcome r' |}
    | Raise e => {| final := final r; events := events r; outcome := Raise e |}
    end.

(** [try: body except Exception as e: handler(e)] *)
Definition try_except {A} (body : M A) (handler : Exn -> M A) : M A :=
  fun w =>
    let r := body w in
    match outcome r with
    | Ok a => r
    | Raise e =>
        if is_Exception e then
          let r' := handler e (final r) in
          {| final := final r'; events := events r ++ events r';
             outcome := outcome r' |}
        else r
    end.

Notation "x <- m ;; k" := (bind m (fun x => k))
  (at level 100, m at next level, right associativity).
Notation "m ;;; k" := (bind m (fun _ => k))
  (at level 100, right associativity).

(** [for x in xs: body(x)] *)
Fixpoint for_each {A} (xs : list A) (body : A -> M unit) : M unit :=
  match xs with
  | [] => ret tt
  | x :: rest => body x ;;; for_each rest body
  end.

Definition print (m : Msg) : M unit :=
  fun w => {| final := w; events := [EPrint m]; outcome := Ok tt |}.

Definition sys_exit {A} (code : Z) : M A := raise (SystemExit code).

Definition is_dir (w : World) (p : string) : bool := bool_decide (p ∈ dirs w).

Definition is_file (w : World) (p : string) : bool :=
  bool_decide (is_Some (files w !! p)).

Definition exists_in (w : World) (p : string) : bool := is_dir w p || is_file w p.

(** [os.path.exists(p)] *)
Definition os_path_exists (p : string) : M bool :=
  fun w => ret (exists_in w p) w.

(** The directory a new file goes into is there.  The working directory
    always is. *)
Definition parent_ok (w : World) (p : string) : bool :=
  bool_decide (Path.dirname p = "") || is_dir w (Path.dirname p).

(** [open(p, 'w')] succeeds. *)
Definition writable (w : World) (p : string) : bool :=
  negb (is_dir w p) && parent_ok w p.

(** Create or replace the file at [p]. *)
Definition write_file (p : string) (c : Content) : M unit :=
  fun w =>
    if is_dir w p then raise IsADirectoryError w
    else if parent_ok w p then
      {| final := {| dirs := dirs w; files := <[p := c]> (files w) |};
         events := [EWrite p c]; outcome := Ok tt |}
    else raise FileNotFoundError w.

(** One step of [os.makedirs]: [mkdir] unless the directory is there. *)
Definition mkdir_exist_ok (leaf : bool) (d : string) : M unit :=
  fun w =>
    if is_dir w d then ret tt w
    else if is_file w d then
      raise (if leaf then FileExistsError else NotADirectoryError) w
    else
      {| final := {| dirs := {[d]} ∪ dirs w; files := files w |};
         events := [EMkdir d]; outcome := Ok tt |}.

Fixpoint mkdir_chain (ds : list string) : M unit :=
  match ds with
  | [] => ret tt
  | [d] => mkdir_exist_ok true d
  | d :: rest => mkdir_exist_ok false d ;;; mkdir_chain rest
  end.

(** [os.makedirs(d, exist_ok=True)] *)
Definition os_makedirs (d : string) : M unit := mkdir_chain (Path.ancestors d).

(** [os.listdir(d)]: the names of the entries of [d], in some order. *)
Definition entries (w : World) (d : string) : list string :=
  omap (Path.child_of d) (elements (dirs w ∪ dom (files w))).

Definition os_listdir (d : string) : M (list string) :=
  fun w =>
    if is_dir w d then ret (entries w d) w
    else if is_file w d then raise NotADirectoryError w
    else raise FileNotFoundError w.

(** [shutil.copy2(src, dst)]: into [dst] when it is a directory. *)
Definition shutil_copy2 (src dst : string) : M unit :=
  fun w =>
    let dst' := if is_dir w dst then Path.join dst (Path.basename src) else dst in
    if bool_decide (src = dst') then raise SameFileError w
    else if is_dir w src then raise IsADirectoryError w
    else match files w !! src with
         | Some c => write_file dst' c w
         | None => raise FileNotFoundError w
         end.

(** [Image.open(p)] followed by the load that the first operation on the
    image triggers. *)
Definition Image_open (p : string) : M Image :=
  fun w =>
    if is_dir w p then raise IsADirectoryError w
    else match files w !! p with
         | Some (CImage _ im) => ret im w
         | Some _ => raise UnidentifiedImageError w
         | None => raise FileNotFoundError w
         end.

Definition lift_imaging {A} (o : option A) : M A :=
  match o with
  | Some a => ret a
  | None => raise ImagingError
  end.

(** [img.resize((width, height), Image.Resampling.LANCZOS)] *)
Definition resize (img : Image) (size : Z * Z) : M Image :=
  lift_imaging (im_resize img size).

(** [img.save(path, format)] *)
Definition save (img : Image) (path format : string) : M unit :=
  write_file path (CImage format img).

(** [str(n)] of an [int] inside an f-string. *)
Definition str (n : Z) : string := pretty n.

(** *** [create_directories] *)

Definition create_directories : M unit :=
  for_each directories (fun directory =>
    os_makedirs directory ;;;
    print (MCreatedDirectory directory)).

(** *** [generate_icons] *)

(** The three loops of the [with] block, one per commented part of the
    source, each after its heading. *)

Definition generate_ios_icons (img : Image) : M unit :=
  print (MHeading "ios") ;;;
  for_each (getitem ICON_SIZES "ios") (fun '(width, height, name) =>
    resized <- resize img (width, height) ;;
    let output_path :=
      "assets/app_icons/generated/ios/icon_" +:+ str width +:+ "x"
        +:+ str height +:+ "_" +:+ name +:+ ".png" in
    save resized output_path "PNG" ;;;
    print (MGenerated width height output_path)).

Definition generate_android_icons (img : Image) : M unit :=
  print (MHeading "android") ;;;
  for_each (getitem ICON_SIZES "android") (fun '(width, height, density) =>
    resized <- resize img (width, height) ;;
    let output_path :=
      "assets/app_icons/generated/android/icon_" +:+ str width +:+ "x"
        +:+ str height +:+ "_" +:+ density +:+ ".png" in
    save resized output_path "PNG" ;;;
    let android_path :=
      "android/app/src/main/res/mipmap-" +:+ density +:+ "/ic_launcher.png" in
    save resized android_path "PNG" ;;;
    let android_round_path :=
      "android/app/src/main/res/mipmap-" +:+ density
        +:+ "/ic_launcher_round.png" in
    save resized android_round_path "PNG" ;;;
    print (MGenerated width height android_path)).

Definition generate_store_assets (img : Image) : M unit :=
  print (MHeading "store") ;;;
  for_each (getitem ICON_SIZES "store") (fun '(width, height, name) =>
    if bool_decide (width = 1024) && bool_decide (height = 500) then
      let feature_img := im_new "RGB" (1024, 500) "#1976D2" in
      icon_resized <- resize img (400, 400) ;;
      feature_img <- lift_imaging
        (im_paste feature_img icon_resized (312, 50)
           (if bool_decide (im_mode icon_resized = "RGBA")
            then Some icon_resized else None)) ;;
      let output_path :=
        "assets/app_icons/generated/store/feature_graphic_1024x500.png" in
      save feature_img output_path "PNG" ;;;
      print (MGenerated width height output_path)
    else
      resized <- resize img (width, height) ;;
      let output_path :=
        "assets/app_icons/generated/store/icon_" +:+ str width +:+ "x"
          +:+ str height +:+ "_" +:+ name +:+ ".png" in
      save resized output_path "PNG" ;;;
      print (MGenerated width height output_path)).

Definition generate_icons (source_image_path : string) : M bool :=
  found <- os_path_exists source_image_path ;;
  if negb found then
    print (MSourceNotFound source_image_path) ;;;
    ret false
  else
    try_except
      (img <- Image_open source_image_path ;;
       (if negb (bool_decide (im_size img = (1024, 1024)))
        then print (MSizeWarning (im_size img))
        else ret tt) ;;;
       generate_ios_icons img ;;;
       generate_android_icons img ;;;
       generate_store_assets img ;;;
       ret true)
      (fun e =>
         print (MErrorGenerating e) ;;;
         ret false).

(** *** [create_ios_contents_json] *)

Definition contents_path : string :=
  "ios/Runner/Assets.xcassets/AppIcon.appiconset/Contents.json".

Definition create_ios_contents_json : M unit :=
  write_file contents_path (CJson contents) ;;;
  print (MCreatedContents contents_path).

(** *** [copy_icons_to_ios] *)

Definition source_dir : string := "assets/app_icons/generated/ios".
Definition target_dir : string := "ios/Runner/Assets.xcassets/AppIcon.appiconset".

Definition copy_icons_to_ios : M unit :=
  found <- os_path_exists source_dir ;;
  if negb found then
    print (MIosIconsNotFound source_dir)
  else
    names <- os_listdir source_dir ;;
    for_each names (fun filename =>
      if Path.endswith filename ".png" then
        let source_path := Path.join source_dir filename in
        let target_path := Path.join target_dir filename in
        shutil_copy2 source_path target_path ;;;
        print (MCopied filename)
      else ret tt).

(** *** [print_next_steps] *)

Definition print_next_steps : M unit :=
  for_each (seq 0 12) (fun line => print (MNextSteps line)).

(** *** [main] *)

Definition main (argv : list string) : M unit :=
  (if negb (bool_decide (length argv = 2%nat)) then
     print MUsage ;;;
     print MExample ;;;
     sys_exit 1
   else ret tt) ;;;
  let source_image := nth 1 argv "" in
  print MBanner ;;;
  print MRule ;;;
  create_directories ;;;
  ok <- generate_icons source_image ;;
  if ok then
    create_ios_contents_json ;;;
    copy_icons_to_ios ;;;
    print_next_steps
  else
    print MFailed ;;;
    sys_exit 1.

(** The status the interpreter exits with after [main()]: 0 on return,
    the argument of [sys.exit], 1 after an uncaught exception. *)
Definition exit_status (r : Run unit) : Z :=
  match outcome r with
  | Ok _ => 0
  | Raise (SystemExit code) => code
  | Raise _ => 1
  end.

End Script.

(** ** The size table as a list of jobs

    Every iteration of the three loops has the same shape: compute one image
    from the source (a resample, or the composed feature graphic), save it
    as PNG to one or three paths, print one line.  [plan] lists the
    iterations in program order; [run_jobs] executes such a list.  The
    loops of [generate_icons] are shown below to be [run_jobs] of [plan]. *)

Section Plan.

Context `{Imaging}.

Record Job := {
  j_make : Image -> option Image;
  j_paths : list string;
  j_msg : Msg;
}.

Definition ios_path (width height : Z) (name : string) : string :=
  "assets/app_icons/generated/ios/icon_" +:+ str width +:+ "x"
    +:+ str height +:+ "_" +:+ name +:+ ".png".

Definition android_asset_path (width height : Z) (density : string) : string :=
  "assets/app_icons/generated/android/icon_" +:+ str width +:+ "x"
    +:+ str height +:+ "_" +:+ density +:+ ".png".

Definition launcher_path (density : string) : string :=
  "android/app/src/main/res/mipmap-" +:+ density +:+ "/ic_launcher.png".

Definition launcher_round_path (density : string) : string :=
  "android/app/src/main/res/mipmap-" +:+ density +:+ "/ic_launcher_round.png".

Definition store_path (width height : Z) (name : string) : string :=
  "assets/app_icons/generated/store/icon_" +:+ str width +:+ "x"
    +:+ str height +:+ "_" +:+ name +:+ ".png".

Definition feature_graphic_path : string :=
  "assets/app_icons/generated/store/feature_graphic_1024x500.png".

(** The feature graphic: the source resampled to 400x400, pasted at
    (312, 50) on a 1024x500 canvas of colour #1976D2, with the resampled
    icon as mask when it has an alpha channel. *)
Definition feature_graphic (img : Image) : option Image :=
  match im_resize img (400, 400) with
  | Some icon_resized =>
      im_paste (im_new "RGB" (1024, 500) "#1976D2") icon_resized (312, 50)
        (if bool_decide (im_mode icon_resized = "RGBA")
         then Some icon_resized else None)
  | None => None
  end.

Definition heading_job (platform : string) : Job :=
  {| j_make := Some; j_paths := []; j_msg := MHeading platform |}.

Definition ios_job (row : Z * Z * string) : Job :=
  let '(width, height, name) := row in
  {| j_make := fun img => im_resize img (width, height);
     j_paths := [ios_path width height name];
     j_msg := MGenerated width height (ios_path width height name) |}.

Definition android_job (row : Z * Z * string) : Job :=
  let '(width, height, density) := row in
  {| j_make := fun img => im_resize img (width, height);
     j_paths := [android_asset_path width height density;
                 launcher_path density;
                 launcher_round_path density];
     j_msg := MGenerated width height (launcher_path density) |}.

Definition store_job (row : Z * Z * string) : Job :=
  let '(width, height, name) := row in
  if bool_decide (width = 1024) && bool_decide (height = 500) then
    {| j_make := feature_graphic;
       j_paths := [feature_graphic_path];
       j_msg := MGenerated width height feature_graphic_path |}
  else
    {| j_make := fun img => im_resize img (width, height);
       j_paths := [store_path width height name];
       j_msg := MGenerated width height (store_path width height name) |}.

Definition plan : list Job :=
  (heading_job "ios" :: (ios_job <$> getitem ICON_SIZES "ios"))
  ++ (heading_job "android" :: (android_job <$> getitem ICON_SIZES "android"))
  ++ (heading_job "store" :: (store_job <$> getitem ICON_SIZES "store")).

Definition save_all (im : Image) (paths : list string) : M unit :=
  for_each paths (fun p => save im p "PNG").

Definition run_job (img : Image) (j : Job) : M unit :=
  bind (lift_imaging (j_make j img)) (fun im =>
  bind (save_all im (j_paths j)) (fun _ =>
  print (j_msg j))).

Definition run_jobs (img : Image) (js : list Job) : M unit :=
  for_each js (run_job img).

(** What a job writes when nothing raises. *)
Definition job_outputs (img : Image) (j : Job) : list (string * Content) :=
  match j_make j img with
  | Some im => (fun p => (p, CImage "PNG" im)) <$> j_paths j
  | None => []
  end.

(** A job goes through: its image is computed and all its paths can be
    written. *)
Definition job_ok (img : Image) (w : World) (j : Job) : Prop :=
  is_Some (j_make j img) ∧ Forall (fun p => writable w p = true) (j_paths j).

(** *** Reading the event log *)

Definition write_of (e : Event) : option (string * Content) :=
  match e with
  | EWrite p c => Some (p, c)
  | _ => None
  end.

(** The files written, in order, with what was written. *)
Definition writes (evs : list Event) : list (string * Content) :=
  omap write_of evs.

Definition written_paths (evs : list Event) : list string :=
  (writes evs).*1.

Definition mkdir_of (e : Event) : option string :=
  match e with
  | EMkdir d => Some d
  | _ => None
  end.

Definition prints (evs : list Event) : list Msg :=
  omap (fun e => match e with EPrint m => Some m | _ => None end) evs.

(** The files after a sequence of writes. *)
Definition apply_writes (ws : list (string * Content))
    (m : gmap string Content) : gmap string Content :=
  foldl (fun m pc => <[pc.1 := pc.2]> m) m ws.

(** A write is accounted for by a job of [js]: it saves the image the
    job made to one of the job's paths, after the same image went to the
    paths listed before it. *)
Definition justified (img : Image) (js : list Job)
    (ws : list (string * Content)) (pc : string * Content) : Prop :=
  ∃ (j : Job) (im : Image) (i : nat),
    j ∈ js ∧ j_make j img = Some im ∧ pc.2 = CImage "PNG" im
    ∧ j_paths j !! i = Some pc.1
    ∧ ∀ (i' : nat) (p' : string),
        (i' < i)%nat → j_paths j !! i' = Some p' → (p', pc.2) ∈ ws.

(** The file at [p] is an image that opens as [img]. *)
Definition loads (w : World) (p : string) (img : Image) : Prop :=
  is_dir w p = false ∧ ∃ format, files w !! p = Some (CImage format img).

(** What [generate_icons] prints before the first heading. *)
Definition size_warning (img : Image) : list Event :=
  if negb (bool_decide (im_size img = (1024, 1024)))
  then [EPrint (MSizeWarning (im_size img))]
  else [].

(** Nothing stands in the way of a complete generation: the library
    computes every image of the plan and every path of the plan can be
    written. *)
Definition generation_possible (img : Image) (w : World) : Prop :=
  Forall (fun j => is_Some (j_make j img)) plan
  ∧ Forall (fun p => writable w p = true) (plan ≫= j_paths).


(** [c] is the PNG file of [img] resampled to [size]. *)
Definition resampled (img : Image) (size : Z * Z) (c : Content) : Prop :=
  ∃ r, im_resize img size = Some r ∧ c = CImage "PNG" r.

(** A run that only creates directories, all of them among [ds]; when
    it raises, it raises an [Exception]. *)
Definition dir_step (ds : gset string) (w : World) (r : Run unit) : Prop :=
  files (final r) = files w
  ∧ writes (events r) = []
  ∧ dirs w ⊆ dirs (final r)
  ∧ dirs (final r) ⊆ dirs w ∪ ds
  ∧ ∀ e, outcome r = Raise e → is_Exception e = true.

(** The step after a successful generation in [main]. *)
Definition finish : M unit :=
  bind create_ios_contents_json (fun _ =>
  bind copy_icons_to_ios (fun _ =>
  print_next_steps)).

(** What [main] prints before it creates the directories. *)
Definition banner : list Event := [EPrint MBanner; EPrint MRule].

(** The run of [main] with one argument, put together from the runs of
    its three steps: the directories, the generation, and the success
    branch. *)
Definition main_result (cd : Run unit) (gen : Run bool) (fin : Run unit) : Run unit :=
  match outcome cd with
  | Ok _ =>
      match outcome gen with
      | Ok true =>
          {| final := final fin;
             events := banner ++ events cd ++ events gen ++ events fin;
             outcome := outcome fin |}
      | Ok false =>
          {| final := final gen;
             events := banner ++ events cd ++ events gen ++ [EPrint MFailed];
             outcome := Raise (SystemExit 1) |}
      | Raise e =>
          {| final := final gen;
             events := banner ++ events cd ++ events gen;
             outcome := Raise e |}
      end
  | Raise e =>
      {| final := final cd; events := banner ++ events cd; outcome := Raise e |}
  end.


(** The events contain no directory creation. *)
Definition no_mkdir (evs : list Event) : Prop := omap mkdir_of evs = [].

(** The events contain no file write. *)
Definition no_write (evs : list Event) : Prop := writes evs = [].

(** [p] lies below one of the directories of [create_directories]. *)
Definition in_layout (p : string) : bool :=
  existsb (fun d => Path.under d p) directories.

(** *** Directories

    What [create_directories] needs and what it does. *)

(** [os.makedirs] gets past [a]: it is a directory already, or nothing
    but a directory can come to be there. *)
Definition mkdir_possible (w : World) (a : string) : bool :=
  is_dir w a || negb (is_file w a).

(** Every directory [os.makedirs] goes through for the directories of
    [create_directories], in the order of the calls. *)
Definition layout : list string := directories ≫= Path.ancestors.

(** The directories created, in order. *)
Definition created (evs : list Event) : list string := omap mkdir_of evs.

(** A run that returns after it has made sure the directories [ds] exist:
    it creates the ones that were missing, each once, touches no file,
    and prints [ms]. *)
Definition creates (ds : list string) (ms : list Msg) (w : World) (r : Run unit) : Prop :=
  outcome r = Ok tt
  ∧ files (final r) = files w
  ∧ dirs (final r) = dirs w ∪ list_to_set ds
  ∧ writes (events r) = []
  ∧ prints (events r) = ms
  ∧ NoDup (created (events r))
  ∧ ∀ d, d ∈ created (events r) ↔ d ∈ ds ∧ d ∉ dirs w.

(** A run stopped by a file in the place of a directory. *)
Definition blocked (r : Run unit) : Prop :=
  ∃ e, outcome r = Raise e ∧ (e = FileExistsError ∨ e = NotADirectoryError).

(** *** Copies *)

(** Where [shutil.copy2] puts the copy of the entry [name] of the iOS
    directory: at [target_path], or inside it when that is a directory. *)
Definition copy_destination (w : World) (name : string) : string :=
  let source_path := Path.join source_dir name in
  let target_path := Path.join target_dir name in
  if is_dir w target_path then Path.join target_path (Path.basename source_path)
  else target_path.

(** The entry [name] is skipped or can be copied: it does not end in
    [.png], or it is a regular file and its destination can be written. *)
Definition copy_possible (w : World) (name : string) : Prop :=
  Path.endswith name ".png" = true →
  is_dir w (Path.join source_dir name) = false
  ∧ writable w (copy_destination w name) = true.

(** The loop of [copy_icons_to_ios]. *)
Definition copy_loop (names : list string) : M unit :=
  for_each names (fun filename =>
    if Path.endswith filename ".png" then
      bind (shutil_copy2 (Path.join source_dir filename) (Path.join target_dir filename))
        (fun _ => print (MCopied filename))
    else ret tt).

(** *** Lines *)

(** The function of the script whose [print] call writes the line. *)
Definition printed_by (m : Msg) : string :=
  match m with
  | MCreatedDirectory _ => "create_directories"
  | MSourceNotFound _ | MSizeWarning _ | MHeading _ | MGenerated _ _ _
  | MErrorGenerating _ => "generate_icons"
  | MCreatedContents _ => "create_ios_contents_json"
  | MIosIconsNotFound _ | MCopied _ => "copy_icons_to_ios"
  | MNextSteps _ => "print_next_steps"
  | MUsage | MExample | MBanner | MRule | MFailed => "main"
  end.

(** Every line among the events is printed by one of the functions [fs]. *)
Definition lines_of (fs : list string) (evs : list Event) : Prop :=
  ∀ m, EPrint m ∈ evs → printed_by m ∈ fs.

(** The lines of [print_next_steps]. *)
Definition closing : list Event := (fun line => EPrint (MNextSteps line)) <$> seq 0 12.

(** Every line that reports a generated file comes after a write to the
    path it names, [seen] being the paths written before the events. *)
Fixpoint announced (seen : list string) (evs : list Event) : Prop :=
  match evs with
  | [] => True
  | EWrite p _ :: rest => announced (p :: seen) rest
  | EPrint (MGenerated _ _ p) :: rest => p ∈ seen ∧ announced seen rest
  | _ :: rest => announced seen rest
  end.

End Plan.

(** The 29 files of a complete generation, in the order they are written. *)
Definition generated_files : list string :=
  [ "assets/app_icons/generated/ios/icon_1024x1024_ios-marketing.png";
    "assets/app_icons/generated/ios/icon_180x180_iphone-app-60pt@3x.png";
    "assets/app_icons/generated/ios/icon_167x167_ipad-pro-app.png";
    "assets/app_icons/generated/ios/icon_152x152_ipad-app-76pt@2x.png";
    "assets/app_icons/generated/ios/icon_120x120_iphone-app-60pt@2x.png";
    "assets/app_icons/generated/ios/icon_87x87_iphone-settings-29pt@3x.png";
    "assets/app_icons/generated/ios/icon_80x80_iphone-spotlight-40pt@2x.png";
    "assets/app_icons/generated/ios/icon_76x76_ipad-app-76pt@1x.png";
    "assets/app_icons/generated/ios/icon_58x58_iphone-settings-29pt@2x.png";
    "assets/app_icons/generated/ios/icon_40x40_iphone-spotlight-40pt@1x.png";
    "assets/app_icons/generated/ios/icon_29x29_iphone-settings-29pt@1x.png";
    "assets/app_icons/generated/ios/icon_20x20_iphone-notification-20pt@1x.png";
    "assets/app_icons/generated/android/icon_192x192_xxxhdpi.png";
    "android/app/src/main/res/mipmap-xxxhdpi/ic_launcher.png";
    "android/app/src/main/res/mipmap-xxxhdpi/ic_launcher_round.png";
    "assets/app_icons/generated/android/icon_144x144_xxhdpi.png";
    "android/app/src/main/res/mipmap-xxhdpi/ic_launcher.png";
    "android/app/src/main/res/mipmap-xxhdpi/ic_launcher_round.png";
    "assets/app_icons/generated/android/icon_96x96_xhdpi.png";
    "android/app/src/main/res/mipmap-xhdpi/ic_launcher.png";
    "android/app/src/main/res/mipmap-xhdpi/ic_launcher_round.png";
    "assets/app_icons/generated/android/icon_72x72_hdpi.png";
    "android/app/src/main/res/mipmap-hdpi/ic_launcher.png";
    "android/app/src/main/res/mipmap-hdpi/ic_launcher_round.png";
    "assets/app_icons/generated/android/icon_48x48_mdpi.png";
    "android/app/src/main/res/mipmap-mdpi/ic_launcher.png";
    "android/app/src/main/res/mipmap-mdpi/ic_launcher_round.png";
    "assets/app_icons/generated/store/icon_512x512_play_store.png";
    "assets/app_icons/generated/store/feature_graphic_1024x500.png" ].


(** ** A concrete imaging library

    Rasters with nearest-neighbour resampling: an instance of the interface
    on which the script can be run. *)

Module Raster.

(** Red, green, blue, alpha. *)
Definition Pixel : Type := Z * Z * Z * Z.

Record t := {
  mode : string;
  size : Z * Z;
  pixel : Z -> Z -> Pixel;
}.

Definition resize (img : t) (new_size : Z * Z) : option t :=
  let '(width, height) := new_size in
  if (0 <? width) && (0 <? height) then
    Some {| mode := mode img; size := new_size;
            pixel := fun x y =>
              pixel img (x * fst (size img) / width) (y * snd (size img) / height) |}
  else None.

Definition hex_digit (c : ascii) : Z :=
  let n := Z.of_nat (nat_of_ascii c) in
  if (48 <=? n) && (n <=? 57) then n - 48
  else if (65 <=? n) && (n <=? 70) then n - 55
  else if (97 <=? n) && (n <=? 102) then n - 87
  else 0.

(** ["#RRGGBB"] *)
Definition color_of (s : string) : Pixel :=
  match s with
  | String _ (String r1 (String r0 (String g1 (String g0 (String b1 (String b0 _)))))) =>
      (16 * hex_digit r1 + hex_digit r0,
       16 * hex_digit g1 + hex_digit g0,
       16 * hex_digit b1 + hex_digit b0, 255)
  | _ => (0, 0, 0, 255)
  end.

Definition new (mode : string) (size : Z * Z) (color : string) : t :=
  {| mode := mode; size := size; pixel := fun _ _ => color_of color |}.

Definition blend (alpha top bottom : Z) : Z :=
  (top * alpha + bottom * (255 - alpha)) / 255.

Definition over (mask top bottom : Pixel) : Pixel :=
  let '(_, _, _, a) := mask in
  let '(r1, g1, b1, a1) := top in
  let '(r0, g0, b0, a0) := bottom in
  (blend a r1 r0, blend a g1 g0, blend a b1 b0, a0).

Definition paste (base im : t) (box : Z * Z) (mask : option t) : option t :=
  let '(x0, y0) := box in
  Some {| mode := mode base; size := size base;
          pixel := fun x y =>
            if (x0 <=? x) && (x <? x0 + fst (size im))
               && (y0 <=? y) && (y <? y0 + snd (size im))
            then match mask with
                 | Some m => over (pixel m (x - x0) (y - y0))
                               (pixel im (x - x0) (y - y0)) (pixel base x y)
                 | None => pixel im (x - x0) (y - y0)
                 end
            else pixel base x y |}.

Definition lib : Imaging :=
  {| Image := t; im_size := size; im_mode := mode; im_resize := resize;
     im_new := new; im_paste := paste |}.

(** A square RGBA test card. *)
Definition card (side : Z) : t :=
  {| mode := "RGBA"; size := (side, side);
     pixel := fun x y => (x mod 256, y mod 256, 128, 255) |}.

End Raster.

#[global] Existing Instance Raster.lib.

(** ** Sample file systems *)

Module Sample.

Definition source : string := "assets/app_icons/quanta_icon_1024.png".

(** A checkout that holds the source image and nothing else below the
    output directories. *)
Definition checkout (img : Raster.t) : World :=
  {| dirs := {[ "assets"; "assets/app_icons" ]};
     files := {[ source := CImage "PNG" img ]} |}.

(** The same after [create_directories]. *)
Definition prepared (img : Raster.t) : World :=
  final (create_directories (checkout img)).


(** A prepared checkout where an earlier run left a file among the
    generated iOS icons. *)
Definition with_leftover (img : Raster.t) : World :=
  {| dirs := dirs (prepared img);
     files := <[ "assets/app_icons/generated/ios/old_logo.png" := CBytes "old" ]>
                (files (prepared img)) |}.

(** A prepared checkout where a directory sits at the manifest's path. *)
Definition manifest_blocked (img : Raster.t) : World :=
  {| dirs := {[ contents_path ]} ∪ dirs (prepared img);
     files := files (prepared img) |}.

(** The command line of a regular call. *)
Definition argv : list string := ["setup_app_icon.py"; source].

End Sample.

(** ** Properties *)

Section Properties.

Context `{Imaging}.

Local Notation "x <- m ;; k" := (bind m (fun x => k))
  (at level 100, m at next level, right associativity).
Local Notation "m ;;; k" := (bind m (fun _ => k))
  (at level 100, right associativity).

(** *** The effect monad *)

Lemma bind_run {A B} (m : M A) (k : A -> M B) (w : World) :
  bind m k w =
  match outcome (m w) with
  | Ok a =>
      {| final := final (k a (final (m w)));
         events := events (m w) ++ events (k a (final (m w)));
         outcome := outcome (k a (final (m w))) |}
  | Raise e => {| final := final (m w); events := events (m w); outcome := Raise e |}
  end.
Proof. reflexivity. Qed.

Lemma run_eta {A} (r : Run A) :
  {| final := final r; events := events r; outcome := outcome r |} = r.
Proof. by destruct r. Qed.

Lemma world_eta (w : World) : {| dirs := dirs w; files := files w |} = w.
Proof. by destruct w. Qed.

Lemma for_each_cons {A} (x : A) (xs : list A) (body : A -> M unit) (w : World) :
  for_each (x :: xs) body w = bind (body x) (fun _ => for_each xs body) w.
Proof. reflexivity. Qed.

Lemma for_each_map {A B} (h : A -> B) (f : A -> M unit) (g : B -> M unit) (xs : list A) :
  (∀ x w, f x w = g (h x) w) →
  ∀ w, for_each xs f w = for_each (h <$> xs) g w.
Proof.
  intros Hfg. induction xs as [|x xs IH]; intros w; [done|].
  rewrite fmap_cons, !for_each_cons, !bind_run, Hfg.
  destruct (outcome (g (h x) w)); [|done]. by rewrite IH.
Qed.

Lemma for_each_app {A} (xs ys : list A) (body : A -> M unit) (w : World) :
  for_each (xs ++ ys) body w = bind (for_each xs body) (fun _ => for_each ys body) w.
Proof.
  revert w. induction xs as [|x xs IH]; intros w.
  - cbn. by rewrite run_eta.
  - cbn [app]. rewrite for_each_cons, !bind_run, for_each_cons, bind_run.
    destruct (outcome (body x w)) as [[]|e]; cbn; [|done].
    rewrite IH, bind_run.
    destruct (outcome (for_each xs body (final (body x w)))); cbn;
      by rewrite ?app_assoc.
Qed.

(** *** The event log *)

Lemma writes_app (a b : list Event) : writes (a ++ b) = writes a ++ writes b.
Proof. apply omap_app. Qed.

Lemma written_paths_write (p : string) (c : Content) (evs : list Event) :
  written_paths (EWrite p c :: evs) = p :: written_paths evs.
Proof. reflexivity. Qed.

Lemma written_paths_print (m : Msg) (evs : list Event) :
  written_paths (EPrint m :: evs) = written_paths evs.
Proof. reflexivity. Qed.

Lemma written_paths_app (a b : list Event) :
  written_paths (a ++ b) = written_paths a ++ written_paths b.
Proof. unfold written_paths. by rewrite writes_app, fmap_app. Qed.

Lemma writes_saves (im : Image) (ps : list string) :
  writes ((fun p => EWrite p (CImage "PNG" im)) <$> ps)
  = (fun p => (p, CImage "PNG" im)) <$> ps.
Proof. induction ps as [|p ps IH]; [done|]. cbn. by f_equal. Qed.

Lemma apply_writes_app (a b : list (string * Content)) (m : gmap string Content) :
  apply_writes (a ++ b) m = apply_writes b (apply_writes a m).
Proof. apply foldl_app. Qed.

Lemma apply_writes_cons (p : string) (c : Content) (ws : list (string * Content))
    (m : gmap string Content) :
  apply_writes ((p, c) :: ws) m = apply_writes ws (<[p := c]> m).
Proof. reflexivity. Qed.

Lemma apply_writes_other (ws : list (string * Content)) (m : gmap string Content) (q : string) :
  q ∉ ws.*1 → apply_writes ws m !! q = m !! q.
Proof.
  revert m. induction ws as [|[p c] ws IH]; intros m Hq; [done|].
  rewrite fmap_cons in Hq. apply not_elem_of_cons in Hq as [Hne Hq].
  rewrite apply_writes_cons, IH by done. by rewrite lookup_insert_ne.
Qed.

Lemma apply_writes_written (ws : list (string * Content)) (m : gmap string Content) (q : string) :
  q ∈ ws.*1 → ∃ c, (q, c) ∈ ws ∧ apply_writes ws m !! q = Some c.
Proof.
  revert m. induction ws as [|[p c] ws IH]; intros m Hq.
  - by apply elem_of_nil in Hq.
  - rewrite fmap_cons in Hq. rewrite apply_writes_cons.
    destruct (decide (q ∈ ws.*1)) as [Hin|Hnot].
    + destruct (IH (<[p:=c]> m) Hin) as (c' & Hc' & Hl).
      exists c'. split; [by right|done].
    + apply elem_of_cons in Hq as [Hq|?]; [|done]. cbn in Hq. subst q.
      exists c. split; [by left|].
      rewrite apply_writes_other by done. by rewrite lookup_insert_eq.
Qed.

(** With pairwise different paths the last state holds what was written. *)
Lemma apply_writes_lookup (ws : list (string * Content)) (m : gmap string Content)
    (p : string) (c : Content) :
  NoDup ws.*1 → (p, c) ∈ ws → apply_writes ws m !! p = Some c.
Proof.
  revert m. induction ws as [|[q d] ws IH]; intros m Hnd Hin.
  - by apply elem_of_nil in Hin.
  - rewrite fmap_cons in Hnd. apply NoDup_cons in Hnd as [Hq Hnd].
    rewrite apply_writes_cons.
    apply elem_of_cons in Hin as [Heq|Hin].
    + injection Heq as -> ->. rewrite apply_writes_other by done.
      by rewrite lookup_insert_eq.
    + by apply IH.
Qed.

(** *** Writing files *)

Lemma writable_same_dirs (w w' : World) (p : string) :
  dirs w' = dirs w → writable w' p = writable w p.
Proof. intros Hd. unfold writable, parent_ok, is_dir. by rewrite Hd. Qed.

Lemma write_file_ok (p : string) (c : Content) (w : World) :
  writable w p = true →
  write_file p c w =
  {| final := {| dirs := dirs w; files := <[p := c]> (files w) |};
     events := [EWrite p c]; outcome := Ok tt |}.
Proof.
  unfold writable, write_file. intros [Hd Hp]%andb_true_iff.
  apply negb_true_iff in Hd. by rewrite Hd, Hp.
Qed.

Lemma write_file_fail (p : string) (c : Content) (w : World) :
  writable w p = false →
  ∃ e, is_Exception e = true ∧
       write_file p c w = {| final := w; events := []; outcome := Raise e |}.
Proof.
  unfold writable, write_file. intros Hw.
  destruct (is_dir w p); [by exists IsADirectoryError|].
  destruct (parent_ok w p); [done|]. by exists FileNotFoundError.
Qed.

Lemma save_all_cons (im : Image) (p : string) (ps : list string) (w : World) :
  save_all im (p :: ps) w
  = bind (write_file p (CImage "PNG" im)) (fun _ => save_all im ps) w.
Proof. reflexivity. Qed.

(** [save_all] writes the longest writable prefix of its paths, and
    succeeds when that is all of them. *)
Lemma save_all_spec (im : Image) (ps : list string) (w : World) :
  ∃ k : nat,
    events (save_all im ps w) = (fun p => EWrite p (CImage "PNG" im)) <$> take k ps
    ∧ dirs (final (save_all im ps w)) = dirs w
    ∧ files (final (save_all im ps w))
      = apply_writes ((fun p => (p, CImage "PNG" im)) <$> take k ps) (files w)
    ∧ Forall (fun p => writable w p = true) (take k ps)
    ∧ ((outcome (save_all im ps w) = Ok tt ∧ take k ps = ps)
       ∨ (∃ e p, outcome (save_all im ps w) = Raise e ∧ is_Exception e = true
                 ∧ ps !! k = Some p ∧ writable w p = false)).
Proof.
  revert w. induction ps as [|p ps IH]; intros w.
  - exists 0%nat. cbn. repeat split; auto.
  - rewrite save_all_cons, bind_run.
    destruct (writable w p) eqn:Hw.
    + rewrite write_file_ok by done. cbn [outcome final events].
      set (w' := {| dirs := dirs w; files := <[p:=CImage "PNG" im]> (files w) |}).
      destruct (IH w') as (k & Hev & Hd & Hf & Hall & Hout).
      exists (S k). cbn [take app]. rewrite !fmap_cons, apply_writes_cons.
      rewrite Hev, Hd, Hf. repeat split; try done.
      * constructor; [done|].
        eapply Forall_impl; [exact Hall|]. intros q Hq.
        by rewrite <- (writable_same_dirs w w').
      * destruct Hout as [[Ho Ht]|(e & q & Ho & He & Hk & Hq)].
        -- left. by rewrite Ho, Ht.
        -- right. by exists e, q.
    + destruct (write_file_fail p (CImage "PNG" im) w Hw) as (e & He & ->).
      exists 0%nat. cbn. repeat split; auto.
      right. by exists e, p.
Qed.

(** *** Jobs *)

Lemma run_job_unfold (img : Image) (j : Job) (w : World) :
  run_job img j w =
  match j_make j img with
  | None => {| final := w; events := []; outcome := Raise ImagingError |}
  | Some im =>
      match outcome (save_all im (j_paths j) w) with
      | Ok _ =>
          {| final := final (save_all im (j_paths j) w);
             events := events (save_all im (j_paths j) w) ++ [EPrint (j_msg j)];
             outcome := Ok tt |}
      | Raise e =>
          {| final := final (save_all im (j_paths j) w);
             events := events (save_all im (j_paths j) w);
             outcome := Raise e |}
      end
  end.
Proof.
  unfold run_job. rewrite bind_run.
  destruct (j_make j img) as [im|]; cbn; [|done].
  rewrite bind_run. by destruct (outcome (save_all im (j_paths j) w)).
Qed.

(** One job: the files it writes and how it ends. *)
Lemma run_job_spec (img : Image) (j : Job) (w : World) :
  dirs (final (run_job img j w)) = dirs w
  ∧ files (final (run_job img j w))
    = apply_writes (writes (events (run_job img j w))) (files w)
  ∧ no_mkdir (events (run_job img j w))
  ∧ match j_make j img with
    | None =>
        writes (events (run_job img j w)) = []
        ∧ outcome (run_job img j w) = Raise ImagingError
    | Some im =>
        ∃ k : nat,
          writes (events (run_job img j w))
          = (fun p => (p, CImage "PNG" im)) <$> take k (j_paths j)
          ∧ ((outcome (run_job img j w) = Ok tt ∧ take k (j_paths j) = j_paths j
              ∧ Forall (fun p => writable w p = true) (j_paths j))
             ∨ (∃ e p, outcome (run_job img j w) = Raise e
                       ∧ is_Exception e = true
                       ∧ j_paths j !! k = Some p ∧ writable w p = false))
    end.
Proof.
  rewrite run_job_unfold. destruct (j_make j img) as [im|]; [|done].
  destruct (save_all_spec im (j_paths j) w) as (k & Hev & Hd & Hf & Hall & Hout).
  assert (Hmk : ∀ ps : list string,
            omap mkdir_of ((fun p => EWrite p (CImage "PNG" im)) <$> ps) = [])
    by (induction ps; done).
  destruct Hout as [[Ho Ht]|(e & p & Ho & He & Hk & Hp)]; rewrite Ho;
    cbn [final events outcome].
  - unfold no_mkdir. rewrite Hd, Hf, Hev, writes_app, writes_saves, omap_app, Hmk.
    change (writes [EPrint (j_msg j)]) with (@nil (string * Content)).
    rewrite app_nil_r. repeat split; try done.
    exists k. split; [done|]. left. repeat split; try done. by rewrite <- Ht.
  - unfold no_mkdir. rewrite Hd, Hf, Hev, writes_saves, Hmk.
    repeat split; try done.
    exists k. split; [done|]. right. by exists e, p.
Qed.

Lemma run_jobs_cons (img : Image) (j : Job) (js : list Job) (w : World) :
  run_jobs img (j :: js) w = bind (run_job img j) (fun _ => run_jobs img js) w.
Proof. reflexivity. Qed.

Lemma job_ok_same_dirs (img : Image) (w w' : World) (j : Job) :
  dirs w' = dirs w → job_ok img w' j ↔ job_ok img w j.
Proof.
  intros Hd. unfold job_ok. apply and_iff_compat_l.
  rewrite !Forall_forall. by setoid_rewrite (writable_same_dirs w w'). 
Qed.

Lemma justified_mono (img : Image) (js js' : list Job)
    (ws ws' : list (string * Content)) (pc : string * Content) :
  js ⊆ js' → ws ⊆ ws' → justified img js ws pc → justified img js' ws' pc.
Proof.
  intros Hjs Hws (j & im & i & Hj & Hm & Hc & Hi & Hbefore).
  exists j, im, i. repeat split; [by apply Hjs|done..|].
  intros i' p' Hlt Hp'. apply Hws. by eapply Hbefore.
Qed.

(** A list of jobs: the file system afterwards is the one before plus the
    writes; every write is accounted for by a job; the writes are an
    initial part of the complete output; the run succeeds exactly when
    every job goes through, and then the output is complete. *)
Lemma run_jobs_spec (img : Image) (js : list Job) (w : World) :
  dirs (final (run_jobs img js w)) = dirs w
  ∧ files (final (run_jobs img js w))
    = apply_writes (writes (events (run_jobs img js w))) (files w)
  ∧ no_mkdir (events (run_jobs img js w))
  ∧ (∀ pc, pc ∈ writes (events (run_jobs img js w)) →
           justified img js (writes (events (run_jobs img js w))) pc)
  ∧ writes (events (run_jobs img js w)) `prefix_of` (js ≫= job_outputs img)
  ∧ ((outcome (run_jobs img js w) = Ok tt
      ∧ Forall (job_ok img w) js
      ∧ writes (events (run_jobs img js w)) = js ≫= job_outputs img)
     ∨ (∃ e, outcome (run_jobs img js w) = Raise e
             ∧ is_Exception e = true
             ∧ ¬ Forall (job_ok img w) js)).
Proof.
  revert w. induction js as [|j js IH]; intros w.
  - cbn. repeat split; try done.
    + intros pc Hpc. by apply elem_of_nil in Hpc.
    + left. repeat split; done.
  - rewrite run_jobs_cons, bind_run.
    destruct (run_job_spec img j w) as (Hd & Hf & Hmk & Hj).
    set (rj := run_job img j w) in *.
    assert (Hjust_j : ∀ ws pc, pc ∈ writes (events rj) → writes (events rj) ⊆ ws →
               justified img (j :: js) ws pc).
    { intros ws pc Hpc Hsub.
      destruct (j_make j img) as [im|] eqn:Hmake.
      - destruct Hj as (k & Hw & _). rewrite Hw in Hpc.
        apply list_elem_of_fmap in Hpc as (p & -> & Hp).
        apply elem_of_take in Hp as (i & Hi & Hlt).
        exists j, im, i. repeat split; [by left|done..|].
        intros i' p' Hlt' Hi'. apply Hsub. rewrite Hw.
        apply list_elem_of_fmap. exists p'. split; [done|].
        apply elem_of_take. exists i'. split; [done|lia].
      - destruct Hj as [Hw _]. rewrite Hw in Hpc. by apply elem_of_nil in Hpc. }
    destruct (outcome rj) as [[]|e] eqn:Ho; cbn [final events outcome].
    + destruct (IH (final rj)) as (Hd' & Hf' & Hmk' & Hjust' & Hpre' & Hout').
      set (rs := run_jobs img js (final rj)) in *.
      assert (Hfull : writes (events rj) = job_outputs img j
                      ∧ job_ok img w j).
      { unfold job_outputs, job_ok. destruct (j_make j img) as [im|].
        - destruct Hj as (k & Hw & [(_ & Ht & Hall)|(e & p & Hr & _)]);
            [|congruence].
          rewrite Hw, Ht. by split.
        - destruct Hj as [_ Hr]. congruence. }
      destruct Hfull as [Hwj Hokj].
      rewrite writes_app, apply_writes_app, <- Hf, Hd', Hd.
      unfold no_mkdir in *. rewrite omap_app, Hmk, Hmk'.
      repeat split; try done.
      * intros pc [Hpc|Hpc]%elem_of_app.
        -- apply Hjust_j; [done|]. intros x Hx. apply elem_of_app. by left.
        -- eapply justified_mono; [| |by apply Hjust'].
           ++ intros x Hx. by right.
           ++ intros x Hx. apply elem_of_app. by right.
      * cbn. rewrite Hwj. by apply prefix_app.
      * destruct Hout' as [(Hr & Hall & Hw)|(e & Hr & He & Hnot)].
        -- left. repeat split; [done| |].
           ++ constructor; [done|].
              eapply Forall_impl; [exact Hall|]. intros x Hx.
              by apply (job_ok_same_dirs img w (final rj)).
           ++ cbn. by rewrite Hwj, Hw.
        -- right. exists e. repeat split; [done..|].
           intros Hall. apply Hnot. apply Forall_cons in Hall as [_ Hall].
           eapply Forall_impl; [exact Hall|]. intros x Hx.
           by apply (job_ok_same_dirs img w (final rj)).
    + repeat split; try done.
      * intros pc Hpc. by apply Hjust_j.
      * cbn. apply prefix_app_r. unfold job_outputs.
        destruct (j_make j img) as [im|].
        -- destruct Hj as (k & -> & _).
           exists ((fun p => (p, CImage "PNG" im)) <$> drop k (j_paths j)).
           by rewrite <- fmap_app, take_drop.
        -- destruct Hj as [-> _]. apply prefix_nil.
      * right. exists e.
        assert (Hbad : is_Exception e = true ∧ ¬ job_ok img w j).
        { unfold job_ok. destruct (j_make j img) as [im|].
          - destruct Hj as (k & _ & [(Hr & _)|(e' & p & Hr & He & Hk & Hp)]);
              [congruence|].
            split; [congruence|]. intros [_ Hall].
            rewrite Forall_lookup in Hall. specialize (Hall _ _ Hk). congruence.
          - destruct Hj as [_ Hr]. injection Hr as ->. split; [done|].
            intros [[? ?] _]. done. }
        destruct Hbad as [He Hbad]. repeat split; [done|].
        intros [? _]%Forall_cons. done.
Qed.

(** *** The loops of [generate_icons] run the plan *)

Lemma bind_ext {A B} (m m' : M A) (k k' : A -> M B) (w : World) :
  m w = m' w → (∀ a w', k a w' = k' a w') → bind m k w = bind m' k' w.
Proof.
  intros Hm Hk. rewrite !bind_run, Hm.
  destruct (outcome (m' w)); [|done]. by rewrite Hk.
Qed.

Lemma bind_assoc {A B C} (m : M A) (k : A -> M B) (k' : B -> M C) (w : World) :
  bind (bind m k) k' w = bind m (fun a => bind (k a) k') w.
Proof.
  rewrite !bind_run. destruct (outcome (m w)); cbn; [|done].
  rewrite !bind_run. destruct (outcome (k a (final (m w)))); cbn;
    by rewrite ?app_assoc.
Qed.

Lemma heading_runs (img : Image) (platform : string) (w : World) :
  print (MHeading platform) w = run_job img (heading_job platform) w.
Proof. reflexivity. Qed.

Lemma bind_ret_l {A B} (a : A) (k : A -> M B) (w : World) :
  bind (ret a) k w = k a w.
Proof. rewrite bind_run. cbn. apply run_eta. Qed.

Lemma lift_imaging_bind {A B} (o : option A) (f : A -> option B) (w : World) :
  lift_imaging (match o with Some a => f a | None => None end) w
  = bind (lift_imaging o) (fun a => lift_imaging (f a)) w.
Proof.
  destruct o as [a|]; [|done]. cbn [lift_imaging].
  by rewrite (bind_ret_l a (fun a => lift_imaging (f a))).
Qed.

(** Bring both sides of an equation between two sequences of the same
    effects to the same bracketing, one effect at a time. *)
Ltac sync :=
  repeat (rewrite ?bind_assoc;
          first [ reflexivity
                | rewrite bind_ret_l; reflexivity
                | apply bind_ext; [reflexivity | intros ? ?] ]).

Lemma generate_ios_icons_jobs (img : Image) (w : World) :
  generate_ios_icons img w
  = run_jobs img (heading_job "ios" :: (ios_job <$> getitem ICON_SIZES "ios")) w.
Proof.
  unfold generate_ios_icons. rewrite run_jobs_cons.
  apply bind_ext; [done|]. intros _ w'. apply for_each_map.
  intros [[width height] name] w''.
  unfold run_job, save_all, resize, save. cbn [ios_job for_each j_make j_paths j_msg].
  unfold ios_path. sync.
Qed.

Lemma generate_android_icons_jobs (img : Image) (w : World) :
  generate_android_icons img w
  = run_jobs img
      (heading_job "android" :: (android_job <$> getitem ICON_SIZES "android")) w.
Proof.
  unfold generate_android_icons. rewrite run_jobs_cons.
  apply bind_ext; [done|]. intros _ w'. apply for_each_map.
  intros [[width height] density] w''.
  unfold run_job, save_all, resize, save.
  cbn [android_job for_each j_make j_paths j_msg].
  unfold android_asset_path, launcher_path, launcher_round_path. sync.
Qed.

Lemma generate_store_assets_jobs (img : Image) (w : World) :
  generate_store_assets img w
  = run_jobs img (heading_job "store" :: (store_job <$> getitem ICON_SIZES "store")) w.
Proof.
  unfold generate_store_assets. rewrite run_jobs_cons.
  apply bind_ext; [done|]. intros _ w'. apply for_each_map.
  intros [[width height] name] w''. unfold store_job.
  destruct (bool_decide (width = 1024) && bool_decide (height = 500)).
  - unfold run_job, save_all, resize, save. cbn [for_each j_make j_paths j_msg].
    unfold feature_graphic, feature_graphic_path.
    symmetry. erewrite bind_ext; [|apply lift_imaging_bind|reflexivity].
    symmetry. sync.
  - unfold run_job, save_all, resize, save. cbn [for_each j_make j_paths j_msg].
    unfold store_path. sync.
Qed.

Lemma run_jobs_app (img : Image) (xs ys : list Job) (w : World) :
  run_jobs img (xs ++ ys) w = bind (run_jobs img xs) (fun _ => run_jobs img ys) w.
Proof. apply for_each_app. Qed.

Lemma generation_runs_plan (img : Image) (w : World) :
  (generate_ios_icons img ;;;
   generate_android_icons img ;;;
   generate_store_assets img ;;;
   ret true) w
  = (run_jobs img plan ;;; ret true) w.
Proof.
  unfold plan.
  set (A := heading_job "ios" :: _). set (B := heading_job "android" :: _).
  set (C := heading_job "store" :: _).
  symmetry.
  rewrite (bind_ext (run_jobs img (A ++ B ++ C))
             (bind (run_jobs img A) (fun _ => run_jobs img (B ++ C)))
             (fun _ => ret true) (fun _ => ret true) w
             (run_jobs_app img A (B ++ C) w) (fun _ _ => eq_refl)).
  rewrite bind_assoc.
  apply bind_ext; [symmetry; apply generate_ios_icons_jobs|]. intros _ w1.
  rewrite (bind_ext (run_jobs img (B ++ C))
             (bind (run_jobs img B) (fun _ => run_jobs img C))
             (fun _ => ret true) (fun _ => ret true) w1
             (run_jobs_app img B C w1) (fun _ _ => eq_refl)).
  rewrite bind_assoc.
  apply bind_ext; [symmetry; apply generate_android_icons_jobs|]. intros _ w2.
  apply bind_ext; [symmetry; apply generate_store_assets_jobs|done].
Qed.


(** *** [generate_icons] *)

Lemma Image_open_loads (p : string) (w : World) (img : Image) :
  loads w p img → Image_open p w = {| final := w; events := []; outcome := Ok img |}.
Proof. intros [Hd [format Hf]]. unfold Image_open. by rewrite Hd, Hf. Qed.

Lemma Image_open_spec (p : string) (w : World) :
  final (Image_open p w) = w
  ∧ events (Image_open p w) = []
  ∧ ((∃ img, outcome (Image_open p w) = Ok img ∧ loads w p img)
     ∨ (∃ e, outcome (Image_open p w) = Raise e ∧ is_Exception e = true
             ∧ ∀ img, ¬ loads w p img)).
Proof.
  unfold Image_open, loads. destruct (is_dir w p) eqn:Hd.
  - repeat split; try done. right. exists IsADirectoryError.
    repeat split; try done. by intros img [? _].
  - destruct (files w !! p) as [[format im| |]|] eqn:Hf.
    + repeat split; try done. left. exists im. eauto.
    + repeat split; try done. right. exists UnidentifiedImageError.
      repeat split; try done. intros img [_ [? ?]]. done.
    + repeat split; try done. right. exists UnidentifiedImageError.
      repeat split; try done. intros img [_ [? ?]]. done.
    + repeat split; try done. right. exists FileNotFoundError.
      repeat split; try done. intros img [_ [? ?]]. done.
Qed.

Lemma loads_exists (w : World) (p : string) (img : Image) :
  loads w p img → exists_in w p = true.
Proof.
  intros [_ [format Hf]]. unfold exists_in, is_file.
  apply orb_true_iff. right. apply bool_decide_eq_true. by rewrite Hf.
Qed.

Lemma generate_icons_missing (src : string) (w : World) :
  exists_in w src = false →
  generate_icons src w
  = {| final := w; events := [EPrint (MSourceNotFound src)]; outcome := Ok false |}.
Proof.
  intros Hex. unfold generate_icons. rewrite bind_run.
  unfold os_path_exists. cbn [ret outcome final events]. by rewrite Hex.
Qed.

Lemma generate_icons_unreadable (src : string) (w : World) (e : Exn) :
  exists_in w src = true →
  outcome (Image_open src w) = Raise e →
  generate_icons src w
  = {| final := w; events := [EPrint (MErrorGenerating e)]; outcome := Ok false |}.
Proof.
  intros Hex Ho. unfold generate_icons. rewrite bind_run.
  unfold os_path_exists. cbn [ret outcome final events]. rewrite Hex.
  cbn [negb app]. unfold try_except. rewrite bind_run, Ho.
  cbn [outcome final events].
  destruct (Image_open_spec src w) as (Hf & Hev & [(img & Ho' & _)|(e' & Ho' & He & _)]);
    [congruence|].
  rewrite Ho' in Ho. injection Ho as ->. by rewrite He, Hf, Hev.
Qed.

Lemma try_except_run {A} (body : M A) (handler : Exn -> M A) (w : World) :
  try_except body handler w =
  match outcome (body w) with
  | Ok a => body w
  | Raise e =>
      if is_Exception e then
        {| final := final (handler e (final (body w)));
           events := events (body w) ++ events (handler e (final (body w)));
           outcome := outcome (handler e (final (body w))) |}
      else body w
  end.
Proof. reflexivity. Qed.

(** The body of the [try] statement once the image is open. *)
Lemma with_block_run (src : string) (w : World) (img : Image) :
  loads w src img →
  (img <- Image_open src ;;
   (if negb (bool_decide (im_size img = (1024, 1024)))
    then print (MSizeWarning (im_size img))
    else ret tt) ;;;
   generate_ios_icons img ;;;
   generate_android_icons img ;;;
   generate_store_assets img ;;;
   ret true) w
  = {| final := final (run_jobs img plan w);
       events := size_warning img ++ events (run_jobs img plan w);
       outcome := match outcome (run_jobs img plan w) with
                  | Ok _ => Ok true
                  | Raise e => Raise e
                  end |}.
Proof.
  intros Hl. rewrite bind_run, (Image_open_loads _ _ _ Hl).
  cbn [outcome final events app]. rewrite bind_run.
  assert (Hwarn : (if negb (bool_decide (im_size img = (1024, 1024)))
                   then print (MSizeWarning (im_size img)) else ret tt) w
                  = {| final := w; events := size_warning img; outcome := Ok tt |}).
  { unfold size_warning. by destruct (negb _). }
  rewrite Hwarn. cbn [outcome final events].
  rewrite generation_runs_plan, bind_run.
  destruct (outcome (run_jobs img plan w)); cbn [outcome final events];
    by rewrite ?app_nil_r.
Qed.

(** With the source loaded, [generate_icons] is the optional warning
    followed by the plan, and an error line if the plan raised. *)
Lemma generate_icons_loaded (src : string) (w : World) (img : Image) :
  loads w src img →
  generate_icons src w =
  match outcome (run_jobs img plan w) with
  | Ok _ =>
      {| final := final (run_jobs img plan w);
         events := size_warning img ++ events (run_jobs img plan w);
         outcome := Ok true |}
  | Raise e =>
      {| final := final (run_jobs img plan w);
         events := size_warning img ++ events (run_jobs img plan w)
                   ++ [EPrint (MErrorGenerating e)];
         outcome := Ok false |}
  end.
Proof.
  intros Hl. unfold generate_icons. rewrite bind_run.
  unfold os_path_exists. cbn [ret outcome final events].
  rewrite (loads_exists _ _ _ Hl). cbn [negb app].
  rewrite try_except_run, (with_block_run src w img Hl). cbn [outcome final events].
  destruct (run_jobs_spec img plan w) as (_ & _ & _ & _ & _ & Hout).
  destruct Hout as [(Ho & _)|(e & Ho & He & _)]; rewrite Ho; cbn [outcome final events].
  - done.
  - rewrite He. cbn [outcome final events print ret bind].
    by rewrite app_nil_r, app_assoc.
Qed.


(** *** Facts about the plan *)

Lemma plan_paths : plan ≫= j_paths = generated_files.
Proof. reflexivity. Qed.

Lemma generated_files_NoDup : NoDup generated_files.
Proof. apply (bool_decide_unpack (NoDup generated_files)). by vm_compute. Qed.

Lemma outputs_paths (img : Image) (js : list Job) :
  Forall (fun j => is_Some (j_make j img)) js →
  (js ≫= job_outputs img).*1 = js ≫= j_paths.
Proof.
  induction 1 as [|j js [im Hj] _ IH]; [done|].
  cbn. rewrite fmap_app, IH. f_equal.
  unfold job_outputs. rewrite Hj, <- list_fmap_compose. apply list_fmap_id.
Qed.

Lemma jobs_ok_split (img : Image) (w : World) (js : list Job) :
  Forall (job_ok img w) js ↔
  Forall (fun j => is_Some (j_make j img)) js
  ∧ Forall (fun p => writable w p = true) (js ≫= j_paths).
Proof.
  induction js as [|j js IH]; [by split; [split|]; constructor|].
  cbn. rewrite !Forall_cons, Forall_app, IH. unfold job_ok. tauto.
Qed.



(** *** What [generate_icons] writes *)

(** The complete description of a run of [generate_icons] on a loaded
    source, in terms of the plan. *)
Lemma generate_icons_writes (src : string) (w : World) (img : Image) :
  loads w src img →
  writes (events (generate_icons src w)) = writes (events (run_jobs img plan w))
  ∧ final (generate_icons src w) = final (run_jobs img plan w)
  ∧ (outcome (generate_icons src w) = Ok true ↔ outcome (run_jobs img plan w) = Ok tt)
  ∧ (outcome (generate_icons src w) = Ok true
     ∨ outcome (generate_icons src w) = Ok false).
Proof.
  intros Hl. rewrite (generate_icons_loaded src w img Hl).
  assert (Hwarn : writes (size_warning img) = []).
  { unfold size_warning. by destruct (negb _). }
  destruct (outcome (run_jobs img plan w)) as [[]|e]; cbn [final events outcome];
    rewrite !writes_app, Hwarn; cbn [app].
  - repeat split; auto.
  - change (writes [EPrint (MErrorGenerating e)]) with (@nil (string * Content)).
    rewrite app_nil_r. repeat split; auto; intros; discriminate.
Qed.

Lemma generate_icons_success (src : string) (w : World) (img : Image) :
  loads w src img →
  (outcome (generate_icons src w) = Ok true ↔ generation_possible img w).
Proof.
  intros Hl. destruct (generate_icons_writes src w img Hl) as (_ & _ & -> & _).
  unfold generation_possible. rewrite <- jobs_ok_split.
  destruct (run_jobs_spec img plan w) as (_ & _ & _ & _ & _ & Hout).
  destruct Hout as [(Ho & Hall & _)|(e & Ho & _ & Hnot)]; rewrite Ho.
  - tauto.
  - split; [discriminate|done].
Qed.


(** The paths written are an initial part of the paths of the jobs. *)
Lemma run_jobs_prefix (img : Image) (js : list Job) (w : World) :
  written_paths (events (run_jobs img js w)) `prefix_of` (js ≫= j_paths).
Proof.
  unfold written_paths. revert w. induction js as [|j js IH]; intros w; [done|].
  rewrite run_jobs_cons, bind_run.
  destruct (run_job_spec img j w) as (_ & _ & _ & Hspec).
  cbn [mbind list_bind].
  destruct (outcome (run_job img j w)) as [[]|e] eqn:Ho; cbn [events outcome].
  - rewrite writes_app, fmap_app.
    destruct (j_make j img) as [im|].
    + destruct Hspec as (k & -> & [(_ & -> & _)|(e & p & ? & _)]); [|done].
      rewrite <- list_fmap_compose, list_fmap_id. apply prefix_app, IH.
    + by destruct Hspec.
  - apply prefix_app_r. destruct (j_make j img) as [im|].
    + destruct Hspec as (k & -> & _).
      rewrite <- list_fmap_compose, list_fmap_id. apply prefix_take.
    + destruct Hspec as [-> _]. apply prefix_nil.
Qed.

(** Either the source does not load, and [generate_icons] only prints
    one line, or it loads. *)
Lemma generate_icons_cases (src : string) (w : World) :
  (∃ m, generate_icons src w
        = {| final := w; events := [EPrint m]; outcome := Ok false |}
        ∧ (exists_in w src = false
           ∨ ∃ e, outcome (Image_open src w) = Raise e))
  ∨ (∃ img, loads w src img).
Proof.
  destruct (exists_in w src) eqn:Hex.
  - destruct (Image_open_spec src w) as (_ & _ & [(img & _ & Hl)|(e & Ho & _ & _)]).
    + right. by exists img.
    + left. exists (MErrorGenerating e).
      split; [by apply generate_icons_unreadable|]. right. by exists e.
  - left. exists (MSourceNotFound src).
    split; [by apply generate_icons_missing|]. by left.
Qed.

Lemma generate_icons_state (src : string) (w : World) :
  dirs (final (generate_icons src w)) = dirs w
  ∧ files (final (generate_icons src w))
    = apply_writes (writes (events (generate_icons src w))) (files w)
  ∧ no_mkdir (events (generate_icons src w)).
Proof.
  destruct (generate_icons_cases src w) as [(m & -> & _)|(img & Hl)]; [done|].
  destruct (generate_icons_writes src w img Hl) as (-> & -> & _).
  destruct (run_jobs_spec img plan w) as (Hd & Hf & Hmk & _).
  repeat split; [done..|].
  rewrite (generate_icons_loaded src w img Hl). unfold no_mkdir in *.
  assert (Hwarn : omap mkdir_of (size_warning img) = []).
  { unfold size_warning. by destruct (negb _). }
  destruct (outcome (run_jobs img plan w)); cbn [events];
    by rewrite !omap_app, Hwarn, Hmk.
Qed.

(** Every write of [generate_icons] is accounted for by a job of the plan. *)
Lemma generate_icons_justified (src : string) (w : World) (pc : string * Content) :
  pc ∈ writes (events (generate_icons src w)) →
  ∃ img, loads w src img
         ∧ justified img plan (writes (events (generate_icons src w))) pc.
Proof.
  intros Hpc.
  destruct (generate_icons_cases src w) as [(m & Hr & _)|(img & Hl)].
  - rewrite Hr in Hpc. by apply elem_of_nil in Hpc.
  - exists img. split; [done|].
    destruct (generate_icons_writes src w img Hl) as (Hw & _).
    rewrite Hw in *.
    destruct (run_jobs_spec img plan w) as (_ & _ & _ & Hjust & _). by apply Hjust.
Qed.

(** The jobs of the plan, by the row they come from. *)
Lemma plan_job_cases (j : Job) :
  j ∈ plan →
  (∃ platform, j = heading_job platform)
  ∨ (∃ row, row ∈ getitem ICON_SIZES "ios" ∧ j = ios_job row)
  ∨ (∃ row, row ∈ getitem ICON_SIZES "android" ∧ j = android_job row)
  ∨ (∃ row, row ∈ getitem ICON_SIZES "store" ∧ j = store_job row).
Proof.
  unfold plan. rewrite !elem_of_app, !elem_of_cons, !list_elem_of_fmap.
  intros [[->|(row & -> & Hrow)]|[[->|(row & -> & Hrow)]|[->|(row & -> & Hrow)]]];
    eauto 6.
Qed.


(** *** Path strings *)

Lemma append_cons (x : ascii) (a b : string) :
  String x a +:+ b = String x (a +:+ b).
Proof. reflexivity. Qed.

Lemma append_assoc (a b c : string) : (a +:+ b) +:+ c = a +:+ b +:+ c.
Proof. induction a as [|x a IH]; [done|]. rewrite !append_cons. by f_equal. Qed.

Lemma strip_prefix_app (p s : string) : Path.strip_prefix p (p +:+ s) = Some s.
Proof.
  induction p as [|x p IH]; [done|]. rewrite append_cons. cbn.
  by rewrite bool_decide_eq_true_2.
Qed.

Lemma strip_prefix_more (q p r x : string) :
  Path.strip_prefix q p = Some r → Path.strip_prefix q (p +:+ x) = Some (r +:+ x).
Proof.
  revert p. induction q as [|c q IH]; intros p Hp; cbn in *.
  - by injection Hp as ->.
  - destruct p as [|d p]; [done|]. rewrite append_cons. cbn.
    destruct (bool_decide (c = d)); [by apply IH|done].
Qed.

Lemma under_child (d x : string) : Path.under d (d +:+ "/" +:+ x) = true.
Proof.
  unfold Path.under, Path.startswith.
  by rewrite <- append_assoc, strip_prefix_app.
Qed.

Lemma under_more (d p x : string) :
  Path.under d p = true → Path.under d (p +:+ x) = true.
Proof.
  unfold Path.under, Path.startswith.
  destruct (Path.strip_prefix (d +:+ "/") p) as [r|] eqn:Hp; [|done].
  by rewrite (strip_prefix_more _ _ _ x Hp).
Qed.

Lemma endswith_app (a b s : string) :
  Path.endswith b s = true → Path.endswith (a +:+ b) s = true.
Proof.
  intros Hb. induction a as [|x a IH]; [done|].
  rewrite append_cons. cbn. rewrite IH. apply orb_true_r.
Qed.

Lemma relative_no_sep (name : string) :
  Path.has_sep name = false → Path.startswith name "/" = false.
Proof.
  destruct name as [|c name]; [done|]. cbn.
  intros [Hc _]%orb_false_iff. unfold Path.startswith, Path.is_sep in *. cbn.
  destruct (bool_decide ("/"%char = c)) eqn:Heq; [|done].
  apply bool_decide_eq_true in Heq. subst c. done.
Qed.

Lemma basename_no_sep (p : string) : Path.has_sep (Path.basename p) = false.
Proof.
  induction p as [|c p IH]; [done|]. cbn.
  destruct (Path.has_sep p) eqn:Hp; [done|].
  destruct (Path.is_sep c) eqn:Hc; [done|]. cbn. by rewrite Hc, Hp.
Qed.

Lemma endswith_has_sep (p s : string) :
  Path.endswith p s = true → Path.has_sep p = false → Path.has_sep s = false.
Proof.
  induction p as [|c p IH]; cbn.
  - intros Hs _. rewrite orb_false_r in Hs. apply bool_decide_eq_true in Hs.
    by subst s.
  - intros [Hs|Hs]%orb_true_iff [Hc Hp]%orb_false_iff.
    + apply bool_decide_eq_true in Hs. subst s. cbn. by rewrite Hc, Hp.
    + by apply IH.
Qed.

Lemma basename_endswith (p s : string) :
  Path.has_sep s = false →
  Path.endswith p s = true → Path.endswith (Path.basename p) s = true.
Proof.
  intros Hs. induction p as [|c p IH]; [done|].
  intros Hp. cbn in Hp. cbn [Path.basename].
  apply orb_true_iff in Hp.
  destruct (Path.has_sep p) eqn:Hsep.
  - destruct Hp as [Heq|Hp]; [|by apply IH].
    apply bool_decide_eq_true in Heq. subst s. cbn in Hs.
    rewrite Hsep, orb_true_r in Hs. done.
  - destruct (Path.is_sep c) eqn:Hc.
    + destruct Hp as [Heq|Hp]; [|done].
      apply bool_decide_eq_true in Heq. subst s. cbn in Hs.
      by rewrite Hc in Hs.
    + cbn. apply orb_true_iff. destruct Hp as [Heq|Hp]; [by left|by right].
Qed.

(** [join a b] for a relative [b] puts [b] after [a]. *)
Lemma join_relative (a b : string) :
  Path.startswith b "/" = false → ∃ mid, Path.join a b = a +:+ mid +:+ b.
Proof.
  intros Hb. unfold Path.join. rewrite Hb.
  destruct (bool_decide (a = "") || Path.endswith a "/").
  - by exists "".
  - by exists "/".
Qed.

Lemma child_of_spec (d p name : string) :
  Path.child_of d p = Some name →
  Path.has_sep name = false ∧ name ≠ "".
Proof.
  unfold Path.child_of. destruct (Path.strip_prefix _ p) as [r|]; [|done].
  destruct (bool_decide (r = "")) eqn:Hr; [done|].
  destruct (Path.has_sep r) eqn:Hs; [done|].
  cbn. intros [= <-]. split; [done|]. by apply bool_decide_eq_false in Hr.
Qed.

Lemma entries_no_sep (w : World) (d : string) :
  Forall (fun name => Path.has_sep name = false) (entries w d).
Proof.
  apply Forall_forall. intros name (p & _ & Hp)%list_elem_of_omap.
  by apply child_of_spec in Hp as [? _].
Qed.

(** A file directly in [d] is among the entries of [d]. *)
Lemma entries_file (w : World) (d name : string) :
  Path.has_sep name = false → name ≠ "" →
  is_Some (files w !! (d +:+ "/" +:+ name)) →
  name ∈ entries w d.
Proof.
  intros Hs Hne Hf. apply list_elem_of_omap. exists (d +:+ "/" +:+ name). split.
  - apply elem_of_elements, elem_of_union. right. by apply elem_of_dom.
  - unfold Path.child_of. rewrite <- append_assoc, strip_prefix_app, Hs.
    by rewrite bool_decide_eq_false_2.
Qed.


(** *** [create_directories] *)

Lemma dir_step_bind (ds : gset string) (m : M unit) (k : unit -> M unit) (w : World) :
  dir_step ds w (m w) →
  (∀ w', dir_step ds w' (k tt w')) →
  dir_step ds w (bind m k w).
Proof.
  intros (Hf & Hw & Hlo & Hhi & He) Hk. rewrite bind_run. unfold dir_step.
  destruct (outcome (m w)) as [[]|e] eqn:Ho; cbn [final events outcome].
  - destruct (Hk (final (m w))) as (Hf' & Hw' & Hlo' & Hhi' & He').
    repeat split.
    + by rewrite Hf'.
    + by rewrite writes_app, Hw, Hw'.
    + by etrans.
    + intros x [Hx|Hx]%Hhi'%elem_of_union; [by apply Hhi|].
      apply elem_of_union. by right.
    + done.
  - repeat split; try done.
Qed.

Lemma dir_step_mono (ds ds' : gset string) (w : World) (r : Run unit) :
  ds ⊆ ds' → dir_step ds w r → dir_step ds' w r.
Proof. intros Hsub (? & ? & ? & ? & ?). repeat split; try done. set_solver. Qed.

Lemma dir_step_print (ds : gset string) (m : Msg) (w : World) :
  dir_step ds w (print m w).
Proof. repeat split; try done. cbn. set_solver. Qed.

Lemma mkdir_exist_ok_spec (leaf : bool) (d : string) (w : World) :
  dir_step {[d]} w (mkdir_exist_ok leaf d w)
  ∧ (outcome (mkdir_exist_ok leaf d w) = Ok tt →
     d ∈ dirs (final (mkdir_exist_ok leaf d w))).
Proof.
  unfold mkdir_exist_ok, is_dir. case_bool_decide as Hd; cbn.
  - split; [|done]. repeat split; try done. set_solver.
  - destruct (is_file w d); cbn.
    + split; [|done]. repeat split; try done; [set_solver|].
      intros e [= <-]. by destruct leaf.
    + split; [|set_solver]. repeat split; try done; set_solver.
Qed.

Lemma mkdir_chain_spec (ds : list string) (w : World) :
  dir_step (list_to_set ds) w (mkdir_chain ds w)
  ∧ (outcome (mkdir_chain ds w) = Ok tt →
     ∀ d, d ∈ ds → d ∈ dirs (final (mkdir_chain ds w))).
Proof.
  revert w. induction ds as [|d ds IH]; intros w.
  - split; [|by intros _ d ?%elem_of_nil]. repeat split; try done. cbn. set_solver.
  - destruct ds as [|d' ds].
    + destruct (mkdir_exist_ok_spec true d w) as [Hs Hd]. split.
      * eapply dir_step_mono; [|exact Hs]. set_solver.
      * intros Ho x ->%list_elem_of_singleton. by apply Hd.
    + change (mkdir_chain (d :: d' :: ds) w)
        with (bind (mkdir_exist_ok false d) (fun _ => mkdir_chain (d' :: ds)) w).
      destruct (mkdir_exist_ok_spec false d w) as [Hs Hd]. split.
      * apply dir_step_bind.
        -- eapply dir_step_mono; [|exact Hs]. set_solver.
        -- intros w'. eapply dir_step_mono; [|apply IH]. set_solver.
      * rewrite bind_run.
        destruct (outcome (mkdir_exist_ok false d w)) as [[]|e];
          cbn [final outcome]; [|done].
        destruct (IH (final (mkdir_exist_ok false d w))) as [(_ & _ & Hlo & _) Hin].
        intros Ho x [->|Hx]%elem_of_cons; [|by apply Hin].
        apply Hlo. by apply Hd.
Qed.

(** The loop of [create_directories], for any list of directories that
    are their own last ancestor. *)
Lemma create_loop_spec (ds : list string) (w : World) :
  Forall (fun d => d ∈ Path.ancestors d) ds →
  dir_step (list_to_set (ds ≫= Path.ancestors)) w
    (for_each ds (fun directory =>
       os_makedirs directory ;;; print (MCreatedDirectory directory)) w)
  ∧ (outcome (for_each ds (fun directory =>
       os_makedirs directory ;;; print (MCreatedDirectory directory)) w) = Ok tt →
     ∀ d, d ∈ ds →
       d ∈ dirs (final (for_each ds (fun directory =>
         os_makedirs directory ;;; print (MCreatedDirectory directory)) w))).
Proof.
  intros Hds. revert w. induction Hds as [|d ds Hd _ IH]; intros w.
  - split; [|by intros _ d ?%elem_of_nil]. repeat split; try done. cbn. set_solver.
  - rewrite for_each_cons.
    set (step := os_makedirs d ;;; print (MCreatedDirectory d)).
    assert (Hstep : ∀ w', dir_step (list_to_set (Path.ancestors d)) w' (step w')
              ∧ (outcome (step w') = Ok tt → d ∈ dirs (final (step w')))).
    { intros w'. unfold step, os_makedirs.
      destruct (mkdir_chain_spec (Path.ancestors d) w') as [Hs Hin]. split.
      - apply dir_step_bind; [done|]. intros w''. apply dir_step_print.
      - rewrite bind_run.
        destruct (outcome (mkdir_chain (Path.ancestors d) w')) as [[]|e];
          cbn [final outcome print]; [|done].
        intros _. by apply Hin. }
    cbn [mbind list_bind]. split.
    + apply dir_step_bind.
      * eapply dir_step_mono; [|apply Hstep]. rewrite list_to_set_app_L. set_solver.
      * intros w'. eapply dir_step_mono; [|apply IH].
        rewrite list_to_set_app_L. set_solver.
    + rewrite bind_run. destruct (Hstep w) as [_ Hin].
      destruct (outcome (step w)) as [[]|e]; cbn [final outcome]; [|done].
      destruct (IH (final (step w))) as [(_ & _ & Hlo & _) Hrest].
      intros Ho x [->|Hx]%elem_of_cons; [|by apply Hrest].
      apply Hlo. by apply Hin.
Qed.

Lemma create_directories_spec (w : World) :
  dir_step (list_to_set (directories ≫= Path.ancestors)) w (create_directories w)
  ∧ (outcome (create_directories w) = Ok tt →
     ∀ d, d ∈ directories → is_dir (final (create_directories w)) d = true).
Proof.
  assert (Hds : Forall (fun d => d ∈ Path.ancestors d) directories).
  { apply (bool_decide_unpack (Forall _ _)). by vm_compute. }
  destruct (create_loop_spec directories w Hds) as [Hs Hin].
  unfold create_directories, is_dir.
  split; [exact Hs|]. intros Ho d Hd. rewrite bool_decide_eq_true.
  exact (Hin Ho d Hd).
Qed.

(** *** [create_ios_contents_json] *)

Lemma create_ios_contents_json_ok (w : World) :
  writable w contents_path = true →
  create_ios_contents_json w
  = {| final := {| dirs := dirs w;
                   files := <[contents_path := CJson contents]> (files w) |};
       events := [EWrite contents_path (CJson contents);
                  EPrint (MCreatedContents contents_path)];
       outcome := Ok tt |}.
Proof.
  intros Hw. unfold create_ios_contents_json. by rewrite bind_run, write_file_ok.
Qed.

Lemma create_ios_contents_json_fail (w : World) :
  writable w contents_path = false →
  ∃ e, is_Exception e = true ∧
       create_ios_contents_json w = {| final := w; events := []; outcome := Raise e |}.
Proof.
  intros Hw. unfold create_ios_contents_json. rewrite bind_run.
  destruct (write_file_fail contents_path (CJson contents) w Hw) as (e & He & ->).
  by exists e.
Qed.


(** *** [copy_icons_to_ios] *)

Lemma shutil_copy2_spec (src dst : string) (w : World) :
  (∃ c, files w !! src = Some c
        ∧ shutil_copy2 src dst w
          = {| final :=
                 {| dirs := dirs w;
                    files := <[(if is_dir w dst
                                then Path.join dst (Path.basename src)
                                else dst) := c]> (files w) |};
               events := [EWrite (if is_dir w dst
                                  then Path.join dst (Path.basename src)
                                  else dst) c];
               outcome := Ok tt |})
  ∨ (∃ e, is_Exception e = true
          ∧ shutil_copy2 src dst w = {| final := w; events := []; outcome := Raise e |}).
Proof.
  unfold shutil_copy2.
  set (dst' := if is_dir w dst then _ else _).
  destruct (bool_decide (src = dst')); [right; by exists SameFileError|].
  destruct (is_dir w src); [right; by exists IsADirectoryError|].
  destruct (files w !! src) as [c|] eqn:Hc; [|right; by exists FileNotFoundError].
  destruct (writable w dst') eqn:Hw.
  - left. exists c. split; [done|]. by apply write_file_ok.
  - right. by apply write_file_fail.
Qed.

Lemma exists_in_mono (w w' : World) (p : string) :
  dirs w' = dirs w →
  (∀ q, is_Some (files w !! q) → is_Some (files w' !! q)) →
  exists_in w p = true → exists_in w' p = true.
Proof.
  intros Hd Hf. unfold exists_in, is_dir, is_file. rewrite Hd, !orb_true_iff.
  intros [?|Hp]; [by left|right].
  apply bool_decide_eq_true. apply bool_decide_eq_true in Hp. by apply Hf.
Qed.

Lemma copy_target_ok (name : string) (w : World) :
  Path.has_sep name = false → Path.endswith name ".png" = true →
  let target := if is_dir w (Path.join target_dir name)
                then Path.join (Path.join target_dir name)
                       (Path.basename (Path.join source_dir name))
                else Path.join target_dir name in
  Path.under target_dir target = true ∧ Path.endswith target ".png" = true.
Proof.
  intros Hs Hpng.
  assert (Hrel := relative_no_sep name Hs).
  assert (Ht : Path.join target_dir name = target_dir +:+ "/" +:+ name).
  { unfold Path.join. by rewrite Hrel. }
  assert (Hsrc : Path.join source_dir name = source_dir +:+ "/" +:+ name).
  { unfold Path.join. by rewrite Hrel. }
  assert (H1 : Path.under target_dir (Path.join target_dir name) = true)
    by (rewrite Ht; apply under_child).
  assert (H2 : Path.endswith (Path.join target_dir name) ".png" = true)
    by (rewrite Ht; by do 2 apply endswith_app).
  cbn zeta. destruct (is_dir w (Path.join target_dir name)); [|done].
  set (b := Path.basename (Path.join source_dir name)).
  assert (Hb : Path.endswith b ".png" = true).
  { apply basename_endswith; [done|]. rewrite Hsrc. by do 2 apply endswith_app. }
  destruct (join_relative (Path.join target_dir name) b) as [mid ->].
  { apply relative_no_sep, basename_no_sep. }
  split; [by apply under_more|by do 2 apply endswith_app].
Qed.

Lemma apply_writes_keeps (ws : list (string * Content)) (m : gmap string Content)
    (q : string) :
  is_Some (m !! q) → is_Some (apply_writes ws m !! q).
Proof.
  revert m. induction ws as [|[p c] ws IH]; intros m Hq; [done|].
  rewrite apply_writes_cons. apply IH. rewrite lookup_insert_is_Some. 
  destruct (decide (p = q)); auto.
Qed.

(** The loop of [copy_icons_to_ios] over a list of entry names. *)
Lemma copy_loop_spec (names : list string) (w : World) :
  Forall (fun name => Path.has_sep name = false) names →
  let r := for_each names (fun filename =>
             if Path.endswith filename ".png" then
               shutil_copy2 (Path.join source_dir filename)
                 (Path.join target_dir filename) ;;;
               print (MCopied filename)
             else ret tt) w in
  dirs (final r) = dirs w
  ∧ files (final r) = apply_writes (writes (events r)) (files w)
  ∧ no_mkdir (events r)
  ∧ Forall (fun p => Path.under target_dir p = true
                     ∧ Path.endswith p ".png" = true) (written_paths (events r))
  ∧ (outcome r = Ok tt → ∀ name, name ∈ names →
       Path.endswith name ".png" = true →
       exists_in (final r) (Path.join target_dir name) = true)
  ∧ (∀ e, outcome r = Raise e → is_Exception e = true).
Proof.
  intros Hnames. revert w. induction Hnames as [|name names Hs _ IH]; intros w r.
  - subst r. cbn. repeat split; try done. intros _ name Hn. by apply elem_of_nil in Hn.
  - subst r. rewrite for_each_cons, bind_run.
    set (step := if Path.endswith name ".png" then _ else _).
    assert (Hstep :
      dirs (final (step w)) = dirs w
      ∧ files (final (step w)) = apply_writes (writes (events (step w))) (files w)
      ∧ no_mkdir (events (step w))
      ∧ Forall (fun p => Path.under target_dir p = true
                         ∧ Path.endswith p ".png" = true)
          (written_paths (events (step w)))
      ∧ (outcome (step w) = Ok tt → Path.endswith name ".png" = true →
         exists_in (final (step w)) (Path.join target_dir name) = true)
      ∧ (∀ e, outcome (step w) = Raise e → is_Exception e = true)).
    { subst step. destruct (Path.endswith name ".png") eqn:Hpng.
      - rewrite bind_run.
        destruct (shutil_copy2_spec (Path.join source_dir name)
                    (Path.join target_dir name) w) as [(c & Hc & ->)|(e & He & ->)];
          cbn [final events outcome dirs files app print].
        + destruct (copy_target_ok name w Hs Hpng) as [Hu He].
          repeat split; try done.
          * rewrite written_paths_write, written_paths_print.
            by repeat constructor.
          * intros _ _. unfold exists_in, is_dir, is_file. cbn [dirs files].
            destruct (bool_decide (Path.join target_dir name ∈ dirs w)) eqn:Hd;
              [done|]. cbn [orb]. apply bool_decide_eq_true.
            by rewrite lookup_insert_eq.
        + repeat split; try done. by intros e' [= <-].
      - by cbn. }
    destruct Hstep as (Hd & Hf & Hmk & Hall & Hex & Hexn).
    destruct (outcome (step w)) as [[]|e] eqn:Ho; cbn [final events outcome].
    + destruct (IH (final (step w))) as (Hd' & Hf' & Hmk' & Hall' & Hex' & Hexn').
      unfold no_mkdir, written_paths in *.
      rewrite writes_app, apply_writes_app, <- Hf, omap_app, Hmk, Hmk', fmap_app.
      repeat split; try done.
      * congruence.
      * by apply Forall_app_2.
      * intros Hok n [->|Hn]%elem_of_cons Hpng; [|by apply Hex'].
        eapply exists_in_mono; [exact Hd'| |by apply Hex].
        intros q Hq. rewrite Hf'. by apply apply_writes_keeps.
    + repeat split; try done.
Qed.

Lemma copy_icons_to_ios_spec (w : World) :
  dirs (final (copy_icons_to_ios w)) = dirs w
  ∧ files (final (copy_icons_to_ios w))
    = apply_writes (writes (events (copy_icons_to_ios w))) (files w)
  ∧ no_mkdir (events (copy_icons_to_ios w))
  ∧ Forall (fun p => Path.under target_dir p = true
                     ∧ Path.endswith p ".png" = true)
      (written_paths (events (copy_icons_to_ios w)))
  ∧ (outcome (copy_icons_to_ios w) = Ok tt → is_dir w source_dir = true →
     ∀ name, name ∈ entries w source_dir →
       Path.endswith name ".png" = true →
       exists_in (final (copy_icons_to_ios w)) (Path.join target_dir name) = true)
  ∧ (∀ e, outcome (copy_icons_to_ios w) = Raise e → is_Exception e = true).
Proof.
  unfold copy_icons_to_ios. rewrite bind_run.
  unfold os_path_exists. cbn [ret final events outcome app].
  destruct (exists_in w source_dir) eqn:Hex; cbn [negb].
  - rewrite bind_run. unfold os_listdir.
    destruct (is_dir w source_dir) eqn:Hd; cbn [ret raise final events outcome app].
    + destruct (copy_loop_spec (entries w source_dir) w (entries_no_sep w source_dir))
        as (H1 & H2 & H3 & H4 & H5 & H6).
      repeat split; try done. intros Ho _. by apply H5.
    + destruct (is_file w source_dir); cbn; repeat split; try done;
        by intros e [= <-].
  - cbn. repeat split; try done. intros _ Hd.
    unfold exists_in in Hex. by rewrite Hd in Hex.
Qed.


(** *** [main] *)

Lemma print_next_steps_run (w : World) :
  print_next_steps w
  = {| final := w;
       events := (fun line => EPrint (MNextSteps line)) <$> seq 0 12;
       outcome := Ok tt |}.
Proof. reflexivity. Qed.

(** The success branch of [main]: the manifest, then the copies, then
    the closing lines; an exception ends it where it is raised. *)
Lemma finish_run (w : World) :
  finish w =
  match outcome (create_ios_contents_json w) with
  | Ok _ =>
      match outcome (copy_icons_to_ios (final (create_ios_contents_json w))) with
      | Ok _ =>
          {| final := final (copy_icons_to_ios (final (create_ios_contents_json w)));
             events := events (create_ios_contents_json w)
                       ++ events (copy_icons_to_ios (final (create_ios_contents_json w)))
                       ++ ((fun line => EPrint (MNextSteps line)) <$> seq 0 12);
             outcome := Ok tt |}
      | Raise e =>
          {| final := final (copy_icons_to_ios (final (create_ios_contents_json w)));
             events := events (create_ios_contents_json w)
                       ++ events (copy_icons_to_ios (final (create_ios_contents_json w)));
             outcome := Raise e |}
      end
  | Raise e =>
      {| final := final (create_ios_contents_json w);
         events := events (create_ios_contents_json w);
         outcome := Raise e |}
  end.
Proof.
  unfold finish. rewrite bind_run.
  destruct (outcome (create_ios_contents_json w)); [|done].
  rewrite bind_run.
  destruct (outcome (copy_icons_to_ios _)); cbn [final events outcome]; [|done].
  by rewrite print_next_steps_run.
Qed.

Lemma main_usage (argv : list string) (w : World) :
  length argv ≠ 2%nat →
  main argv w
  = {| final := w; events := [EPrint MUsage; EPrint MExample];
       outcome := Raise (SystemExit 1) |}.
Proof.
  intros Hlen. unfold main. rewrite bind_run.
  by rewrite bool_decide_eq_false_2.
Qed.

(** The control flow of [main] after the argument check, for any three
    steps in the place of [create_directories], [generate_icons] and the
    success branch. *)
Lemma main_shape (cd : M unit) (gen : M bool) (fin : M unit) (w : World) :
  (ret tt ;;;
   print MBanner ;;;
   print MRule ;;;
   cd ;;;
   ok <- gen ;;
   if ok then fin else print MFailed ;;; sys_exit 1) w
  = main_result (cd w) (gen (final (cd w))) (fin (final (gen (final (cd w))))).
Proof.
  unfold main_result.
  rewrite bind_ret_l, bind_run. cbn [print outcome final events app].
  rewrite bind_run. cbn [print outcome final events app].
  rewrite bind_run.
  destruct (outcome (cd w)) as [[]|e]; cbn [outcome final events]; [|done].
  rewrite bind_run.
  destruct (outcome (gen (final (cd w)))) as [[|]|e]; cbn [outcome final events];
    [done| |done].
  rewrite bind_run. cbn [print sys_exit raise outcome final events].
  unfold banner. by rewrite app_nil_r.
Qed.

(** [main] with one argument: the banner, the directories, the
    generation, and then one of the two branches. *)
Lemma main_run (prog src : string) (w : World) :
  main [prog; src] w
  = main_result (create_directories w)
      (generate_icons src (final (create_directories w)))
      (finish (final (generate_icons src (final (create_directories w))))).
Proof. exact (main_shape create_directories (generate_icons src) finish w). Qed.

(** *** Auxiliary facts for the claims *)



(** The lines a list of jobs prints are the lines of its jobs. *)
Lemma run_jobs_prints (img : Image) (js : list Job) (w : World) (m : Msg) :
  EPrint m ∈ events (run_jobs img js w) → ∃ j, j ∈ js ∧ m = j_msg j.
Proof.
  revert w. induction js as [|j js IH]; intros w.
  - by intros ?%elem_of_nil.
  - rewrite run_jobs_cons, bind_run.
    assert (Hj : EPrint m ∈ events (run_job img j w) → m = j_msg j).
    { rewrite run_job_unfold. destruct (j_make j img) as [im|];
        [|by intros ?%elem_of_nil].
      destruct (save_all_spec im (j_paths j) w) as (k & Hev & _).
      destruct (outcome (save_all im (j_paths j) w)); cbn [events]; rewrite Hev.
      - intros [Hin|Hin]%elem_of_app.
        + by apply list_elem_of_fmap in Hin as (p & ? & _).
        + apply list_elem_of_singleton in Hin. congruence.
      - by intros (p & ? & _)%list_elem_of_fmap. }
    destruct (outcome (run_job img j w)); cbn [events].
    + intros [Hin|Hin]%elem_of_app.
      * exists j. split; [by left|by apply Hj].
      * destruct (IH _ Hin) as (j' & Hj' & ->). exists j'. split; [by right|done].
    + intros Hin. exists j. split; [by left|by apply Hj].
Qed.


(** On success every job of the plan made its image and the writes are
    the outputs of the jobs, each path once. *)
Lemma generate_icons_complete (src : string) (w : World) (img : Image) :
  loads w src img →
  outcome (generate_icons src w) = Ok true →
  Forall (job_ok img w) plan
  ∧ writes (events (generate_icons src w)) = plan ≫= job_outputs img
  ∧ written_paths (events (generate_icons src w)) = generated_files.
Proof.
  intros Hl Hok.
  destruct (generate_icons_writes src w img Hl) as (Hw & _ & Hiff & _).
  apply Hiff in Hok. unfold written_paths. rewrite Hw.
  destruct (run_jobs_spec img plan w) as (_ & _ & _ & _ & _ & Hout).
  destruct Hout as [(_ & Hall & Hws)|(e & Ho & _)]; [|congruence].
  repeat split; [done..|].
  rewrite Hws, outputs_paths; [apply plan_paths|].
  by apply jobs_ok_split in Hall as [? _].
Qed.


(** *** The claims about [generate_icons] *)


(** C2 (amended).  Every file [generate_icons] writes holds an image made
    from the source it loaded.  For the iOS rows, the Android rows (all
    three paths of a row) and the store rows other than 1024x500 it is
    the source resampled to the row's width and height.  For the
    1024x500 row it is the feature graphic: the source resampled to
    400x400 and pasted at (312, 50) on a 1024x500 canvas of colour
    #1976D2, not a resample to 1024x500. *)
Theorem C2_outputs_resampled (src : string) (w : World) (p : string) (c : Content) :
  (p, c) ∈ writes (events (generate_icons src w)) →
  ∃ img, loads w src img ∧
    ((∃ width height name,
        (width, height, name) ∈ getitem ICON_SIZES "ios"
        ∧ p = ios_path width height name
        ∧ resampled img (width, height) c)
     ∨ (∃ width height density,
          (width, height, density) ∈ getitem ICON_SIZES "android"
          ∧ p ∈ [android_asset_path width height density;
                 launcher_path density; launcher_round_path density]
          ∧ resampled img (width, height) c)
     ∨ (∃ width height name,
          (width, height, name) ∈ getitem ICON_SIZES "store"
          ∧ ¬ (width = 1024 ∧ height = 500)
          ∧ p = store_path width height name
          ∧ resampled img (width, height) c)
     ∨ (∃ name graphic,
          (1024, 500, name) ∈ getitem ICON_SIZES "store"
          ∧ p = feature_graphic_path
          ∧ feature_graphic img = Some graphic
          ∧ c = CImage "PNG" graphic)).
Proof.
  intros Hpc. apply generate_icons_justified in Hpc as (img & Hl & Hj).
  exists img. split; [done|].
  destruct Hj as (j & im & i & Hin & Hmake & Hc & Hi & _). cbn [fst snd] in *.
  apply plan_job_cases in Hin
    as [(platform & ->)|[(row & Hrow & ->)|[(row & Hrow & ->)|(row & Hrow & ->)]]].
  - done.
  - destruct row as [[width height] name]. left.
    exists width, height, name. cbn in Hi, Hmake.
    destruct i; [|done]. injection Hi as <-.
    repeat split; [done..|]. by exists im.
  - destruct row as [[width height] density]. right. left.
    exists width, height, density. cbn in Hi, Hmake.
    repeat split; [done| |by exists im].
    apply list_elem_of_lookup. by exists i.
  - destruct row as [[width height] name]. right. right.
    unfold store_job in Hi, Hmake.
    destruct (bool_decide (width = 1024) && bool_decide (height = 500)) eqn:Hb.
    + right. apply andb_true_iff in Hb as [->%bool_decide_eq_true ->%bool_decide_eq_true].
      exists name, im. cbn in Hi, Hmake.
      destruct i; [|done]. injection Hi as <-. by repeat split.
    + left. exists width, height, name. cbn in Hi, Hmake.
      destruct i; [|done]. injection Hi as <-.
      repeat split; [done| |by exists im].
      intros [-> ->]. done.
Qed.




(** After a complete generation every path of the plan holds the image
    its job made. *)
Lemma generate_icons_holds (src : string) (w : World) (img : Image)
    (j : Job) (p : string) :
  loads w src img →
  outcome (generate_icons src w) = Ok true →
  j ∈ plan → p ∈ j_paths j →
  ∃ im, j_make j img = Some im
        ∧ (p, CImage "PNG" im) ∈ writes (events (generate_icons src w))
        ∧ files (final (generate_icons src w)) !! p = Some (CImage "PNG" im).
Proof.
  intros Hl Hok Hj Hp.
  destruct (generate_icons_complete src w img Hl Hok) as (Hall & Hws & Hpaths).
  destruct (generate_icons_state src w) as (_ & Hf & _).
  rewrite Forall_forall in Hall. destruct (Hall j Hj) as [[im Him] _].
  exists im. split; [done|].
  assert (Hin : (p, CImage "PNG" im) ∈ writes (events (generate_icons src w))).
  { rewrite Hws. apply list_elem_of_bind. exists j. split; [|done].
    unfold job_outputs. rewrite Him. apply list_elem_of_fmap. by exists p. }
  split; [done|]. rewrite Hf. apply apply_writes_lookup; [|done].
  fold (written_paths (events (generate_icons src w))). rewrite Hpaths.
  apply generated_files_NoDup.
Qed.

Ltac rows H :=
  vm_compute in H;
  repeat (apply elem_of_cons in H as [[= -> -> ->]|H]);
  try (by apply elem_of_nil in H).

(** C9.  For every Android row of the table, whenever [generate_icons]
    writes [ic_launcher_round.png] of that density it has written the
    same content to [ic_launcher.png] of that density; after a complete
    generation both files hold the same image, the source resampled to
    the row's size. *)
Theorem C9_round_is_launcher (src : string) (w : World)
    (width height : Z) (density : string) :
  (width, height, density) ∈ getitem ICON_SIZES "android" →
  (∀ c, (launcher_round_path density, c) ∈ writes (events (generate_icons src w)) →
        (launcher_path density, c) ∈ writes (events (generate_icons src w)))
  ∧ (outcome (generate_icons src w) = Ok true →
     ∃ img resized,
       loads w src img
       ∧ im_resize img (width, height) = Some resized
       ∧ files (final (generate_icons src w)) !! launcher_round_path density
         = Some (CImage "PNG" resized)
       ∧ files (final (generate_icons src w)) !! launcher_path density
         = Some (CImage "PNG" resized)).
Proof.
  intros Hrow. split.
  - intros c Hc.
    apply generate_icons_justified in Hc
      as (img & _ & (j & im & i & Hin & _ & _ & Hi & Hcl)).
    cbn [fst snd] in *.
    apply plan_job_cases in Hin
      as [(platform & ->)|[(row & Hr & ->)|[(row & Hr & ->)|(row & Hr & ->)]]];
      [done| | |].
    all: destruct row as [[width' height'] name']; rows Hr; rows Hrow.
    all: destruct i as [|[|[|i]]]; try (vm_compute in Hi; discriminate Hi).
    all: apply (Hcl 1%nat); [lia|reflexivity].
  - intros Hok.
    destruct (generate_icons_cases src w) as [(m & Hr & _)|(img & Hl)].
    { rewrite Hr in Hok. discriminate. }
    assert (Hj : android_job (width, height, density) ∈ plan).
    { unfold plan. rewrite !elem_of_app, !elem_of_cons, !list_elem_of_fmap.
      right. left. right. by exists (width, height, density). }
    destruct (generate_icons_holds src w img _ (launcher_round_path density)
                Hl Hok Hj) as (im & Him & _ & Hround).
    { apply list_elem_of_lookup. by exists 2%nat. }
    destruct (generate_icons_holds src w img _ (launcher_path density)
                Hl Hok Hj) as (im' & Him' & _ & Hlaunch).
    { apply list_elem_of_lookup. by exists 1%nat. }
    exists img, im. rewrite Him in Him'. injection Him' as <-.
    split; [done|]. split; [exact Him|]. by split.
Qed.


(** *** The claims about [main] *)

Lemma under_in_layout (d p : string) :
  d ∈ directories → Path.under d p = true → in_layout p = true.
Proof.
  intros Hd Hu. unfold in_layout. apply existsb_exists.
  exists d. split; [by apply list_elem_of_In|done].
Qed.

Lemma generated_files_in_layout (p : string) :
  p ∈ generated_files → in_layout p = true.
Proof.
  revert p. apply Forall_forall.
  apply (bool_decide_unpack (Forall _ _)). by vm_compute.
Qed.

Lemma generate_icons_prefix (src : string) (w : World) :
  written_paths (events (generate_icons src w)) `prefix_of` generated_files.
Proof.
  destruct (generate_icons_cases src w) as [(m & -> & _)|(img & Hl)].
  - apply prefix_nil.
  - destruct (generate_icons_writes src w img Hl) as (Hw & _).
    unfold written_paths. rewrite Hw, <- plan_paths. apply run_jobs_prefix.
Qed.

Lemma generate_icons_in_layout (src : string) (w : World) (p : string) :
  p ∈ written_paths (events (generate_icons src w)) → in_layout p = true.
Proof.
  intros Hp. apply generated_files_in_layout.
  destruct (generate_icons_prefix src w) as [rest ->].
  apply elem_of_app. by left.
Qed.

Lemma create_ios_contents_json_spec (w : World) :
  dirs (final (create_ios_contents_json w)) = dirs w
  ∧ files (final (create_ios_contents_json w))
    = apply_writes (writes (events (create_ios_contents_json w))) (files w)
  ∧ no_mkdir (events (create_ios_contents_json w))
  ∧ (∀ p, p ∈ written_paths (events (create_ios_contents_json w)) →
          p = contents_path)
  ∧ (outcome (create_ios_contents_json w) = Ok tt ↔ writable w contents_path = true)
  ∧ (∀ e, outcome (create_ios_contents_json w) = Raise e → is_Exception e = true).
Proof.
  destruct (writable w contents_path) eqn:Hw.
  - rewrite (create_ios_contents_json_ok w Hw). cbn [final events outcome dirs files].
    repeat split; try done.
    intros p Hp. by apply list_elem_of_singleton in Hp.
  - destruct (create_ios_contents_json_fail w Hw) as (e & He & ->).
    cbn [final events outcome]. repeat split; try done.
    + intros p Hp. by apply elem_of_nil in Hp.
    + by intros e' [= <-].
Qed.

(** The success branch: what it writes and where. *)
Lemma finish_spec (w : World) :
  dirs (final (finish w)) = dirs w
  ∧ files (final (finish w)) = apply_writes (writes (events (finish w))) (files w)
  ∧ no_mkdir (events (finish w))
  ∧ (∀ p, p ∈ written_paths (events (finish w)) → in_layout p = true)
  ∧ (contents_path ∈ written_paths (events (finish w))
     ↔ writable w contents_path = true)
  ∧ (∀ e, outcome (finish w) = Raise e → is_Exception e = true).
Proof.
  rewrite finish_run.
  destruct (create_ios_contents_json_spec w) as (Hd & Hf & Hmk & Hp & Hok & He).
  set (m := create_ios_contents_json w) in *.
  destruct (copy_icons_to_ios_spec (final m)) as (Hd' & Hf' & Hmk' & Hp' & _ & He').
  set (cp := copy_icons_to_ios (final m)) in *.
  assert (Hlay : ∀ p, p ∈ written_paths (events m) ++ written_paths (events cp) →
                      in_layout p = true).
  { intros p [Hin|Hin]%elem_of_app.
    - rewrite (Hp p Hin). by vm_compute.
    - rewrite Forall_forall in Hp'. destruct (Hp' p Hin) as [Hu _].
      apply (under_in_layout target_dir); [|done].
      apply (bool_decide_unpack (_ ∈ _)). by vm_compute. }
  assert (Hcp : contents_path ∉ written_paths (events cp)).
  { intros Hin. rewrite Forall_forall in Hp'. by destruct (Hp' _ Hin) as [_ ?]. }
  assert (Hsteps : writes ((fun line => EPrint (MNextSteps line)) <$> seq 0 12) = [])
    by done.
  assert (Hsteps' : omap mkdir_of ((fun line => EPrint (MNextSteps line)) <$> seq 0 12)
                    = []) by done.
  unfold no_mkdir, written_paths in *.
  destruct (outcome m) as [[]|e] eqn:Ho; cbn [final events outcome].
  - assert (Hm : contents_path ∈ (writes (events m)).*1).
    { assert (Hw : writable w contents_path = true) by by apply Hok.
      subst m. rewrite (create_ios_contents_json_ok w Hw). cbn. by left. }
    destruct (outcome cp) as [[]|e] eqn:Ho'; cbn [final events outcome].
    + rewrite !writes_app, !omap_app, Hsteps, Hsteps', Hmk, Hmk', app_nil_r.
      rewrite apply_writes_app, <- Hf, fmap_app.
      repeat split;
        first [ done | congruence | by (intros _; apply Hok)
              | by (intros _; apply elem_of_app; left) ].
    + rewrite !writes_app, !omap_app, Hmk, Hmk'.
      rewrite apply_writes_app, <- Hf, fmap_app.
      repeat split;
        first [ done | congruence | by (intros _; apply Hok)
              | by (intros _; apply elem_of_app; left)
              | by (intros e' [= <-]; apply He') ].
  - assert (Hw : writable w contents_path = false).
    { destruct (writable w contents_path); [|done].
      assert (@Raise unit e = Ok ()) by by apply Hok. done. }
    assert (Hnone : (writes (events m)).*1 = []).
    { subst m. destruct (create_ios_contents_json_fail w Hw) as (e0 & _ & Hr).
      by rewrite Hr. }
    rewrite Hw, Hnone. repeat split; try done.
    + intros p Hin. by apply elem_of_nil in Hin.
    + intros Hin. by apply elem_of_nil in Hin.
Qed.

(** C10.  With any number of arguments other than one, [main] prints the
    two usage lines and exits with status 1; it creates no directory and
    writes no file, and the file system is as before. *)
Theorem C10_usage_exit (argv : list string) (w : World) :
  length argv ≠ 2%nat →
  main argv w
  = {| final := w; events := [EPrint MUsage; EPrint MExample];
       outcome := Raise (SystemExit 1) |}
  ∧ exit_status (main argv w) = 1
  ∧ no_mkdir (events (main argv w))
  ∧ no_write (events (main argv w)).
Proof. intros Hlen. by rewrite (main_usage argv w Hlen). Qed.


Lemma exit_status_exception (r : Run unit) (e : Exn) :
  outcome r = Raise e → is_Exception e = true → exit_status r = 1.
Proof. unfold exit_status. intros -> He. by destruct e. Qed.

Lemma is_dir_same_dirs (w w' : World) (p : string) :
  dirs w' = dirs w → is_dir w' p = is_dir w p.
Proof. intros Hd. unfold is_dir. by rewrite Hd. Qed.


Lemma target_dir_listed : target_dir ∈ directories.
Proof. apply (bool_decide_unpack (_ ∈ _)). by vm_compute. Qed.




Lemma generated_files_elsewhere (p : string) :
  p ∈ generated_files → Path.under target_dir p = false.
Proof.
  revert p. apply Forall_forall.
  apply (bool_decide_unpack (Forall _ _)). by vm_compute.
Qed.


(** The whole run, from what is known of its three steps: the file
    system afterwards is the one before plus the logged writes, and every
    write is below a directory of the layout. *)
Lemma main_result_logged (w : World) (cd : Run unit) (gen : Run bool) (fin : Run unit) :
  files (final cd) = files w →
  writes (events cd) = [] →
  files (final gen) = apply_writes (writes (events gen)) (files (final cd)) →
  (∀ p, p ∈ written_paths (events gen) → in_layout p = true) →
  files (final fin) = apply_writes (writes (events fin)) (files (final gen)) →
  (∀ p, p ∈ written_paths (events fin) → in_layout p = true) →
  files (final (main_result cd gen fin))
  = apply_writes (writes (events (main_result cd gen fin))) (files w)
  ∧ ∀ p, p ∈ written_paths (events (main_result cd gen fin)) → in_layout p = true.
Proof.
  intros Hf Hw Hf' Hlay Hf'' Hlay'.
  assert (Hb : writes banner = []) by done.
  unfold main_result, written_paths in *.
  destruct (outcome cd) as [[]|e]; cbn [final events outcome].
  - destruct (outcome gen) as [[|]|e]; cbn [final events outcome];
      rewrite !writes_app, Hb, Hw; cbn [app].
    + rewrite apply_writes_app, <- Hf, <- Hf', fmap_app. split; [done|].
      intros p [?|?]%elem_of_app; auto.
    + change (writes [EPrint MFailed]) with (@nil (string * Content)).
      rewrite app_nil_r, <- Hf. split; [done|]. auto.
    + rewrite <- Hf. split; [done|]. auto.
  - rewrite writes_app, Hb, Hw. split; [done|]. by intros p ?%elem_of_nil.
Qed.

Lemma main_logged (argv : list string) (w : World) :
  files (final (main argv w))
  = apply_writes (writes (events (main argv w))) (files w)
  ∧ ∀ p, p ∈ written_paths (events (main argv w)) → in_layout p = true.
Proof.
  destruct (decide (length argv = 2%nat)) as [Hlen|Hlen];
    [|rewrite (main_usage argv w Hlen); split; [done|by intros p ?%elem_of_nil]].
  destruct argv as [|prog [|src [|]]]; try done. clear Hlen.
  rewrite main_run.
  destruct (create_directories_spec w) as [(Hf & Hw & _) _].
  destruct (generate_icons_state src (final (create_directories w))) as (_ & Hf' & _).
  destruct (finish_spec (final (generate_icons src (final (create_directories w)))))
    as (_ & Hf'' & _ & Hlay' & _).
  exact (main_result_logged w _ _ _ Hf Hw Hf'
           (generate_icons_in_layout src (final (create_directories w))) Hf'' Hlay').
Qed.

(** C7.  Every file written by [generate_icons],
    [create_ios_contents_json] and [copy_icons_to_ios], and so by a whole
    run of [main], lies below one of the nine directories of
    [create_directories]; files at other paths are left as they were. *)
Theorem C7_writes_in_layout (w : World) :
  length directories = 9%nat
  ∧ (∀ src p, p ∈ written_paths (events (generate_icons src w)) →
              in_layout p = true)
  ∧ (∀ p, p ∈ written_paths (events (create_ios_contents_json w)) →
          in_layout p = true)
  ∧ (∀ p, p ∈ written_paths (events (copy_icons_to_ios w)) → in_layout p = true)
  ∧ (∀ argv p, p ∈ written_paths (events (main argv w)) → in_layout p = true)
  ∧ (∀ argv q, in_layout q = false →
               files (final (main argv w)) !! q = files w !! q).
Proof.
  split; [done|]. split; [intros src; apply generate_icons_in_layout|].
  split.
  { intros p Hp.
    destruct (create_ios_contents_json_spec w) as (_ & _ & _ & Hpath & _).
    rewrite (Hpath p Hp). by vm_compute. }
  split.
  { intros p Hp.
    destruct (copy_icons_to_ios_spec w) as (_ & _ & _ & Hall & _).
    rewrite Forall_forall in Hall. destruct (Hall p Hp) as [Hu _].
    exact (under_in_layout target_dir p target_dir_listed Hu). }
  split; [intros argv; apply main_logged|].
  intros argv q Hq. destruct (main_logged argv w) as [-> Hlay].
  apply apply_writes_other. intros Hin. apply Hlay in Hin. congruence.
Qed.



Lemma generate_icons_returns (src : string) (w : World) :
  outcome (generate_icons src w) = Ok true
  ∨ outcome (generate_icons src w) = Ok false.
Proof.
  destruct (generate_icons_cases src w) as [(m & -> & _)|(img & Hl)]; [by right|].
  by destruct (generate_icons_writes src w img Hl) as (_ & _ & _ & ?).
Qed.






(** *** The manifest and the copies *)

Lemma generate_icons_present (src : string) (w : World) (p : string) :
  outcome (generate_icons src w) = Ok true →
  p ∈ generated_files →
  ∃ im, files (final (generate_icons src w)) !! p = Some (CImage "PNG" im).
Proof.
  intros Hok Hp.
  destruct (generate_icons_cases src w) as [(m & Hr & _)|(img & Hl)].
  { rewrite Hr in Hok. discriminate. }
  destruct (generate_icons_complete src w img Hl Hok) as (_ & _ & Hpaths).
  destruct (generate_icons_state src w) as (_ & Hf & _).
  rewrite <- Hpaths in Hp. rewrite Hf.
  destruct (apply_writes_written _ (files w) p Hp) as (c & Hc & ->).
  apply generate_icons_justified in Hc as (img' & _ & (j & im & _ & _ & _ & Hc & _)).
  cbn [snd] in Hc. subst c. by exists im.
Qed.

Lemma writable_parent (w : World) (p : string) :
  writable w p = true → Path.dirname p ≠ "" → is_dir w (Path.dirname p) = true.
Proof.
  unfold writable, parent_ok. intros [_ Hp]%andb_true_iff Hne.
  by rewrite bool_decide_eq_false_2 in Hp.
Qed.

(** A complete generation found the directory of the iOS icons. *)
Lemma generate_icons_source_dir (src : string) (w : World) :
  outcome (generate_icons src w) = Ok true → is_dir w source_dir = true.
Proof.
  intros Hok.
  destruct (generate_icons_cases src w) as [(m & Hr & _)|(img & Hl)].
  { rewrite Hr in Hok. discriminate. }
  destruct (generate_icons_complete src w img Hl Hok) as (Hall & _).
  apply jobs_ok_split in Hall as [_ Hall]. rewrite plan_paths in Hall.
  rewrite Forall_forall in Hall.
  assert (Hw := Hall "assets/app_icons/generated/ios/icon_1024x1024_ios-marketing.png"
                  ltac:(by left)).
  apply writable_parent in Hw; [|by vm_compute].
  assert (Hdn : Path.dirname
                  "assets/app_icons/generated/ios/icon_1024x1024_ios-marketing.png"
                = source_dir) by by vm_compute.
  by rewrite Hdn in Hw.
Qed.

(** Every file name of the manifest is a plain name ending in [.png]
    whose path in the iOS directory is one of the generated files. *)
Lemma manifest_names (e : IconEntry) :
  e ∈ images contents →
  Path.has_sep (filename e) = false
  ∧ filename e ≠ ""
  ∧ Path.endswith (filename e) ".png" = true
  ∧ Path.join source_dir (filename e) = source_dir +:+ "/" +:+ filename e
  ∧ Path.join source_dir (filename e) ∈ generated_files.
Proof.
  intros He. vm_compute in He.
  repeat (apply elem_of_cons in He as [->|He]).
  all: try (by apply elem_of_nil in He).
  all: repeat split; try (by vm_compute).
  all: apply (bool_decide_unpack (_ ∈ _)); by vm_compute.
Qed.


(** C8 (amended).  [generate_icons] and [create_ios_contents_json] are
    functions of the source image alone as far as their output goes: two
    complete generations from the same image, whatever the path of the
    source and whatever else the two file systems hold, write the same
    paths with the same contents in the same order, and leave the same
    content at every generated path; two writes of the manifest are the
    same write. *)
Theorem C8_generation_deterministic (src src' : string) (w w' : World) (img : Image) :
  loads w src img → loads w' src' img →
  outcome (generate_icons src w) = Ok true →
  outcome (generate_icons src' w') = Ok true →
  writes (events (generate_icons src w)) = writes (events (generate_icons src' w'))
  ∧ (∀ p, p ∈ generated_files →
          files (final (generate_icons src w)) !! p
          = files (final (generate_icons src' w')) !! p)
  ∧ (outcome (create_ios_contents_json w) = Ok tt →
     outcome (create_ios_contents_json w') = Ok tt →
     events (create_ios_contents_json w) = events (create_ios_contents_json w')).
Proof.
  intros Hl Hl' Hok Hok'.
  destruct (generate_icons_complete src w img Hl Hok) as (_ & Hws & Hpaths).
  destruct (generate_icons_complete src' w' img Hl' Hok') as (_ & Hws' & Hpaths').
  destruct (generate_icons_state src w) as (_ & Hf & _).
  destruct (generate_icons_state src' w') as (_ & Hf' & _).
  assert (Heq : writes (events (generate_icons src w))
                = writes (events (generate_icons src' w'))) by congruence.
  split; [done|]. split.
  - intros p Hp. rewrite Hf, Hf', <- Heq. rewrite <- Hpaths in Hp.
    destruct (apply_writes_written _ (files w) p Hp) as (c & Hc & ->).
    symmetry. apply apply_writes_lookup; [|done].
    fold (written_paths (events (generate_icons src w))). rewrite Hpaths.
    apply generated_files_NoDup.
  - intros Hm Hm'.
    destruct (create_ios_contents_json_spec w) as (_ & _ & _ & _ & Hiff & _).
    destruct (create_ios_contents_json_spec w') as (_ & _ & _ & _ & Hiff' & _).
    rewrite (create_ios_contents_json_ok w), (create_ios_contents_json_ok w');
      [done|by apply Hiff'|by apply Hiff].
Qed.

(** *** More on [create_directories] *)

Lemma prints_app (a b : list Event) : prints (a ++ b) = prints a ++ prints b.
Proof. apply omap_app. Qed.

Lemma created_app (a b : list Event) : created (a ++ b) = created a ++ created b.
Proof. apply omap_app. Qed.

Lemma creates_bind (ds ds' : list string) (ms ms' : list Msg)
    (m : M unit) (k : unit -> M unit) (w : World) :
  creates ds ms w (m w) →
  creates ds' ms' (final (m w)) (k tt (final (m w))) →
  creates (ds ++ ds') (ms ++ ms') w (bind m k w).
Proof.
  intros (Ho & Hf & Hd & Hw & Hp & Hnd & Hin) (Ho' & Hf' & Hd' & Hw' & Hp' & Hnd' & Hin').
  rewrite bind_run, Ho. cbn [final events outcome].
  unfold creates. cbn [final events outcome].
  rewrite writes_app, prints_app, created_app, Hw, Hw', Hp, Hp', Hf', Hf, Hd', Hd.
  split; [done|]. split; [done|].
  split; [rewrite list_to_set_app_L; set_solver|].
  split; [done|]. split; [done|]. split.
  - apply NoDup_app. repeat split; try done.
    intros x Hx Hx'. apply Hin in Hx as [Hx _]. apply Hin' in Hx' as [_ Hx'].
    apply Hx'. rewrite Hd. set_solver.
  - intros d. split.
    + intros [Hx|Hx]%elem_of_app.
      * apply Hin in Hx as [? ?]. set_solver.
      * apply Hin' in Hx as [? Hx]. rewrite Hd in Hx. set_solver.
    + intros [Hx Hnot]. apply elem_of_app.
      destruct (decide (d ∈ ds)) as [Hds|Hds].
      * left. by apply Hin.
      * right. apply Hin'. apply elem_of_app in Hx as [?|?]; [done|].
        split; [done|]. rewrite Hd. set_solver.
Qed.

Lemma creates_quiet (ms : list Msg) (w : World) (r : Run unit) :
  outcome r = Ok tt → final r = w → created (events r) = [] →
  writes (events r) = [] → prints (events r) = ms →
  creates [] ms w r.
Proof.
  intros Ho <- Hc Hw Hp. unfold creates. rewrite Hc.
  split; [done|]. split; [done|]. split; [cbn; set_solver|].
  split; [done|]. split; [done|]. split; [constructor|].
  intros d. split; [by intros ?%elem_of_nil|by intros [?%elem_of_nil _]].
Qed.

Lemma creates_print (m : Msg) (w : World) : creates [] [m] w (print m w).
Proof. by apply creates_quiet. Qed.

Lemma creates_ret (w : World) : creates [] [] w (ret tt w).
Proof. by apply creates_quiet. Qed.

Lemma mkdir_exist_ok_cases (leaf : bool) (d : string) (w : World) :
  (mkdir_possible w d = true ∧ creates [d] [] w (mkdir_exist_ok leaf d w))
  ∨ (mkdir_possible w d = false ∧ blocked (mkdir_exist_ok leaf d w)).
Proof.
  unfold mkdir_possible, mkdir_exist_ok.
  destruct (is_dir w d) eqn:Hd; cbn [orb].
  - left. split; [done|]. apply bool_decide_eq_true in Hd.
    unfold creates. cbn [ret final events outcome].
    split; [done|]. split; [done|]. split; [cbn; set_solver|].
    split; [done|]. split; [done|]. split; [constructor|].
    intros x. split; [by intros ?%elem_of_nil|].
    intros [->%list_elem_of_singleton ?]. done.
  - apply bool_decide_eq_false in Hd. destruct (is_file w d); cbn [negb].
    + right. split; [done|]. exists (if leaf then FileExistsError else NotADirectoryError).
      split; [done|]. destruct leaf; auto.
    + left. split; [done|]. unfold creates. cbn [final events outcome dirs files].
      split; [done|]. split; [done|]. split; [cbn; set_solver|].
      split; [done|]. split; [done|]. split; [cbn; apply NoDup_singleton|].
      intros x. cbn. rewrite !list_elem_of_singleton. split; [by intros ->|by intros [-> _]].
Qed.

(** Once [os.makedirs] has gone through [ds], it gets past the same
    directories as before. *)
Lemma mkdir_possible_stable (ds : list string) (w w' : World) (a : string) :
  Forall (fun d => mkdir_possible w d = true) ds →
  files w' = files w → dirs w' = dirs w ∪ list_to_set ds →
  mkdir_possible w' a = mkdir_possible w a.
Proof.
  intros Hds Hf Hd. unfold mkdir_possible, is_dir, is_file. rewrite Hf, Hd.
  destruct (decide (a ∈ ds)) as [Hin|Hin].
  - rewrite Forall_forall in Hds. specialize (Hds a Hin).
    unfold mkdir_possible, is_dir, is_file in Hds. rewrite Hds.
    rewrite bool_decide_eq_true_2; [done|]. set_solver.
  - f_equal. apply bool_decide_ext. set_solver.
Qed.

Lemma Forall_possible_stable (ds xs : list string) (w w' : World) :
  Forall (fun d => mkdir_possible w d = true) ds →
  files w' = files w → dirs w' = dirs w ∪ list_to_set ds →
  Forall (fun d => mkdir_possible w' d = true) xs
  ↔ Forall (fun d => mkdir_possible w d = true) xs.
Proof.
  intros Hds Hf Hd. rewrite !Forall_forall.
  by setoid_rewrite (mkdir_possible_stable ds w w' _ Hds Hf Hd).
Qed.

(** Two steps that each either make their directories or are blocked. *)
Lemma bind_cases (ds ds' : list string) (ms ms' : list Msg)
    (m : M unit) (k : unit -> M unit) (w : World) :
  (Forall (fun d => mkdir_possible w d = true) ds ∧ creates ds ms w (m w)
   ∨ ¬ Forall (fun d => mkdir_possible w d = true) ds ∧ blocked (m w)) →
  (∀ w', Forall (fun d => mkdir_possible w' d = true) ds'
         ∧ creates ds' ms' w' (k tt w')
         ∨ ¬ Forall (fun d => mkdir_possible w' d = true) ds' ∧ blocked (k tt w')) →
  Forall (fun d => mkdir_possible w d = true) (ds ++ ds')
  ∧ creates (ds ++ ds') (ms ++ ms') w (bind m k w)
  ∨ ¬ Forall (fun d => mkdir_possible w d = true) (ds ++ ds') ∧ blocked (bind m k w).
Proof.
  intros [[Hall Hm]|[Hnot Hm]] Hk.
  - assert (Hst := Forall_possible_stable ds ds' w (final (m w)) Hall
                     (proj1 (proj2 Hm)) (proj1 (proj2 (proj2 Hm)))).
    destruct (Hk (final (m w))) as [[Hall' Hk']|[Hnot' Hk']].
    + left. split; [apply Forall_app; split; [done|by apply Hst]|].
      by apply creates_bind.
    + right. split; [intros [_ ?]%Forall_app; apply Hnot'; by apply Hst|].
      destruct Hk' as (e & Ho & He). exists e. split; [|done].
      rewrite bind_run. destruct Hm as (-> & _). by cbn.
  - right. split; [by intros [? _]%Forall_app|].
    destruct Hm as (e & Ho & He). exists e. split; [|done].
    rewrite bind_run, Ho. by cbn.
Qed.

Lemma mkdir_chain_cases (ds : list string) (w : World) :
  Forall (fun d => mkdir_possible w d = true) ds ∧ creates ds [] w (mkdir_chain ds w)
  ∨ ¬ Forall (fun d => mkdir_possible w d = true) ds ∧ blocked (mkdir_chain ds w).
Proof.
  revert w. induction ds as [|d ds IH]; intros w.
  - left. split; [constructor|apply creates_ret].
  - assert (Hone : ∀ leaf w',
      Forall (fun d => mkdir_possible w' d = true) [d]
      ∧ creates [d] [] w' (mkdir_exist_ok leaf d w')
      ∨ ¬ Forall (fun d => mkdir_possible w' d = true) [d]
        ∧ blocked (mkdir_exist_ok leaf d w')).
    { intros leaf w'. destruct (mkdir_exist_ok_cases leaf d w') as [[Hp Hc]|[Hp Hb]].
      - left. split; [by repeat constructor|done].
      - right. split; [|done]. intros [Hd _]%Forall_cons. congruence. }
    destruct ds as [|d' ds]; [exact (Hone true w)|].
    change (mkdir_chain (d :: d' :: ds) w)
      with (bind (mkdir_exist_ok false d) (fun _ => mkdir_chain (d' :: ds)) w).
    exact (bind_cases [d] (d' :: ds) [] [] _ _ w (Hone false w) IH).
Qed.

Lemma create_loop_cases (ds : list string) (w : World) :
  Forall (fun d => mkdir_possible w d = true) (ds ≫= Path.ancestors)
  ∧ creates (ds ≫= Path.ancestors) (MCreatedDirectory <$> ds) w
      (for_each ds (fun directory =>
         os_makedirs directory ;;; print (MCreatedDirectory directory)) w)
  ∨ ¬ Forall (fun d => mkdir_possible w d = true) (ds ≫= Path.ancestors)
    ∧ blocked (for_each ds (fun directory =>
         os_makedirs directory ;;; print (MCreatedDirectory directory)) w).
Proof.
  revert w. induction ds as [|d ds IH]; intros w.
  - left. split; [constructor|apply creates_ret].
  - rewrite for_each_cons. cbn [mbind list_bind fmap list_fmap].
    apply (bind_cases (Path.ancestors d) (ds ≫= Path.ancestors)
             [MCreatedDirectory d] (MCreatedDirectory <$> ds)); [|exact IH].
    unfold os_makedirs.
    pose proof (bind_cases (Path.ancestors d) [] [] [MCreatedDirectory d]
                  (mkdir_chain (Path.ancestors d))
                  (fun _ => print (MCreatedDirectory d)) w
                  (mkdir_chain_cases (Path.ancestors d) w)) as Hb.
    rewrite app_nil_r in Hb. apply Hb.
    intros w'. left. split; [constructor|apply creates_print].
Qed.

Lemma create_directories_cases (w : World) :
  Forall (fun d => mkdir_possible w d = true) layout
  ∧ creates layout (MCreatedDirectory <$> directories) w (create_directories w)
  ∨ ¬ Forall (fun d => mkdir_possible w d = true) layout
    ∧ blocked (create_directories w).
Proof. unfold create_directories, layout. exact (create_loop_cases directories w). Qed.

(** A run that neither creates a directory nor writes a file consists of
    its printed lines. *)
Lemma events_prints (evs : list Event) :
  created evs = [] → writes evs = [] → evs = EPrint <$> prints evs.
Proof.
  induction evs as [|[m|d|p c] evs IH]; [done| | |].
  - intros Hc Hw. cbn. f_equal. by apply IH.
  - intros Hc. discriminate Hc.
  - intros _ Hw. discriminate Hw.
Qed.

Lemma world_ext (w w' : World) : dirs w = dirs w' → files w = files w' → w = w'.
Proof. destruct w, w'. cbn. by intros -> ->. Qed.

(** X1.  [create_directories] returns exactly when no regular file sits
    where one of the nine directories or one of their parents has to be;
    otherwise it stops with the [FileExistsError] or [NotADirectoryError]
    of [os.makedirs].  Either way it changes no file. *)
Theorem X1_create_directories_outcome (w : World) :
  (outcome (create_directories w) = Ok tt
   ↔ Forall (fun a => mkdir_possible w a = true) layout)
  ∧ (∀ e, outcome (create_directories w) = Raise e →
          (e = FileExistsError ∨ e = NotADirectoryError)
          ∧ Exists (fun a => is_dir w a = false ∧ is_file w a = true) layout)
  ∧ files (final (create_directories w)) = files w
  ∧ no_write (events (create_directories w)).
Proof.
  destruct (create_directories_spec w) as [(Hf & Hw & _) _].
  destruct (create_directories_cases w) as [[Hall Hc]|[Hnot (e & Ho & He)]].
  - destruct Hc as (Ho & _). rewrite Ho.
    split; [done|]. split; [intros e [=]|done].
  - rewrite Ho. split; [split; [intros [=]|done]|].
    split; [|done]. intros e' [= <-]. split; [done|].
    apply not_Forall_Exists in Hnot; [|intros a; apply _].
    eapply Exists_impl; [exact Hnot|]. intros a Ha. cbn in Ha.
    unfold mkdir_possible in Ha.
    destruct (is_dir w a), (is_file w a); cbn in Ha; done.
Qed.

(** X2.  When nothing is in its way [create_directories] leaves the nine
    directories and all their parents in place: it creates exactly the
    ones that were missing, each once, keeps every directory and file
    that was there, and prints one line per directory of its list,
    created or not. *)
Theorem X2_create_directories_effect (w : World) :
  Forall (fun a => mkdir_possible w a = true) layout →
  let r := create_directories w in
  outcome r = Ok tt
  ∧ files (final r) = files w
  ∧ dirs (final r) = dirs w ∪ list_to_set layout
  ∧ (∀ d, d ∈ directories → is_dir (final r) d = true)
  ∧ prints (events r) = MCreatedDirectory <$> directories
  ∧ NoDup (created (events r))
  ∧ (∀ d, d ∈ created (events r) ↔ d ∈ layout ∧ d ∉ dirs w).
Proof.
  intros Hall r.
  destruct (create_directories_cases w) as [[_ Hc]|[Hnot _]]; [|done].
  destruct (create_directories_spec w) as [_ Hdirs].
  destruct Hc as (Ho & Hf & Hd & _ & Hp & Hnd & Hin).
  split; [done|]. split; [done|]. split; [done|].
  split; [exact (Hdirs Ho)|]. by split.
Qed.

Lemma create_directories_present (w : World) :
  Forall (fun d => is_dir w d = true) layout →
  create_directories w
  = {| final := w;
       events := (fun d => EPrint (MCreatedDirectory d)) <$> directories;
       outcome := Ok tt |}.
Proof.
  intros Hall.
  assert (Hin : ∀ d, d ∈ layout → d ∈ dirs w).
  { intros d Hd. rewrite Forall_forall in Hall.
    specialize (Hall d Hd). by apply bool_decide_eq_true in Hall. }
  destruct (create_directories_cases w) as [[_ Hc]|[Hnot _]].
  - destruct Hc as (Ho & Hf & Hd & Hw & Hp & _ & Hcr).
    assert (Hnone : created (events (create_directories w)) = []).
    { destruct (created (events (create_directories w))) as [|d l] eqn:Hl; [done|].
      destruct (proj1 (Hcr d) ltac:(by left)) as [Hd1 Hd2]. by apply Hin in Hd1. }
    rewrite <- (run_eta (create_directories w)). f_equal; [|  |done].
    + apply world_ext; [|done]. rewrite Hd. apply leibniz_equiv. intros x.
      rewrite elem_of_union, elem_of_list_to_set. split; [|by left].
      intros [?|?]; [done|by apply Hin].
    + rewrite (events_prints _ Hnone Hw), Hp. by rewrite <- list_fmap_compose.
  - destruct Hnot. eapply Forall_impl; [exact Hall|].
    intros d Hd. unfold mkdir_possible. by rewrite Hd.
Qed.

Lemma create_directories_made (w : World) :
  outcome (create_directories w) = Ok tt →
  Forall (fun d => is_dir (final (create_directories w)) d = true) layout.
Proof.
  intros Ho.
  destruct (create_directories_cases w) as [[_ Hc]|[_ (e & Hr & _)]]; [|congruence].
  destruct Hc as (_ & _ & Hd & _).
  apply Forall_forall. intros d Hin. apply bool_decide_eq_true.
  rewrite Hd. apply elem_of_union. right. by apply elem_of_list_to_set.
Qed.

(** X3.  [create_directories] can be repeated: after a run of it that
    returned, the nine directories and their parents are all there, and
    a second run creates nothing, changes nothing and only prints its
    nine lines again. *)
Theorem X3_create_directories_idempotent (w : World) :
  outcome (create_directories w) = Ok tt →
  Forall (fun d => is_dir (final (create_directories w)) d = true) layout
  ∧ create_directories (final (create_directories w))
    = {| final := final (create_directories w);
         events := (fun d => EPrint (MCreatedDirectory d)) <$> directories;
         outcome := Ok tt |}.
Proof.
  intros Ho. split; [by apply create_directories_made|].
  by apply create_directories_present, create_directories_made.
Qed.

(** *** Where [generate_icons] writes *)

Lemma written_paths_saves (im : Image) (ps : list string) :
  written_paths ((fun p => EWrite p (CImage "PNG" im)) <$> ps) = ps.
Proof.
  unfold written_paths. rewrite writes_saves, <- list_fmap_compose. apply list_fmap_id.
Qed.

Lemma run_job_written_writable (img : Image) (j : Job) (w : World) (p : string) :
  p ∈ written_paths (events (run_job img j w)) → writable w p = true.
Proof.
  rewrite run_job_unfold. destruct (j_make j img) as [im|]; [|by intros ?%elem_of_nil].
  destruct (save_all_spec im (j_paths j) w) as (k & Hev & _ & _ & Hall & _).
  rewrite Forall_forall in Hall.
  destruct (outcome (save_all im (j_paths j) w)); cbn [events];
    rewrite ?written_paths_app, Hev, written_paths_saves.
  - intros [Hin|Hin]%elem_of_app; [by apply Hall|by apply elem_of_nil in Hin].
  - apply Hall.
Qed.

Lemma run_jobs_written_writable (img : Image) (js : list Job) (w : World) (p : string) :
  p ∈ written_paths (events (run_jobs img js w)) → writable w p = true.
Proof.
  revert w. induction js as [|j js IH]; intros w; [by intros ?%elem_of_nil|].
  rewrite run_jobs_cons, bind_run.
  destruct (run_job_spec img j w) as (Hd & _).
  destruct (outcome (run_job img j w)); cbn [events].
  - rewrite written_paths_app. intros [Hin|Hin]%elem_of_app.
    + by eapply run_job_written_writable.
    + rewrite <- (writable_same_dirs w (final (run_job img j w))) by done. by apply IH.
  - apply run_job_written_writable.
Qed.

Lemma generate_icons_written_writable (src : string) (w : World) (p : string) :
  p ∈ written_paths (events (generate_icons src w)) → writable w p = true.
Proof.
  destruct (generate_icons_cases src w) as [(m & -> & _)|(img & Hl)];
    [by intros ?%elem_of_nil|].
  destruct (generate_icons_writes src w img Hl) as (Hw & _).
  unfold written_paths. rewrite Hw. apply run_jobs_written_writable.
Qed.

Lemma generated_files_dirname (p : string) :
  p ∈ generated_files →
  Path.dirname p ∈ directories ∧ Path.dirname p ≠ "" ∧ Path.dirname p ≠ target_dir.
Proof.
  revert p. apply Forall_forall.
  apply (bool_decide_unpack (Forall _ _)). by vm_compute.
Qed.

Lemma output_directory_used (d : string) :
  d ∈ directories → d ≠ target_dir → ∃ p, p ∈ generated_files ∧ Path.dirname p = d.
Proof.
  intros Hd Hne.
  assert (Hall : Forall (fun d => d = target_dir
                   ∨ Exists (fun p => Path.dirname p = d) generated_files) directories).
  { apply (bool_decide_unpack (Forall _ _)). by vm_compute. }
  rewrite Forall_forall in Hall. destruct (Hall d Hd) as [?|Hex]; [done|].
  by apply Exists_exists in Hex.
Qed.

Lemma generate_icons_needs (src : string) (w : World) (p : string) :
  outcome (generate_icons src w) = Ok true → p ∈ generated_files →
  writable w p = true.
Proof.
  intros Hok Hp.
  destruct (generate_icons_cases src w) as [(m & Hr & _)|(img & Hl)].
  { rewrite Hr in Hok. discriminate. }
  destruct (generate_icons_complete src w img Hl Hok) as (Hall & _).
  apply jobs_ok_split in Hall as [_ Hall]. rewrite plan_paths, Forall_forall in Hall.
  by apply Hall.
Qed.

(** X4.  [generate_icons] creates no directory and writes a file only
    into a directory that is there: if one of the eight directories it
    writes to is missing it returns [False], and if the directory of the
    iOS icons is missing it has written nothing at all. *)
Theorem X4_generate_icons_needs_directories (src : string) (w : World) :
  no_mkdir (events (generate_icons src w))
  ∧ dirs (final (generate_icons src w)) = dirs w
  ∧ (∀ p, p ∈ written_paths (events (generate_icons src w)) →
          is_dir w p = false ∧ is_dir w (Path.dirname p) = true)
  ∧ (∀ d, d ∈ directories → d ≠ target_dir → is_dir w d = false →
          outcome (generate_icons src w) = Ok false)
  ∧ (is_dir w source_dir = false → writes (events (generate_icons src w)) = []).
Proof.
  destruct (generate_icons_state src w) as (Hd & _ & Hmk).
  assert (Hwr : ∀ p, p ∈ written_paths (events (generate_icons src w)) →
                     is_dir w p = false ∧ is_dir w (Path.dirname p) = true).
  { intros p Hp. assert (Hw := generate_icons_written_writable src w p Hp).
    split.
    - unfold writable in Hw. apply andb_true_iff in Hw as [Hw _].
      by apply negb_true_iff in Hw.
    - apply writable_parent; [done|]. apply generated_files_dirname.
      destruct (generate_icons_prefix src w) as [rest ->]. apply elem_of_app. by left. }
  split; [done|]. split; [done|]. split; [done|]. split.
  - intros d Hin Hne Hmissing.
    destruct (generate_icons_returns src w) as [Hok|Hno]; [|done]. exfalso.
    destruct (output_directory_used d Hin Hne) as (p & Hp & Hdn).
    assert (Hw := generate_icons_needs src w p Hok Hp).
    apply writable_parent in Hw; [|by apply generated_files_dirname].
    congruence.
  - intros Hmissing.
    destruct (writes (events (generate_icons src w))) as [|[p c] ws] eqn:Hws; [done|].
    exfalso.
    assert (Hp : p ∈ written_paths (events (generate_icons src w))).
    { unfold written_paths. rewrite Hws. by left. }
    destruct (Hwr p Hp) as [_ Hparent].
    destruct (generate_icons_prefix src w) as [rest Hrest].
    unfold written_paths in Hrest. rewrite Hws in Hrest.
    unfold generated_files in Hrest. cbn [fmap list_fmap fst app] in Hrest.
    injection Hrest as <- _.
    assert (Hdn : Path.dirname
                    "assets/app_icons/generated/ios/icon_1024x1024_ios-marketing.png"
                  = source_dir) by by vm_compute.
    rewrite Hdn in Hparent. congruence.
Qed.

(** *** Running [generate_icons] again *)

Lemma apply_writes_twice (ws : list (string * Content)) (m : gmap string Content) :
  NoDup ws.*1 → apply_writes ws (apply_writes ws m) = apply_writes ws m.
Proof.
  intros Hnd. apply map_eq. intros q.
  destruct (decide (q ∈ ws.*1)) as [Hin|Hnot].
  - destruct (apply_writes_written ws m q Hin) as (c & Hc & ->).
    by apply apply_writes_lookup.
  - by rewrite !apply_writes_other.
Qed.

Lemma generation_possible_same_dirs (img : Image) (w w' : World) :
  dirs w' = dirs w → generation_possible img w' ↔ generation_possible img w.
Proof.
  intros Hd. unfold generation_possible. apply and_iff_compat_l.
  rewrite !Forall_forall. by setoid_rewrite (writable_same_dirs w w').
Qed.

(** X5.  A complete generation can be repeated: run again on the file
    system it left, from a source that is not itself one of the generated
    files, [generate_icons] returns [True] again, writes the same
    contents to the same paths and leaves the file system as it found
    it. *)
Theorem X5_generate_icons_repeatable (src : string) (w : World) :
  outcome (generate_icons src w) = Ok true →
  src ∉ generated_files →
  outcome (generate_icons src (final (generate_icons src w))) = Ok true
  ∧ writes (events (generate_icons src (final (generate_icons src w))))
    = writes (events (generate_icons src w))
  ∧ final (generate_icons src (final (generate_icons src w)))
    = final (generate_icons src w).
Proof.
  intros Hok Hsrc.
  destruct (generate_icons_cases src w) as [(m & Hr & _)|(img & Hl)].
  { rewrite Hr in Hok. discriminate. }
  destruct (generate_icons_complete src w img Hl Hok) as (_ & Hws & Hpaths).
  destruct (generate_icons_state src w) as (Hd & Hf & _).
  set (w1 := final (generate_icons src w)) in *.
  assert (Hl1 : loads w1 src img).
  { destruct Hl as [Hdir [format Hfile]]. split.
    - by rewrite (is_dir_same_dirs w w1 _ Hd).
    - exists format. rewrite Hf, apply_writes_other; [done|].
      fold (written_paths (events (generate_icons src w))). by rewrite Hpaths. }
  assert (Hok1 : outcome (generate_icons src w1) = Ok true).
  { apply (generate_icons_success src w1 img Hl1).
    apply (generation_possible_same_dirs img w w1 Hd).
    by apply (generate_icons_success src w img Hl). }
  destruct (generate_icons_complete src w1 img Hl1 Hok1) as (_ & Hws1 & _).
  destruct (generate_icons_state src w1) as (Hd1 & Hf1 & _).
  split; [done|]. split; [congruence|].
  apply world_ext; [done|].
  rewrite Hf1, Hws1, <- Hws, Hf. apply apply_writes_twice.
  fold (written_paths (events (generate_icons src w))). rewrite Hpaths.
  apply generated_files_NoDup.
Qed.

(** *** What [generate_icons] reports *)

Lemma plan_messages (j : Job) :
  j ∈ plan →
  (∃ platform, j_msg j = MHeading platform)
  ∨ (∃ width height path, j_msg j = MGenerated width height path).
Proof.
  intros [(platform & ->)|[(row & _ & ->)|[(row & _ & ->)|(row & _ & ->)]]]%plan_job_cases;
    try destruct row as [[width height] name]; cbn; eauto.
  unfold store_job. case_match; cbn; eauto.
Qed.

(** X6.  [generate_icons] reports every failure and nothing else as one:
    it returns [False] exactly when the last line it printed is the line
    for a missing source or the line for a caught exception; a run that
    returns [True] has printed neither anywhere; and the line for a
    missing source is printed exactly when nothing is at the path. *)
Theorem X6_generate_icons_reports (src : string) (w : World) :
  (outcome (generate_icons src w) = Ok false
   ↔ ∃ m, last (events (generate_icons src w)) = Some (EPrint m)
          ∧ (m = MSourceNotFound src
             ∨ ∃ e, is_Exception e = true ∧ m = MErrorGenerating e))
  ∧ (outcome (generate_icons src w) = Ok true →
     ∀ m, EPrint m ∈ events (generate_icons src w) →
          ∀ src' e, m ≠ MSourceNotFound src' ∧ m ≠ MErrorGenerating e)
  ∧ (exists_in w src = false ↔
     EPrint (MSourceNotFound src) ∈ events (generate_icons src w)).
Proof.
  assert (Hplan : ∀ img w' m, EPrint m ∈ events (run_jobs img plan w') →
            ∀ src' e, m ≠ MSourceNotFound src' ∧ m ≠ MErrorGenerating e).
  { intros img w' m (j & Hj & ->)%run_jobs_prints src' e.
    destruct (plan_messages j Hj) as [(? & ->)|(? & ? & ? & ->)]; by split. }
  assert (Hwarn : ∀ img m, EPrint m ∈ size_warning img →
            ∀ src' e, m ≠ MSourceNotFound src' ∧ m ≠ MErrorGenerating e).
  { intros img m Hin src' e. unfold size_warning in Hin.
    destruct (negb _); [|by apply elem_of_nil in Hin].
    apply list_elem_of_singleton in Hin. injection Hin as ->. by split. }
  assert (Hnot : ∀ m, (∀ src' e, m ≠ MSourceNotFound src' ∧ m ≠ MErrorGenerating e) →
            ¬ (m = MSourceNotFound src
               ∨ ∃ e, is_Exception e = true ∧ m = MErrorGenerating e)).
  { intros m Hm [->|(e & _ & ->)]; [by destruct (Hm src FileNotFoundError)|].
    by destruct (Hm src e). }
  destruct (exists_in w src) eqn:Hex.
  - destruct (Image_open_spec src w) as (_ & _ & [(img & _ & Hl)|(e & Ho & He & _)]).
    + rewrite (generate_icons_loaded src w img Hl).
      destruct (run_jobs_spec img plan w) as (_ & _ & _ & _ & _ & Hout).
      destruct Hout as [(Ho & _)|(e & Ho & He & _)]; rewrite Ho; cbn [events outcome].
      * split; [|split].
        -- split; [discriminate|]. intros (m & Hlast & Herr). exfalso.
           apply last_Some_elem_of in Hlast.
           apply elem_of_app in Hlast as [Hin|Hin];
             [by apply (Hnot m (Hwarn img m Hin))|by apply (Hnot m (Hplan img w m Hin))].
        -- intros _ m [Hin|Hin]%elem_of_app; [by apply (Hwarn img)|by apply (Hplan img w)].
        -- split; [discriminate|]. intros [Hin|Hin]%elem_of_app; exfalso.
           ++ by destruct (Hwarn img _ Hin src FileNotFoundError).
           ++ by destruct (Hplan img w _ Hin src FileNotFoundError).
      * split; [|split].
        -- split; [|done]. intros _. exists (MErrorGenerating e).
           split; [by rewrite !app_assoc, last_snoc|].
           right. by exists e.
        -- discriminate.
        -- split; [discriminate|]. intros [Hin|[Hin|Hin]%elem_of_app]%elem_of_app; exfalso.
           ++ by destruct (Hwarn img _ Hin src FileNotFoundError).
           ++ by destruct (Hplan img w _ Hin src FileNotFoundError).
           ++ by apply list_elem_of_singleton in Hin.
    + rewrite (generate_icons_unreadable src w e Hex Ho). cbn [events outcome].
      split; [|split].
      * split; [|done]. intros _. exists (MErrorGenerating e). split; [done|].
        right. by exists e.
      * discriminate.
      * split; [discriminate|]. by intros ?%list_elem_of_singleton.
  - rewrite (generate_icons_missing src w Hex). cbn [events outcome].
    split; [|split].
    + split; [|done]. intros _. exists (MSourceNotFound src). split; [done|by left].
    + discriminate.
    + split; [|done]. intros _. by left.
Qed.

(** *** More on path strings *)

Lemma append_inj (a x y : string) : a +:+ x = a +:+ y → x = y.
Proof.
  induction a as [|c a IH]; [done|]. rewrite !append_cons. intros [= Heq]. by apply IH.
Qed.

Lemma has_sep_app (a b : string) :
  Path.has_sep (a +:+ b) = Path.has_sep a || Path.has_sep b.
Proof.
  induction a as [|c a IH]; [done|]. rewrite append_cons. cbn.
  by rewrite IH, orb_assoc.
Qed.

Lemma has_sep_child (a b : string) : Path.has_sep (a +:+ "/" +:+ b) = true.
Proof. rewrite !has_sep_app. cbn. apply orb_true_r. Qed.

Lemma strip_prefix_Some (q p r : string) :
  Path.strip_prefix q p = Some r → p = q +:+ r.
Proof.
  revert p. induction q as [|c q IH]; intros p; cbn.
  - by intros [= ->].
  - destruct p as [|d p]; [done|]. case_bool_decide as Hcd; [|done].
    subst d. intros Hp. rewrite append_cons. f_equal. by apply IH.
Qed.

Lemma child_of_path (d p name : string) :
  Path.child_of d p = Some name → p = d +:+ "/" +:+ name.
Proof.
  unfold Path.child_of.
  destruct (Path.strip_prefix (d +:+ "/") p) as [r|] eqn:Hr; [|done].
  apply strip_prefix_Some in Hr. rewrite append_assoc in Hr.
  destruct (bool_decide (r = "") || Path.has_sep r); [done|]. by intros [= <-].
Qed.

Lemma basename_child (d name : string) :
  Path.has_sep name = false → Path.basename (d +:+ "/" +:+ name) = name.
Proof.
  intros Hs. induction d as [|c d IH].
  - change ("" +:+ "/" +:+ name) with (String "/" name). cbn. by rewrite Hs.
  - rewrite append_cons. cbn [Path.basename]. by rewrite has_sep_child.
Qed.

Lemma endswith_sep_no_sep (s : string) :
  Path.has_sep s = false → Path.endswith s "/" = false.
Proof.
  induction s as [|c s IH]; [done|]. cbn. intros [Hc Hs]%orb_false_iff.
  rewrite (IH Hs), orb_false_r. apply bool_decide_eq_false. intros [= -> ->]. done.
Qed.

Lemma endswith_sep_app (a s : string) :
  s ≠ "" → Path.endswith (a +:+ s) "/" = Path.endswith s "/".
Proof.
  intros Hs. induction a as [|c a IH]; [done|]. rewrite append_cons. cbn.
  rewrite IH. rewrite bool_decide_eq_false_2; [done|].
  intros [= _ Heq]. destruct a; [by cbn in Heq|discriminate Heq].
Qed.

(** [os.path.join] of a directory that does not end in a separator and a
    plain name. *)
Lemma join_child (d name : string) :
  d ≠ "" → Path.endswith d "/" = false → Path.has_sep name = false →
  Path.join d name = d +:+ "/" +:+ name.
Proof.
  intros Hd He Hs. unfold Path.join.
  rewrite (relative_no_sep name Hs), He, orb_false_r.
  by rewrite bool_decide_eq_false_2.
Qed.

Lemma join_source_dir (name : string) :
  Path.has_sep name = false → Path.join source_dir name = source_dir +:+ "/" +:+ name.
Proof. by apply join_child. Qed.

Lemma join_target_dir (name : string) :
  Path.has_sep name = false → Path.join target_dir name = target_dir +:+ "/" +:+ name.
Proof. by apply join_child. Qed.

(** The two forms of the destination, for a plain non-empty name. *)
Lemma copy_destination_cases (w : World) (name : string) :
  Path.has_sep name = false → name ≠ "" →
  copy_destination w name
  = if is_dir w (target_dir +:+ "/" +:+ name)
    then target_dir +:+ "/" +:+ name +:+ "/" +:+ name
    else target_dir +:+ "/" +:+ name.
Proof.
  intros Hs Hne. unfold copy_destination. cbn zeta.
  rewrite (join_source_dir name Hs), (join_target_dir name Hs), (basename_child _ _ Hs).
  destruct (is_dir w _); [|done].
  rewrite join_child; [by rewrite !append_assoc|by destruct name|  |done].
  rewrite <- append_assoc, endswith_sep_app by done. by apply endswith_sep_no_sep.
Qed.

Lemma first_component (x y a b : string) :
  Path.has_sep x = false → Path.has_sep y = false →
  x +:+ "/" +:+ a = y +:+ "/" +:+ b → x = y.
Proof.
  revert y. induction x as [|c x IH]; intros [|d y]; cbn; try done.
  - intros _ [Hd _]%orb_false_iff. rewrite append_cons.
    change ("" +:+ "/" +:+ a) with (String "/" a). intros [= <- _]. done.
  - intros [Hc _]%orb_false_iff _. rewrite append_cons.
    change ("" +:+ "/" +:+ b) with (String "/" b). intros [= -> _]. done.
  - intros [_ Hx]%orb_false_iff [_ Hy]%orb_false_iff. rewrite !append_cons.
    intros [= -> Heq]. f_equal. by eapply IH.
Qed.

Lemma copy_destination_inj (w : World) (n1 n2 : string) :
  Path.has_sep n1 = false → n1 ≠ "" → Path.has_sep n2 = false → n2 ≠ "" →
  copy_destination w n1 = copy_destination w n2 → n1 = n2.
Proof.
  intros Hs1 Hne1 Hs2 Hne2.
  rewrite !copy_destination_cases by done.
  destruct (is_dir w (target_dir +:+ "/" +:+ n1)), (is_dir w (target_dir +:+ "/" +:+ n2)).
  - intros Heq%append_inj%append_inj. by eapply first_component.
  - intros Heq%append_inj%append_inj. subst n2. by rewrite has_sep_child in Hs2.
  - intros Heq%append_inj%append_inj. subst n1. by rewrite has_sep_child in Hs1.
  - by intros Heq%append_inj%append_inj.
Qed.

Lemma source_not_target (name : string) :
  Path.under target_dir (source_dir +:+ "/" +:+ name) = false.
Proof. reflexivity. Qed.

Lemma source_entries (w : World) (name : string) :
  name ∈ entries w source_dir →
  Path.has_sep name = false ∧ name ≠ ""
  ∧ (is_dir w (Path.join source_dir name) = true
     ∨ is_Some (files w !! Path.join source_dir name)).
Proof.
  intros (p & Hp & Hc)%list_elem_of_omap.
  destruct (child_of_spec _ _ _ Hc) as [Hs Hne]. apply child_of_path in Hc. subst p.
  split; [done|]. split; [done|]. rewrite (join_source_dir name Hs).
  apply elem_of_elements, elem_of_union in Hp as [Hp|Hp].
  - left. by apply bool_decide_eq_true.
  - right. by apply elem_of_dom.
Qed.

Lemma copy_destination_under (w : World) (name : string) :
  Path.has_sep name = false → Path.endswith name ".png" = true →
  Path.under target_dir (copy_destination w name) = true.
Proof. intros Hs Hpng. exact (proj1 (copy_target_ok name w Hs Hpng)). Qed.

Lemma copy_destination_same_dirs (w w' : World) (name : string) :
  dirs w' = dirs w → copy_destination w' name = copy_destination w name.
Proof. intros Hd. unfold copy_destination. by rewrite (is_dir_same_dirs w w' _ Hd). Qed.

Lemma source_not_destination (w : World) (name name' : string) :
  Path.has_sep name = false → Path.endswith name ".png" = true →
  Path.has_sep name' = false →
  copy_destination w name ≠ Path.join source_dir name'.
Proof.
  intros Hs Hpng Hs' Heq.
  assert (Hu := copy_destination_under w name Hs Hpng).
  rewrite Heq, (join_source_dir name' Hs'), source_not_target in Hu. done.
Qed.

(** *** The copies *)

Lemma shutil_copy2_run (name : string) (w : World) :
  shutil_copy2 (Path.join source_dir name) (Path.join target_dir name) w
  = if bool_decide (Path.join source_dir name = copy_destination w name)
    then raise SameFileError w
    else if is_dir w (Path.join source_dir name) then raise IsADirectoryError w
    else match files w !! Path.join source_dir name with
         | Some c => write_file (copy_destination w name) c w
         | None => raise FileNotFoundError w
         end.
Proof. reflexivity. Qed.

(** One iteration on a plain name that ends in [.png]. *)
Lemma copy_step (name : string) (w : World) :
  Path.has_sep name = false → Path.endswith name ".png" = true →
  is_dir w (Path.join source_dir name) = true
  ∨ is_Some (files w !! Path.join source_dir name) →
  (∃ c, files w !! Path.join source_dir name = Some c
        ∧ is_dir w (Path.join source_dir name) = false
        ∧ writable w (copy_destination w name) = true
        ∧ bind (shutil_copy2 (Path.join source_dir name) (Path.join target_dir name))
            (fun _ => print (MCopied name)) w
          = {| final := {| dirs := dirs w;
                           files := <[copy_destination w name := c]> (files w) |};
               events := [EWrite (copy_destination w name) c; EPrint (MCopied name)];
               outcome := Ok tt |})
  ∨ ((is_dir w (Path.join source_dir name) = true
      ∨ writable w (copy_destination w name) = false)
     ∧ ∃ e, is_Exception e = true
            ∧ bind (shutil_copy2 (Path.join source_dir name) (Path.join target_dir name))
                (fun _ => print (MCopied name)) w
              = {| final := w; events := []; outcome := Raise e |}).
Proof.
  intros Hs Hpng Hex. rewrite bind_run, shutil_copy2_run.
  rewrite bool_decide_eq_false_2
    by (intros Heq; by apply (source_not_destination w name name Hs Hpng Hs)).
  destruct (is_dir w (Path.join source_dir name)) eqn:Hd.
  { right. split; [by left|]. by exists IsADirectoryError. }
  destruct Hex as [?|[c Hc]]; [done|]. rewrite Hc.
  destruct (writable w (copy_destination w name)) eqn:Hw.
  - left. exists c. rewrite (write_file_ok _ _ _ Hw). by repeat split.
  - right. split; [by right|].
    destruct (write_file_fail _ c _ Hw) as (e & He & ->). by exists e.
Qed.

Lemma copy_loop_skip (name : string) (names : list string) (w : World) :
  Path.endswith name ".png" = false →
  copy_loop (name :: names) w = copy_loop names w.
Proof.
  intros Hpng. unfold copy_loop. rewrite for_each_cons, Hpng.
  exact (bind_ret_l tt (fun _ => copy_loop names) w).
Qed.

Lemma copy_loop_png (name : string) (names : list string) (w : World) :
  Path.endswith name ".png" = true →
  copy_loop (name :: names) w
  = bind (bind (shutil_copy2 (Path.join source_dir name) (Path.join target_dir name))
            (fun _ => print (MCopied name)))
      (fun _ => copy_loop names) w.
Proof. intros Hpng. unfold copy_loop. by rewrite for_each_cons, Hpng. Qed.

(** The loop over a list of entries, run in [w] at a point where the
    directories and the files of the iOS directory are as they were in
    [w0]. *)
Lemma copy_loop_exact (names : list string) (w0 w : World) :
  Forall (fun name => Path.has_sep name = false ∧ name ≠ ""
            ∧ (is_dir w0 (Path.join source_dir name) = true
               ∨ is_Some (files w0 !! Path.join source_dir name))) names →
  dirs w = dirs w0 →
  (∀ name, Path.has_sep name = false →
     files w !! Path.join source_dir name = files w0 !! Path.join source_dir name) →
  (∀ p c, (p, c) ∈ writes (events (copy_loop names w)) →
     ∃ name, name ∈ names ∧ Path.endswith name ".png" = true
             ∧ p = copy_destination w0 name
             ∧ files w0 !! Path.join source_dir name = Some c)
  ∧ (outcome (copy_loop names w) = Ok tt ↔ Forall (copy_possible w0) names)
  ∧ (outcome (copy_loop names w) = Ok tt →
     ∀ name, name ∈ names → Path.endswith name ".png" = true →
       ∃ c, files w0 !! Path.join source_dir name = Some c
            ∧ (copy_destination w0 name, c) ∈ writes (events (copy_loop names w))).
Proof.
  intros Hnames. revert w. induction Hnames as [|name names (Hs & Hne & Hex) _ IH];
    intros w Hd Hf.
  - cbn. split; [by intros p c ?%elem_of_nil|]. split; [done|].
    by intros _ name ?%elem_of_nil.
  - destruct (Path.endswith name ".png") eqn:Hpng.
    + rewrite (copy_loop_png name names w Hpng), bind_run.
      assert (Hex' : is_dir w (Path.join source_dir name) = true
                     ∨ is_Some (files w !! Path.join source_dir name)).
      { rewrite (is_dir_same_dirs w0 w _ Hd), (Hf name Hs). exact Hex. }
      destruct (copy_step name w Hs Hpng Hex')
        as [(c & Hc & Hdir & Hwr & ->)|(Hwhy & e & He & ->)];
        cbn [final events outcome].
      * rewrite (copy_destination_same_dirs w0 w name Hd) in *.
        rewrite (is_dir_same_dirs w0 w _ Hd) in Hdir.
        rewrite (writable_same_dirs w0 w _ Hd) in Hwr.
        rewrite (Hf name Hs) in Hc.
        set (w' := {| dirs := dirs w;
                      files := <[copy_destination w0 name := c]> (files w) |}).
        destruct (IH w') as (HE & HS & HC).
        { done. }
        { intros n Hn. cbn [files w']. rewrite lookup_insert_ne; [by apply Hf|].
          by apply source_not_destination. }
        split; [|split].
        -- intros p c' [Hin|Hin]%elem_of_cons.
           ++ injection Hin as -> ->. exists name. split; [by left|done].
           ++ destruct (HE p c' Hin) as (n & Hn & ?). exists n. split; [by right|done].
        -- rewrite HS, Forall_cons. split; [|tauto].
           intros Hall. split; [|done]. intros _. by split.
        -- intros Hok n [->|Hn]%elem_of_cons Hpng'.
           ++ exists c. split; [done|]. by left.
           ++ destruct (HC Hok n Hn Hpng') as (c' & ? & ?). exists c'.
              split; [done|]. by right.
      * split; [by intros p c ?%elem_of_nil|]. split; [|discriminate].
        split; [discriminate|]. intros [Hposs _]%Forall_cons. exfalso.
        destruct (Hposs Hpng) as [Hdir Hwr].
        rewrite <- (copy_destination_same_dirs w0 w name Hd) in Hwr.
        rewrite <- (is_dir_same_dirs w0 w _ Hd) in Hdir.
        rewrite <- (writable_same_dirs w0 w _ Hd) in Hwr.
        destruct Hwhy; congruence.
    + rewrite (copy_loop_skip name names w Hpng).
      destruct (IH w Hd Hf) as (HE & HS & HC).
      split; [|split].
      * intros p c Hin. destruct (HE p c Hin) as (n & Hn & ?).
        exists n. split; [by right|done].
      * rewrite HS, Forall_cons. split; [|tauto].
        intros Hall. split; [|done]. intros Hpng'. congruence.
      * intros Hok n [->|Hn]%elem_of_cons Hpng'; [congruence|]. by apply HC.
Qed.

Lemma copy_icons_to_ios_run (w : World) :
  is_dir w source_dir = true →
  copy_icons_to_ios w = copy_loop (entries w source_dir) w.
Proof.
  intros Hd. unfold copy_icons_to_ios. rewrite bind_run.
  unfold os_path_exists, exists_in. rewrite Hd.
  cbn [orb ret final events outcome negb app]. rewrite bind_run.
  unfold os_listdir. rewrite Hd. cbn [ret final events outcome app].
  apply run_eta.
Qed.

Lemma entries_checked (w : World) :
  Forall (fun name => Path.has_sep name = false ∧ name ≠ ""
            ∧ (is_dir w (Path.join source_dir name) = true
               ∨ is_Some (files w !! Path.join source_dir name)))
    (entries w source_dir).
Proof. apply Forall_forall. intros name Hn. by apply source_entries. Qed.

(** What the copies are, in [copy_icons_to_ios] as a whole. *)
Lemma copy_icons_to_ios_copies (w : World) :
  is_dir w source_dir = true →
  (∀ p c, (p, c) ∈ writes (events (copy_icons_to_ios w)) →
     ∃ name, name ∈ entries w source_dir ∧ Path.endswith name ".png" = true
             ∧ p = copy_destination w name
             ∧ files w !! Path.join source_dir name = Some c)
  ∧ (outcome (copy_icons_to_ios w) = Ok tt →
     ∀ name, name ∈ entries w source_dir → Path.endswith name ".png" = true →
       ∃ c, files w !! Path.join source_dir name = Some c
            ∧ files (final (copy_icons_to_ios w)) !! copy_destination w name = Some c)
  ∧ (∀ q, Path.under target_dir q = false →
          files (final (copy_icons_to_ios w)) !! q = files w !! q).
Proof.
  intros Hd.
  destruct (copy_icons_to_ios_spec w) as (_ & Hf & _ & Hall & _).
  rewrite Forall_forall in Hall.
  assert (Hloop := copy_loop_exact (entries w source_dir) w w (entries_checked w)
                     eq_refl (fun _ _ => eq_refl)).
  rewrite <- (copy_icons_to_ios_run w Hd) in Hloop.
  destruct Hloop as (HE & _ & HC).
  split; [done|]. split.
  - intros Hok name Hn Hpng. destruct (HC Hok name Hn Hpng) as (c & Hc & Hin).
    exists c. split; [done|]. rewrite Hf.
    destruct (apply_writes_written (writes (events (copy_icons_to_ios w))) (files w)
                (copy_destination w name)) as (c' & Hin' & ->).
    { apply list_elem_of_fmap. by exists (copy_destination w name, c). }
    destruct (HE _ _ Hin') as (n & Hn' & Hpng' & Heq & Hc').
    destruct (source_entries w name Hn) as (Hs & Hne & _).
    destruct (source_entries w n Hn') as (Hs' & Hne' & _).
    apply copy_destination_inj in Heq; [|done..]. subst n. congruence.
  - intros q Hq. rewrite Hf. apply apply_writes_other.
    intros Hin. destruct (Hall q Hin) as [Hu _]. congruence.
Qed.

(** X7.  With the iOS directory in place, [copy_icons_to_ios] returns
    exactly when every entry of it whose name ends in [.png] is a regular
    file whose destination can be written; a directory of such a name,
    or a destination that cannot be written, ends it with an exception
    that nothing catches. *)
Theorem X7_copy_icons_to_ios_outcome (w : World) :
  is_dir w source_dir = true →
  (outcome (copy_icons_to_ios w) = Ok tt
   ↔ ∀ name, name ∈ entries w source_dir → Path.endswith name ".png" = true →
       is_dir w (Path.join source_dir name) = false
       ∧ writable w (copy_destination w name) = true)
  ∧ (∀ e, outcome (copy_icons_to_ios w) = Raise e → is_Exception e = true)
  ∧ (∀ name, is_dir w (Path.join target_dir name) = false →
       copy_destination w name = Path.join target_dir name).
Proof.
  intros Hd. rewrite (copy_icons_to_ios_run w Hd).
  destruct (copy_loop_exact (entries w source_dir) w w (entries_checked w)
              eq_refl (fun _ _ => eq_refl)) as (_ & HS & _).
  split; [|split].
  - rewrite HS, Forall_forall. reflexivity.
  - rewrite <- (copy_icons_to_ios_run w Hd).
    by destruct (copy_icons_to_ios_spec w) as (_ & _ & _ & _ & _ & ?).
  - intros name Hn. unfold copy_destination. cbn zeta. by rewrite Hn.
Qed.

(** X8.  What [copy_icons_to_ios] copies: every file it writes is the
    copy of an entry of the iOS directory whose name ends in [.png], with
    the content that entry had; when it returns, every such entry has its
    content at its destination; and nothing outside the appiconset
    directory has changed, the copied files included. *)
Theorem X8_copy_icons_to_ios_exact (w : World) :
  is_dir w source_dir = true →
  (∀ p c, (p, c) ∈ writes (events (copy_icons_to_ios w)) →
     ∃ name, name ∈ entries w source_dir ∧ Path.endswith name ".png" = true
             ∧ p = copy_destination w name
             ∧ files w !! Path.join source_dir name = Some c)
  ∧ (outcome (copy_icons_to_ios w) = Ok tt →
     ∀ name, name ∈ entries w source_dir → Path.endswith name ".png" = true →
       ∃ c, files w !! Path.join source_dir name = Some c
            ∧ files (final (copy_icons_to_ios w)) !! copy_destination w name = Some c)
  ∧ (∀ q, Path.under target_dir q = false →
          files (final (copy_icons_to_ios w)) !! q = files w !! q).
Proof. exact (copy_icons_to_ios_copies w). Qed.

(** X9.  The edges of [copy_icons_to_ios]: without the iOS directory it
    prints one line and returns, having copied nothing; with a regular
    file in the place of that directory [os.listdir] raises; and with no
    entry that ends in [.png] it does nothing. *)
Theorem X9_copy_icons_to_ios_edges (w : World) :
  (exists_in w source_dir = false →
   copy_icons_to_ios w
   = {| final := w; events := [EPrint (MIosIconsNotFound source_dir)];
        outcome := Ok tt |})
  ∧ (is_dir w source_dir = false → is_file w source_dir = true →
     copy_icons_to_ios w
     = {| final := w; events := []; outcome := Raise NotADirectoryError |})
  ∧ (is_dir w source_dir = true →
     Forall (fun name => Path.endswith name ".png" = false) (entries w source_dir) →
     copy_icons_to_ios w = {| final := w; events := []; outcome := Ok tt |}).
Proof.
  split; [|split].
  - intros Hex. unfold copy_icons_to_ios. rewrite bind_run.
    unfold os_path_exists. cbn [ret final events outcome]. by rewrite Hex.
  - intros Hd Hfile. unfold copy_icons_to_ios. rewrite bind_run.
    unfold os_path_exists, exists_in. rewrite Hd, Hfile.
    cbn [orb ret final events outcome negb app]. rewrite bind_run.
    unfold os_listdir. by rewrite Hd, Hfile.
  - intros Hd Hall. rewrite (copy_icons_to_ios_run w Hd).
    induction Hall as [|name names Hpng _ IH]; [done|].
    by rewrite (copy_loop_skip name names w Hpng).
Qed.

(** *** Who prints what *)

Lemma lines_of_nil (fs : list string) : lines_of fs [].
Proof. by intros m ?%elem_of_nil. Qed.

Lemma lines_of_app (fs : list string) (a b : list Event) :
  lines_of fs a → lines_of fs b → lines_of fs (a ++ b).
Proof. intros Ha Hb m [?|?]%elem_of_app; auto. Qed.

Lemma lines_of_mono (fs fs' : list string) (evs : list Event) :
  fs ⊆ fs' → lines_of fs evs → lines_of fs' evs.
Proof. intros Hsub Hl m Hm. by apply Hsub, Hl. Qed.

Lemma lines_of_bind {A B} (fs : list string) (m : M A) (k : A -> M B) (w : World) :
  lines_of fs (events (m w)) →
  (∀ a w', lines_of fs (events (k a w'))) →
  lines_of fs (events (bind m k w)).
Proof.
  intros Hm Hk. rewrite bind_run. destruct (outcome (m w)); cbn [events]; [|done].
  by apply lines_of_app.
Qed.

Lemma lines_of_for_each {A} (fs : list string) (xs : list A) (body : A -> M unit)
    (w : World) :
  (∀ x w', lines_of fs (events (body x w'))) →
  lines_of fs (events (for_each xs body w)).
Proof.
  intros Hbody. revert w. induction xs as [|x xs IH]; intros w; [apply lines_of_nil|].
  rewrite for_each_cons. apply lines_of_bind; [apply Hbody|]. intros _ w'. apply IH.
Qed.

Lemma lines_of_print (fs : list string) (m : Msg) (w : World) :
  printed_by m ∈ fs → lines_of fs (events (print m w)).
Proof. intros Hm m' Hin. apply list_elem_of_singleton in Hin. by injection Hin as ->. Qed.

Lemma mkdir_exist_ok_lines (fs : list string) (leaf : bool) (d : string) (w : World) :
  lines_of fs (events (mkdir_exist_ok leaf d w)).
Proof.
  unfold mkdir_exist_ok. destruct (is_dir w d); [apply lines_of_nil|].
  destruct (is_file w d); [apply lines_of_nil|].
  intros m Hin. apply list_elem_of_singleton in Hin. discriminate Hin.
Qed.

Lemma mkdir_chain_lines (fs : list string) (ds : list string) (w : World) :
  lines_of fs (events (mkdir_chain ds w)).
Proof.
  revert w. induction ds as [|d ds IH]; intros w; [apply lines_of_nil|].
  destruct ds as [|d' ds]; [apply mkdir_exist_ok_lines|].
  change (mkdir_chain (d :: d' :: ds) w)
    with (bind (mkdir_exist_ok false d) (fun _ => mkdir_chain (d' :: ds)) w).
  apply lines_of_bind; [apply mkdir_exist_ok_lines|]. intros _ w'. apply IH.
Qed.

Lemma create_directories_lines (w : World) :
  lines_of ["create_directories"] (events (create_directories w)).
Proof.
  unfold create_directories. apply lines_of_for_each. intros d w'.
  apply lines_of_bind; [apply mkdir_chain_lines|]. intros _ w''.
  apply lines_of_print. by left.
Qed.

Lemma run_jobs_lines (img : Image) (w : World) :
  lines_of ["generate_icons"] (events (run_jobs img plan w)).
Proof.
  intros m (j & Hj & ->)%run_jobs_prints.
  destruct (plan_messages j Hj) as [(? & ->)|(? & ? & ? & ->)]; by left.
Qed.

Lemma generate_icons_lines (src : string) (w : World) :
  lines_of ["generate_icons"] (events (generate_icons src w)).
Proof.
  destruct (generate_icons_cases src w) as [(m & Hr & Hwhy)|(img & Hl)].
  - destruct (exists_in w src) eqn:Hex.
    + destruct Hwhy as [?|[e Ho]]; [done|].
      rewrite (generate_icons_unreadable src w e Hex Ho).
      intros m' Hin. apply list_elem_of_singleton in Hin. injection Hin as ->. by left.
    + rewrite (generate_icons_missing src w Hex).
      intros m' Hin. apply list_elem_of_singleton in Hin. injection Hin as ->. by left.
  - rewrite (generate_icons_loaded src w img Hl).
    assert (Hwarn : lines_of ["generate_icons"] (size_warning img)).
    { unfold size_warning. destruct (negb _); [|apply lines_of_nil].
      intros m' Hin. apply list_elem_of_singleton in Hin. injection Hin as ->. by left. }
    destruct (outcome (run_jobs img plan w)); cbn [events].
    + apply lines_of_app; [done|apply run_jobs_lines].
    + apply lines_of_app; [done|]. apply lines_of_app; [apply run_jobs_lines|].
      intros m' Hin. apply list_elem_of_singleton in Hin. injection Hin as ->. by left.
Qed.

Lemma create_ios_contents_json_lines (w : World) :
  lines_of ["create_ios_contents_json"] (events (create_ios_contents_json w)).
Proof.
  destruct (writable w contents_path) eqn:Hw.
  - rewrite (create_ios_contents_json_ok w Hw). cbn [events].
    intros m [Hin|Hin]%elem_of_cons; [discriminate Hin|].
    apply list_elem_of_singleton in Hin. injection Hin as ->. by left.
  - destruct (create_ios_contents_json_fail w Hw) as (e & _ & ->). apply lines_of_nil.
Qed.

Lemma shutil_copy2_lines (fs : list string) (src dst : string) (w : World) :
  lines_of fs (events (shutil_copy2 src dst w)).
Proof.
  destruct (shutil_copy2_spec src dst w) as [(c & _ & ->)|(e & _ & ->)];
    [|apply lines_of_nil].
  intros m Hin. apply list_elem_of_singleton in Hin. discriminate Hin.
Qed.

Lemma copy_icons_to_ios_lines (w : World) :
  lines_of ["copy_icons_to_ios"] (events (copy_icons_to_ios w)).
Proof.
  unfold copy_icons_to_ios. apply lines_of_bind; [apply lines_of_nil|].
  intros found w'. destruct (negb found); [apply lines_of_print; by left|].
  apply lines_of_bind.
  { unfold os_listdir. destruct (is_dir w' source_dir); [apply lines_of_nil|].
    destruct (is_file w' source_dir); apply lines_of_nil. }
  intros names w''. apply lines_of_for_each. intros name w3.
  destruct (Path.endswith name ".png"); [|apply lines_of_nil].
  apply lines_of_bind; [apply shutil_copy2_lines|]. intros _ w4.
  apply lines_of_print. by left.
Qed.

(** *** How [main] ends *)

(** The success branch prints the closing lines exactly when it runs to
    its end, and then they are the last lines. *)
Lemma finish_closing (w : World) :
  (∀ line, EPrint (MNextSteps line) ∈ events (finish w) → outcome (finish w) = Ok tt)
  ∧ (outcome (finish w) = Ok tt →
     outcome (create_ios_contents_json w) = Ok tt
     ∧ outcome (copy_icons_to_ios (final (create_ios_contents_json w))) = Ok tt
     ∧ final (finish w) = final (copy_icons_to_ios (final (create_ios_contents_json w)))
     ∧ ∃ evs, events (finish w) = evs ++ closing).
Proof.
  rewrite finish_run.
  assert (Hm := create_ios_contents_json_lines w).
  assert (Hc := copy_icons_to_ios_lines (final (create_ios_contents_json w))).
  assert (Hno : ∀ evs line, lines_of ["create_ios_contents_json"] evs
                            ∨ lines_of ["copy_icons_to_ios"] evs →
                            EPrint (MNextSteps line) ∉ evs).
  { intros evs line [Hl|Hl] Hin; apply Hl in Hin;
      apply list_elem_of_singleton in Hin; discriminate Hin. }
  destruct (outcome (create_ios_contents_json w)) as [[]|e]; cbn [events outcome final].
  - destruct (outcome (copy_icons_to_ios _)) as [[]|e]; cbn [events outcome final].
    + split; [done|]. intros _. repeat split; try done.
      eexists. by rewrite app_assoc.
    + split; [|discriminate]. intros line [Hin|Hin]%elem_of_app; exfalso.
      * by apply (Hno _ line (or_introl Hm)).
      * by apply (Hno _ line (or_intror Hc)).
  - split; [|discriminate]. intros line Hin. exfalso.
    by apply (Hno _ line (or_introl Hm)).
Qed.

Lemma main_result_completion (cd : Run unit) (gen : Run bool) (fin : Run unit) :
  (∀ e, outcome cd = Raise e → is_Exception e = true) →
  (outcome gen = Ok true ∨ outcome gen = Ok false) →
  (∀ e, outcome fin = Raise e → is_Exception e = true) →
  lines_of ["create_directories"] (events cd) →
  lines_of ["generate_icons"] (events gen) →
  (∀ line, EPrint (MNextSteps line) ∈ events fin → outcome fin = Ok tt) →
  (outcome fin = Ok tt → ∃ evs, events fin = evs ++ closing) →
  (exit_status (main_result cd gen fin) = 0 ∨ exit_status (main_result cd gen fin) = 1)
  ∧ (exit_status (main_result cd gen fin) = 0 ↔ outcome (main_result cd gen fin) = Ok tt)
  ∧ (outcome (main_result cd gen fin) = Ok tt
     ↔ outcome cd = Ok tt ∧ outcome gen = Ok true ∧ outcome fin = Ok tt)
  ∧ (∀ line, EPrint (MNextSteps line) ∈ events (main_result cd gen fin) →
             outcome (main_result cd gen fin) = Ok tt)
  ∧ (outcome (main_result cd gen fin) = Ok tt →
     ∃ evs, events (main_result cd gen fin) = evs ++ closing).
Proof.
  intros Hcd Hgen Hfin Lcd Lgen Hlast Hend.
  assert (Hb : ∀ line, EPrint (MNextSteps line) ∉ banner).
  { intros line [Hin|Hin]%elem_of_cons; [discriminate Hin|].
    apply list_elem_of_singleton in Hin. discriminate Hin. }
  assert (Hno : ∀ evs line, lines_of ["create_directories"] evs
                            ∨ lines_of ["generate_icons"] evs →
                            EPrint (MNextSteps line) ∉ evs).
  { intros evs line [Hl|Hl] Hin; apply Hl in Hin;
      apply list_elem_of_singleton in Hin; discriminate Hin. }
  unfold main_result, exit_status.
  destruct (outcome cd) as [[]|e] eqn:Ho; cbn [outcome events].
  - destruct Hgen as [-> | ->]; cbn [outcome events].
    + destruct (outcome fin) as [[]|e] eqn:Hof.
      * split; [by left|]. split; [done|]. split; [done|]. split; [done|].
        intros _. destruct (Hend eq_refl) as [evs ->]. eexists.
        by rewrite !app_assoc.
      * specialize (Hfin e eq_refl).
        split; [right; by destruct e|]. split; [split; [by destruct e|done]|].
        split; [split; [done|by intros (_ & _ & ?)]|]. split; [|done].
        intros line [Hin|[Hin|[Hin|Hin]%elem_of_app]%elem_of_app]%elem_of_app.
        -- by apply Hb in Hin.
        -- by apply (Hno _ line (or_introl Lcd)) in Hin.
        -- by apply (Hno _ line (or_intror Lgen)) in Hin.
        -- by apply Hlast in Hin.
    + split; [by right|]. split; [done|].
      split; [split; [done|by intros (_ & ? & _)]|]. split; [|done].
      intros line [Hin|[Hin|[Hin|Hin]%elem_of_app]%elem_of_app]%elem_of_app.
      * by apply Hb in Hin.
      * by apply (Hno _ line (or_introl Lcd)) in Hin.
      * by apply (Hno _ line (or_intror Lgen)) in Hin.
      * apply list_elem_of_singleton in Hin. discriminate Hin.
  - specialize (Hcd e eq_refl).
    split; [right; by destruct e|]. split; [split; [by destruct e|done]|].
    split; [split; [done|by intros (? & _)]|]. split; [|done].
    intros line [Hin|Hin]%elem_of_app.
    + by apply Hb in Hin.
    + by apply (Hno _ line (or_introl Lcd)) in Hin.
Qed.

Lemma main_completes (argv : list string) (w : World) :
  (exit_status (main argv w) = 0 ∨ exit_status (main argv w) = 1)
  ∧ (exit_status (main argv w) = 0 ↔ outcome (main argv w) = Ok tt)
  ∧ (∀ line, EPrint (MNextSteps line) ∈ events (main argv w) →
             outcome (main argv w) = Ok tt)
  ∧ (outcome (main argv w) = Ok tt → ∃ evs, events (main argv w) = evs ++ closing).
Proof.
  destruct (decide (length argv = 2%nat)) as [Hlen|Hlen].
  - destruct argv as [|prog [|src [|]]]; try done. clear Hlen.
    rewrite main_run.
    destruct (create_directories_spec w) as [(_ & _ & _ & _ & Hexn) _].
    destruct (finish_spec (final (generate_icons src (final (create_directories w)))))
      as (_ & _ & _ & _ & _ & Hexn').
    destruct (finish_closing (final (generate_icons src (final (create_directories w)))))
      as (Hlast & Hend).
    destruct (main_result_completion _ _ _ Hexn
                (generate_icons_returns src (final (create_directories w))) Hexn'
                (create_directories_lines w)
                (generate_icons_lines src (final (create_directories w)))
                Hlast (fun Hok => proj2 (proj2 (proj2 (Hend Hok)))))
      as (H1 & H2 & _ & H4 & H5).
    split; [exact H1|]. split; [exact H2|]. split; [exact H4|exact H5].
  - rewrite (main_usage argv w Hlen). cbn [exit_status outcome events].
    split; [by right|]. split; [done|]. split; [|done].
    intros line [Hin|Hin]%elem_of_cons; [discriminate Hin|].
    apply list_elem_of_singleton in Hin. discriminate Hin.
Qed.

(** X10.  [main] ends with status 0 or 1, and with 0 exactly when it
    returns.  The closing lines of [print_next_steps], "Icon generation
    complete!" first, are printed only by a run that returns, and then
    they are the last twelve lines. *)
Theorem X10_main_exit_status (argv : list string) (w : World) :
  (exit_status (main argv w) = 0 ∨ exit_status (main argv w) = 1)
  ∧ (exit_status (main argv w) = 0 ↔ outcome (main argv w) = Ok tt)
  ∧ (exit_status (main argv w) = 0
     ↔ EPrint (MNextSteps 0) ∈ events (main argv w))
  ∧ (∀ line, EPrint (MNextSteps line) ∈ events (main argv w) →
             exit_status (main argv w) = 0)
  ∧ (exit_status (main argv w) = 0 →
     ∃ evs, events (main argv w)
            = evs ++ ((fun line => EPrint (MNextSteps line)) <$> seq 0 12)).
Proof.
  destruct (main_completes argv w) as (H1 & H2 & H3 & H4).
  split; [done|]. split; [done|]. split; [|split].
  - split.
    + intros Hz. destruct (H4 (proj1 H2 Hz)) as [evs ->].
      apply elem_of_app. right. by left.
    + intros Hin. apply H2. by apply (H3 0%nat).
  - intros line Hin. apply H2. by apply (H3 line).
  - intros Hz. exact (H4 (proj1 H2 Hz)).
Qed.

(** *** What [main] leaves alone *)

Lemma main_result_dirs (w : World) (ds : gset string)
    (cd : Run unit) (gen : Run bool) (fin : Run unit) :
  dirs w ⊆ dirs (final cd) → dirs (final cd) ⊆ dirs w ∪ ds →
  dirs (final gen) = dirs (final cd) →
  dirs (final fin) = dirs (final gen) →
  dirs w ⊆ dirs (final (main_result cd gen fin))
  ∧ dirs (final (main_result cd gen fin)) ⊆ dirs w ∪ ds.
Proof.
  intros Hlo Hhi Hg Hf. unfold main_result.
  destruct (outcome cd) as [[]|e]; cbn [final]; [|done].
  destruct (outcome gen) as [[|]|e]; cbn [final]; rewrite ?Hf, ?Hg; done.
Qed.

Lemma main_dirs (argv : list string) (w : World) :
  dirs w ⊆ dirs (final (main argv w))
  ∧ dirs (final (main argv w)) ⊆ dirs w ∪ list_to_set layout.
Proof.
  destruct (decide (length argv = 2%nat)) as [Hlen|Hlen];
    [|rewrite (main_usage argv w Hlen); cbn [final]; set_solver].
  destruct argv as [|prog [|src [|]]]; try done. clear Hlen.
  rewrite main_run.
  destruct (create_directories_spec w) as [(_ & _ & Hlo & Hhi & _) _].
  destruct (generate_icons_state src (final (create_directories w))) as (Hd & _).
  destruct (finish_spec (final (generate_icons src (final (create_directories w)))))
    as (Hd' & _).
  exact (main_result_dirs w _ _ _ _ Hlo Hhi Hd Hd').
Qed.

(** X11.  [main] removes nothing: every directory and every file that
    was there before a run is there after it, whatever the arguments and
    however the run ends; a file outside the nine directories keeps its
    content; and the only directories a run adds are the nine and their
    parents. *)
Theorem X11_main_never_removes (argv : list string) (w : World) :
  dirs w ⊆ dirs (final (main argv w))
  ∧ dirs (final (main argv w)) ⊆ dirs w ∪ list_to_set layout
  ∧ (∀ q, is_Some (files w !! q) → is_Some (files (final (main argv w)) !! q))
  ∧ (∀ q, in_layout q = false → files (final (main argv w)) !! q = files w !! q).
Proof.
  destruct (main_dirs argv w) as [Hlo Hhi].
  destruct (main_logged argv w) as [Hf Hlay].
  split; [done|]. split; [done|]. split.
  - intros q Hq. rewrite Hf. by apply apply_writes_keeps.
  - intros q Hq. rewrite Hf. apply apply_writes_other.
    intros Hin. apply Hlay in Hin. congruence.
Qed.

(** *** Directory names *)




(** *** The state after [create_directories] *)

Lemma layout_outside (p : string) : p ∈ layout → in_layout p = false.
Proof.
  revert p. apply Forall_forall.
  apply (bool_decide_unpack (Forall _ _)). by vm_compute.
Qed.


Lemma listed_directory (w w' : World) (d : string) :
  dirs w' = dirs w ∪ list_to_set layout → d ∈ directories → is_dir w' d = true.
Proof.
  intros Hd Hin. apply bool_decide_eq_true. rewrite Hd.
  apply elem_of_union. right. apply elem_of_list_to_set.
  revert d Hin. apply Forall_forall.
  apply (bool_decide_unpack (Forall _ _)). by vm_compute.
Qed.


Lemma in_layout_target (name : string) :
  Path.has_sep name = false → in_layout (Path.join target_dir name) = true.
Proof.
  intros Hs. rewrite (join_target_dir name Hs).
  apply (under_in_layout target_dir); [apply target_dir_listed|apply under_child].
Qed.

(** *** A run of [main] that returns *)

Lemma main_result_returns (cd : Run unit) (gen : Run bool) (fin : Run unit) :
  outcome (main_result cd gen fin) = Ok tt ↔
  outcome cd = Ok tt ∧ outcome gen = Ok true ∧ outcome fin = Ok tt.
Proof.
  unfold main_result. destruct (outcome cd) as [[]|e]; cbn [outcome].
  - destruct (outcome gen) as [[|]|e]; cbn [outcome]; [tauto|..];
      split; try discriminate; by intros (_ & ? & _).
  - split; [discriminate|]. by intros (? & _).
Qed.

Lemma main_result_final (cd : Run unit) (gen : Run bool) (fin : Run unit) :
  outcome cd = Ok tt → outcome gen = Ok true →
  final (main_result cd gen fin) = final fin.
Proof. unfold main_result. by intros -> ->. Qed.

Lemma main_returns (prog src : string) (w : World) :
  outcome (main [prog; src] w) = Ok tt ↔
  outcome (create_directories w) = Ok tt
  ∧ outcome (generate_icons src (final (create_directories w))) = Ok true
  ∧ outcome (finish (final (generate_icons src (final (create_directories w))))) = Ok tt.
Proof. rewrite main_run. apply main_result_returns. Qed.

Lemma main_final (prog src : string) (w : World) :
  outcome (create_directories w) = Ok tt →
  outcome (generate_icons src (final (create_directories w))) = Ok true →
  final (main [prog; src] w)
  = final (finish (final (generate_icons src (final (create_directories w))))).
Proof. rewrite main_run. apply main_result_final. Qed.

Lemma finish_returns (w : World) :
  outcome (finish w) = Ok tt ↔
  outcome (create_ios_contents_json w) = Ok tt
  ∧ outcome (copy_icons_to_ios (final (create_ios_contents_json w))) = Ok tt.
Proof.
  rewrite finish_run. destruct (outcome (create_ios_contents_json w)) as [[]|e].
  - destruct (outcome (copy_icons_to_ios _)) as [[]|e]; cbn [outcome]; [tauto|].
    split; [discriminate|]. by intros [_ ?].
  - cbn [outcome]. split; [discriminate|]. by intros [? _].
Qed.

(** After a generation, a manifest and a round of copies that all went
    through: the generated files, the manifest, and next to it the icons
    it lists. *)
Lemma delivered (src : string) (w1 : World) :
  outcome (generate_icons src w1) = Ok true →
  outcome (create_ios_contents_json (final (generate_icons src w1))) = Ok tt →
  outcome (copy_icons_to_ios
             (final (create_ios_contents_json (final (generate_icons src w1))))) = Ok tt →
  dirs (final (copy_icons_to_ios
                 (final (create_ios_contents_json (final (generate_icons src w1))))))
  = dirs w1
  ∧ (∀ p, p ∈ generated_files →
       ∃ im, files (final (copy_icons_to_ios
                             (final (create_ios_contents_json
                                       (final (generate_icons src w1)))))) !! p
             = Some (CImage "PNG" im))
  ∧ files (final (copy_icons_to_ios
                    (final (create_ios_contents_json (final (generate_icons src w1))))))
      !! contents_path = Some (CJson contents)
  ∧ ∀ e, e ∈ images contents →
      is_dir w1 (Path.join target_dir (filename e)) = false →
      ∃ im,
        files (final (copy_icons_to_ios
                        (final (create_ios_contents_json
                                  (final (generate_icons src w1))))))
          !! Path.join source_dir (filename e) = Some (CImage "PNG" im)
        ∧ files (final (copy_icons_to_ios
                          (final (create_ios_contents_json
                                    (final (generate_icons src w1))))))
            !! Path.join target_dir (filename e) = Some (CImage "PNG" im).
Proof.
  intros Hok Hm Hcp.
  destruct (generate_icons_state src w1) as (Hd1 & _).
  assert (Hsrc := generate_icons_source_dir src w1 Hok).
  assert (Hpresent := generate_icons_present src w1).
  specialize (fun p => Hpresent p Hok).
  remember (final (generate_icons src w1)) as w2 eqn:Hw2. clear Hok Hw2.
  destruct (create_ios_contents_json_spec w2) as (Hd2 & _ & _ & _ & Hiff & _).
  assert (Hwr : writable w2 contents_path = true) by by apply Hiff.
  assert (Hf2 : files (final (create_ios_contents_json w2))
                = <[contents_path := CJson contents]> (files w2)).
  { by rewrite (create_ios_contents_json_ok w2 Hwr). }
  remember (final (create_ios_contents_json w2)) as w3 eqn:Hw3. clear Hw3 Hm Hwr Hiff.
  assert (Hsrc3 : is_dir w3 source_dir = true).
  { by rewrite (is_dir_same_dirs w2 w3 _ Hd2), (is_dir_same_dirs w1 w2 _ Hd1). }
  destruct (copy_icons_to_ios_spec w3) as (Hd3 & Hf3 & _ & Hall & _).
  destruct (copy_icons_to_ios_copies w3 Hsrc3) as (_ & Hcopied & Hkept).
  specialize (Hcopied Hcp).
  assert (Hmanifest : files (final (copy_icons_to_ios w3)) !! contents_path
                      = Some (CJson contents)).
  { rewrite Hf3, apply_writes_other; [by rewrite Hf2, lookup_insert_eq|].
    intros Hin. rewrite Forall_forall in Hall.
    destruct (Hall _ Hin) as [_ Hpng]. by vm_compute in Hpng. }
  clear Hf3 Hall.
  remember (final (copy_icons_to_ios w3)) as w4 eqn:Hw4. clear Hw4 Hcp.
  split; [congruence|]. split; [|split; [done|]].
  - intros p Hp. rewrite (Hkept p (generated_files_elsewhere p Hp)), Hf2.
    rewrite lookup_insert_ne; [by apply Hpresent|].
    intros <-. apply generated_files_elsewhere in Hp. by vm_compute in Hp.
  - intros e He Hfree.
    destruct (manifest_names e He) as (Hs & Hne & Hpng & Hjoin & Hin).
    destruct (Hpresent _ Hin) as [im Him]. exists im.
    assert (Him3 : files w3 !! Path.join source_dir (filename e)
                   = Some (CImage "PNG" im)).
    { rewrite Hf2, lookup_insert_ne; [done|].
      intros Heq. rewrite <- Heq in Hin.
      apply generated_files_elsewhere in Hin. by vm_compute in Hin. }
    split.
    + rewrite Hkept; [done|]. by rewrite (join_source_dir _ Hs), source_not_target.
    + destruct (Hcopied (filename e)) as (c & Hc & Hdst); [|done|].
      { apply entries_file; [done..|]. rewrite <- Hjoin, Him3. eauto. }
      rewrite Him3 in Hc. injection Hc as <-.
      unfold copy_destination in Hdst. cbn zeta in Hdst.
      rewrite (is_dir_same_dirs w2 w3 _ Hd2), (is_dir_same_dirs w1 w2 _ Hd1), Hfree in Hdst.
      exact Hdst.
Qed.

(** The run of [main] that returns, step by step. *)
Lemma main_steps (prog src : string) (w : World) :
  outcome (main [prog; src] w) = Ok tt →
  outcome (create_directories w) = Ok tt
  ∧ outcome (generate_icons src (final (create_directories w))) = Ok true
  ∧ outcome (create_ios_contents_json
               (final (generate_icons src (final (create_directories w))))) = Ok tt
  ∧ outcome (copy_icons_to_ios
               (final (create_ios_contents_json
                         (final (generate_icons src (final (create_directories w)))))))
    = Ok tt
  ∧ final (main [prog; src] w)
    = final (copy_icons_to_ios
               (final (create_ios_contents_json
                         (final (generate_icons src (final (create_directories w))))))).
Proof.
  intros Hok. destruct (proj1 (main_returns prog src w) Hok) as (Hcd & Hgen & Hfin).
  destruct (finish_closing (final (generate_icons src (final (create_directories w)))))
    as [_ Hend].
  destruct (Hend Hfin) as (Hm & Hcp & Hfinal & _).
  rewrite (main_final prog src w Hcd Hgen), Hfinal. by repeat split.
Qed.

(** X12.  A run of [main] that ends with status 0 has delivered: the
    nine directories are there, each of the 29 generated files holds a
    PNG image, [Contents.json] holds the manifest, and every icon the
    manifest lists lies next to it with the content of the generated
    icon of that name (where no directory of that name was in the way). *)
Theorem X12_main_delivers (argv : list string) (w : World) :
  exit_status (main argv w) = 0 →
  length argv = 2%nat
  ∧ (∀ d, d ∈ directories → is_dir (final (main argv w)) d = true)
  ∧ (∀ p, p ∈ generated_files →
          ∃ im, files (final (main argv w)) !! p = Some (CImage "PNG" im))
  ∧ files (final (main argv w)) !! contents_path = Some (CJson contents)
  ∧ (∀ e, e ∈ images contents →
       is_dir w (Path.join target_dir (filename e)) = false →
       ∃ im,
         files (final (main argv w)) !! Path.join source_dir (filename e)
         = Some (CImage "PNG" im)
         ∧ files (final (main argv w)) !! Path.join target_dir (filename e)
           = Some (CImage "PNG" im)).
Proof.
  intros Hz. apply (proj1 (proj1 (proj2 (main_completes argv w)))) in Hz.
  destruct (decide (length argv = 2%nat)) as [Hlen|Hlen];
    [|by rewrite (main_usage argv w Hlen) in Hz].
  split; [done|]. destruct argv as [|prog [|src [|]]]; try done. clear Hlen.
  destruct (main_steps prog src w Hz) as (Hcd & Hgen & Hm & Hcp & ->).
  destruct (create_directories_cases w) as [[_ Hc]|[_ (e & Hr & _)]]; [|congruence].
  destruct Hc as (_ & _ & Hd & _).
  destruct (delivered src (final (create_directories w)) Hgen Hm Hcp)
    as (Hdirs & Hfiles & Hmanifest & Hicons).
  split; [|split; [done|split; [done|]]].
  - intros d Hin. rewrite (is_dir_same_dirs _ _ _ Hdirs).
    by apply (listed_directory w).
  - intros e He Hfree. apply Hicons; [done|].
    destruct (manifest_names e He) as (Hs & _).
    apply bool_decide_eq_false. rewrite Hd.
    intros [Hin|Hin%elem_of_list_to_set]%elem_of_union.
    + by apply bool_decide_eq_false in Hfree.
    + apply layout_outside in Hin. by rewrite (in_layout_target _ Hs) in Hin.
Qed.

(** *** A run of [main] that goes through *)


(** *** A run of [main] on a source that is no image *)

Lemma main_result_refused (cd : Run unit) (gen : Run bool) (fin : Run unit) (m : Msg) :
  writes (events cd) = [] →
  (∀ e, outcome cd = Raise e → is_Exception e = true) →
  gen = {| final := final cd; events := [EPrint m]; outcome := Ok false |} →
  exit_status (main_result cd gen fin) = 1
  ∧ writes (events (main_result cd gen fin)) = []
  ∧ final (main_result cd gen fin) = final cd
  ∧ (outcome cd = Ok tt →
     events (main_result cd gen fin)
     = banner ++ events cd ++ [EPrint m; EPrint MFailed]).
Proof.
  intros Hw Hexn ->. unfold main_result, exit_status.
  destruct (outcome cd) as [[]|e]; cbn [outcome events final].
  - rewrite !writes_app, Hw. by repeat split.
  - rewrite writes_app, Hw. specialize (Hexn e eq_refl).
    repeat split; try done. by destruct e.
Qed.

Lemma not_loads_later (src : string) (w w1 : World) :
  (∀ img, ¬ loads w src img) → files w1 = files w → dirs w ⊆ dirs w1 →
  ∀ img, ¬ loads w1 src img.
Proof.
  intros Hno Hf Hlo img [Hdir [format Hfile]]. apply (Hno img). split.
  - apply bool_decide_eq_false. apply bool_decide_eq_false in Hdir.
    intros Hin. by apply Hdir, Hlo.
  - exists format. by rewrite <- Hf.
Qed.

Lemma generate_icons_refuses (src : string) (w : World) :
  (∀ img, ¬ loads w src img) →
  ∃ m, (m = MSourceNotFound src ∨ ∃ e, m = MErrorGenerating e)
       ∧ generate_icons src w
         = {| final := w; events := [EPrint m]; outcome := Ok false |}.
Proof.
  intros Hno. destruct (exists_in w src) eqn:Hex.
  - destruct (Image_open_spec src w) as (_ & _ & [(img & _ & Hl)|(e & Ho & _)]);
      [by apply Hno in Hl|].
    exists (MErrorGenerating e). split; [right; by exists e|].
    by apply generate_icons_unreadable.
  - exists (MSourceNotFound src). split; [by left|]. by apply generate_icons_missing.
Qed.

(** X14.  [main] creates the directories before it looks at the source:
    given a path that is not an image file (nothing there, a directory,
    or a file the library cannot open) it ends with status 1 and has
    written no file, but where [create_directories] went through it
    leaves the nine directories behind and reports the failure in two
    lines. *)
Theorem X14_main_refuses (prog src : string) (w : World) :
  (∀ img, ¬ loads w src img) →
  exit_status (main [prog; src] w) = 1
  ∧ no_write (events (main [prog; src] w))
  ∧ files (final (main [prog; src] w)) = files w
  ∧ final (main [prog; src] w) = final (create_directories w)
  ∧ (outcome (create_directories w) = Ok tt →
     (∀ d, d ∈ directories → is_dir (final (main [prog; src] w)) d = true)
     ∧ ∃ m, (m = MSourceNotFound src ∨ ∃ e, m = MErrorGenerating e)
            ∧ events (main [prog; src] w)
              = banner ++ events (create_directories w) ++ [EPrint m; EPrint MFailed]).
Proof.
  intros Hno. rewrite main_run.
  destruct (create_directories_spec w) as [(Hf & Hw & Hlo & _ & Hexn) Hdirs].
  destruct (generate_icons_refuses src (final (create_directories w))
              (not_loads_later src w _ Hno Hf Hlo)) as (m & Hm & Hr).
  destruct (main_result_refused _ _
              (finish (final (generate_icons src (final (create_directories w)))))
              m Hw Hexn Hr) as (H1 & H2 & H3 & H4).
  split; [exact H1|]. split; [exact H2|]. rewrite H3.
  split; [exact Hf|]. split; [reflexivity|].
  intros Hok. split; [exact (Hdirs Hok)|]. exists m. split; [exact Hm|exact (H4 Hok)].
Qed.

(** *** Running [main] again *)

Lemma apply_writes_same (ws : list (string * Content)) (m : gmap string Content) :
  (∀ p c, (p, c) ∈ ws → m !! p = Some c) → apply_writes ws m = m.
Proof.
  induction ws as [|[p c] ws IH]; intros Hws; [done|].
  rewrite apply_writes_cons, insert_id by (apply Hws; by left).
  apply IH. intros p' c' Hin. apply Hws. by right.
Qed.

Lemma entries_iff (w : World) (d name : string) :
  name ∈ entries w d ↔
  Path.has_sep name = false ∧ name ≠ ""
  ∧ (d +:+ "/" +:+ name ∈ dirs w ∨ is_Some (files w !! (d +:+ "/" +:+ name))).
Proof.
  split.
  - intros (p & Hp & Hc)%list_elem_of_omap.
    destruct (child_of_spec _ _ _ Hc) as [Hs Hne]. apply child_of_path in Hc. subst p.
    split; [done|]. split; [done|].
    apply elem_of_elements, elem_of_union in Hp as [Hp|Hp]; [by left|].
    right. by apply elem_of_dom.
  - intros (Hs & Hne & Hex). apply list_elem_of_omap.
    exists (d +:+ "/" +:+ name). split.
    + apply elem_of_elements, elem_of_union.
      destruct Hex as [?|?]; [by left|right; by apply elem_of_dom].
    + unfold Path.child_of. rewrite <- append_assoc, strip_prefix_app, Hs.
      by rewrite bool_decide_eq_false_2.
Qed.

(** [copy_icons_to_ios] changes nothing where every copy is in place. *)
Lemma copy_icons_to_ios_settled (w : World) :
  is_dir w source_dir = true →
  (∀ name, name ∈ entries w source_dir → Path.endswith name ".png" = true →
     copy_possible w name
     ∧ files w !! copy_destination w name = files w !! Path.join source_dir name) →
  outcome (copy_icons_to_ios w) = Ok tt ∧ final (copy_icons_to_ios w) = w.
Proof.
  intros Hd Hall.
  destruct (copy_icons_to_ios_spec w) as (Hdirs & Hf & _).
  destruct (copy_icons_to_ios_copies w Hd) as (HE & _).
  assert (Hloop := copy_loop_exact (entries w source_dir) w w (entries_checked w)
                     eq_refl (fun _ _ => eq_refl)).
  rewrite <- (copy_icons_to_ios_run w Hd) in Hloop. destruct Hloop as (_ & HS & _).
  split.
  - apply HS, Forall_forall. intros name Hn Hpng. by apply (Hall name Hn Hpng).
  - apply world_ext; [done|]. rewrite Hf. apply apply_writes_same.
    intros p c Hin. destruct (HE p c Hin) as (name & Hn & Hpng & -> & Hc).
    destruct (Hall name Hn Hpng) as [_ ->]. done.
Qed.

Lemma copy_possible_same_dirs (w w' : World) (name : string) :
  dirs w' = dirs w → copy_possible w name → copy_possible w' name.
Proof.
  intros Hd Hp Hpng. destruct (Hp Hpng) as [Hdir Hwr].
  rewrite (is_dir_same_dirs w w' _ Hd), (copy_destination_same_dirs w w' _ Hd).
  by rewrite (writable_same_dirs w w' _ Hd).
Qed.

(** The file system a complete run leaves is one every step of a second
    run leaves as it is. *)
Lemma settled (src : string) (w1 : World) :
  Forall (fun d => is_dir w1 d = true) layout →
  in_layout src = false →
  outcome (generate_icons src w1) = Ok true →
  outcome (create_ios_contents_json (final (generate_icons src w1))) = Ok tt →
  outcome (copy_icons_to_ios
             (final (create_ios_contents_json (final (generate_icons src w1))))) = Ok tt →
  ∀ w4, w4 = final (copy_icons_to_ios
                      (final (create_ios_contents_json (final (generate_icons src w1))))) →
  (outcome (create_directories w4) = Ok tt ∧ final (create_directories w4) = w4)
  ∧ (outcome (generate_icons src w4) = Ok true ∧ final (generate_icons src w4) = w4)
  ∧ (outcome (create_ios_contents_json w4) = Ok tt
     ∧ final (create_ios_contents_json w4) = w4)
  ∧ (outcome (copy_icons_to_ios w4) = Ok tt ∧ final (copy_icons_to_ios w4) = w4).
Proof.
  intros Hlay Hsrc Hok Hm Hcp w4 Hw4.
  destruct (delivered src w1 Hok Hm Hcp) as (Hd4 & _ & Hmanifest & _).
  rewrite <- Hw4 in Hd4, Hmanifest.
  (* the first run, step by step *)
  destruct (generate_icons_cases src w1) as [(m & Hr & _)|(img & Hl)].
  { rewrite Hr in Hok. discriminate. }
  assert (Hposs := proj1 (generate_icons_success src w1 img Hl) Hok).
  destruct (generate_icons_complete src w1 img Hl Hok) as (_ & Hws & Hpaths).
  destruct (generate_icons_state src w1) as (Hd1 & Hf1 & _).
  assert (Hsrcdir := generate_icons_source_dir src w1 Hok).
  assert (Hheld : ∀ p c, (p, c) ∈ plan ≫= job_outputs img →
            p ∈ generated_files
            ∧ files (final (generate_icons src w1)) !! p = Some c).
  { intros p c Hin. split.
    - rewrite <- Hpaths. unfold written_paths. rewrite Hws.
      apply list_elem_of_fmap. by exists (p, c).
    - rewrite Hf1, Hws. apply apply_writes_lookup; [|done].
      rewrite <- Hws. fold (written_paths (events (generate_icons src w1))).
      rewrite Hpaths. apply generated_files_NoDup. }
  assert (Hsrc2 : files (final (generate_icons src w1)) !! src = files w1 !! src).
  { rewrite Hf1. apply apply_writes_other.
    fold (written_paths (events (generate_icons src w1))). rewrite Hpaths.
    intros Hin. apply generated_files_in_layout in Hin. congruence. }
  clear Hws Hpaths Hf1 Hok.
  remember (final (generate_icons src w1)) as w2 eqn:Hw2. clear Hw2.
  destruct (create_ios_contents_json_spec w2) as (Hd2 & _ & _ & _ & Hiff & _).
  assert (Hwr : writable w2 contents_path = true) by by apply Hiff.
  assert (Hf2 : files (final (create_ios_contents_json w2))
                = <[contents_path := CJson contents]> (files w2)).
  { by rewrite (create_ios_contents_json_ok w2 Hwr). }
  clear Hiff Hm.
  remember (final (create_ios_contents_json w2)) as w3 eqn:Hw3. clear Hw3.
  assert (Hsrc3 : is_dir w3 source_dir = true).
  { by rewrite (is_dir_same_dirs w2 w3 _ Hd2), (is_dir_same_dirs w1 w2 _ Hd1). }
  destruct (copy_icons_to_ios_spec w3) as (Hd3 & _).
  destruct (copy_icons_to_ios_copies w3 Hsrc3) as (_ & Hcopied & Hkept).
  specialize (Hcopied Hcp).
  assert (Hloop := copy_loop_exact (entries w3 source_dir) w3 w3 (entries_checked w3)
                     eq_refl (fun _ _ => eq_refl)).
  rewrite <- (copy_icons_to_ios_run w3 Hsrc3) in Hloop.
  destruct Hloop as (_ & HS & _). apply HS in Hcp. rewrite Forall_forall in Hcp.
  clear HS. rewrite <- Hw4 in Hd3, Hcopied, Hkept. clear Hw4.
  assert (Hd41 : dirs w4 = dirs w1) by congruence.
  assert (Hd43 : dirs w4 = dirs w3) by congruence.
  assert (Hd42 : dirs w4 = dirs w2) by congruence.
  assert (Hkept2 : ∀ q, Path.under target_dir q = false → files w4 !! q = files w2 !! q).
  { intros q Hq. rewrite (Hkept q Hq), Hf2. apply lookup_insert_ne.
    intros <-. by vm_compute in Hq. }
  (* the second run *)
  split; [|split; [|split]].
  - rewrite create_directories_present; [done|].
    eapply Forall_impl; [exact Hlay|]. intros d Hd. cbn beta in *.
    by rewrite (is_dir_same_dirs w1 w4 _ Hd41).
  - assert (Hl4 : loads w4 src img).
    { destruct Hl as [Hdir [format Hfile]]. split.
      - by rewrite (is_dir_same_dirs w1 w4 _ Hd41).
      - exists format. rewrite Hkept2, Hsrc2; [done|].
        destruct (Path.under target_dir src) eqn:Hu; [|done].
        by rewrite (under_in_layout target_dir src target_dir_listed Hu) in Hsrc. }
    assert (Hok4 : outcome (generate_icons src w4) = Ok true).
    { apply (generate_icons_success src w4 img Hl4).
      by apply (generation_possible_same_dirs img w1 w4 Hd41). }
    split; [done|].
    destruct (generate_icons_complete src w4 img Hl4 Hok4) as (_ & Hws4 & _).
    destruct (generate_icons_state src w4) as (Hd5 & Hf5 & _).
    apply world_ext; [done|]. rewrite Hf5, Hws4. apply apply_writes_same.
    intros p c Hin. destruct (Hheld p c Hin) as [Hp Hc].
    by rewrite (Hkept2 p (generated_files_elsewhere p Hp)).
  - assert (Hwr4 : writable w4 contents_path = true)
      by by rewrite (writable_same_dirs w2 w4 _ Hd42).
    rewrite (create_ios_contents_json_ok w4 Hwr4). cbn [outcome final].
    split; [done|]. apply world_ext; [done|]. cbn [files]. by apply insert_id.
  - apply copy_icons_to_ios_settled.
    { by rewrite (is_dir_same_dirs w3 w4 _ Hd43). }
    intros name Hn Hpng.
    assert (Hs : Path.has_sep name = false) by by apply entries_iff in Hn as (? & _).
    assert (Hk : files w4 !! Path.join source_dir name
                 = files w3 !! Path.join source_dir name).
    { apply Hkept. by rewrite (join_source_dir name Hs), source_not_target. }
    assert (Hn3 : name ∈ entries w3 source_dir).
    { apply entries_iff. apply entries_iff in Hn as (_ & Hne & Hex).
      split; [done|]. split; [done|].
      rewrite <- (join_source_dir name Hs) in *. by rewrite <- Hd43, <- Hk. }
    split; [by apply (copy_possible_same_dirs w3 w4 name Hd43), Hcp|].
    destruct (Hcopied name Hn3 Hpng) as (c & Hc & Hdst).
    by rewrite (copy_destination_same_dirs w3 w4 name Hd43), Hdst, Hk.
Qed.

(** X15.  [main] can be repeated: after a run that ended with status 0,
    a second run with the same arguments, the source lying outside the
    nine directories, ends with status 0 again and leaves every
    directory and every file as the first run left it. *)
Theorem X15_main_repeatable (prog src : string) (w : World) :
  exit_status (main [prog; src] w) = 0 →
  in_layout src = false →
  exit_status (main [prog; src] (final (main [prog; src] w))) = 0
  ∧ final (main [prog; src] (final (main [prog; src] w))) = final (main [prog; src] w).
Proof.
  intros Hz Hsrc.
  apply (proj1 (proj1 (proj2 (main_completes [prog; src] w)))) in Hz.
  destruct (main_steps prog src w Hz) as (Hcd & Hgen & Hm & Hcp & Hfinal).
  destruct (settled src (final (create_directories w))
              (create_directories_made w Hcd) Hsrc Hgen Hm Hcp _ Hfinal)
    as ((Hcd' & Fcd) & (Hgen' & Fgen) & (Hm' & Fm) & (Hcp' & Fcp)).
  clear Hz Hcd Hgen Hm Hcp Hfinal.
  remember (final (main [prog; src] w)) as w4 eqn:Hw4. clear Hw4.
  assert (Hfin : outcome (finish w4) = Ok tt).
  { apply finish_returns. by rewrite Fm. }
  assert (Hok : outcome (main [prog; src] w4) = Ok tt).
  { apply main_returns. by rewrite Fcd, Fgen. }
  split; [by apply (proj2 (proj1 (proj2 (main_completes [prog; src] w4))))|].
  destruct (finish_closing w4) as [_ Hend].
  destruct (Hend Hfin) as (_ & _ & Ffin & _).
  rewrite main_final; rewrite ?Fcd, ?Fgen; [|done..].
  by rewrite Ffin, Fm.
Qed.

(** *** What the progress lines say *)

Lemma announced_mono (seen seen' : list string) (evs : list Event) :
  seen ⊆ seen' → announced seen evs → announced seen' evs.
Proof.
  revert seen seen'. induction evs as [|[m|d|p c] evs IH]; intros seen seen' Hsub; cbn;
    [done| |by apply IH|].
  - destruct m; try (by apply IH). intros [Hin Hrest]. split; [by apply Hsub|].
    by apply (IH seen).
  - apply IH. intros x [->|Hx]%elem_of_cons; [by left|right; by apply Hsub].
Qed.

Lemma announced_app (seen : list string) (a b : list Event) :
  announced seen a → announced (written_paths a ++ seen) b → announced seen (a ++ b).
Proof.
  revert seen. induction a as [|[m|d|p c] a IH]; intros seen; cbn [app announced];
    [done| |by apply IH|].
  - rewrite written_paths_print.
    destruct m; try (by apply IH). intros [Hin Ha] Hb. split; [done|]. by apply IH.
  - rewrite written_paths_write. intros Ha Hb. apply IH; [done|].
    eapply announced_mono; [|exact Hb].
    intros x. rewrite !elem_of_app, !elem_of_cons. tauto.
Qed.

Lemma announced_lookup (seen : list string) (evs : list Event)
    (i : nat) (width height : Z) (p : string) :
  announced seen evs →
  evs !! i = Some (EPrint (MGenerated width height p)) →
  p ∈ seen ∨ ∃ j c, (j < i)%nat ∧ evs !! j = Some (EWrite p c).
Proof.
  revert seen i. induction evs as [|e evs IH]; intros seen i Ha Hi; [done|].
  destruct i as [|i].
  - injection Hi as ->. left. by destruct Ha.
  - cbn in Hi.
    assert (Hrest : ∀ seen', announced seen' evs →
              p ∈ seen' ∨ ∃ j c, (S j < S i)%nat ∧ (e :: evs) !! S j = Some (EWrite p c)).
    { intros seen' Ha'. destruct (IH seen' i Ha' Hi) as [?|(j & c & Hlt & Hj)]; [by left|].
      right. exists j, c. split; [lia|done]. }
    destruct e as [m|d|q c]; cbn in Ha.
    + destruct m; try (destruct (Hrest seen Ha) as [?|(j & c & ? & ?)];
                       [by left|right; by exists (S j), c]).
      destruct Ha as [_ Ha].
      destruct (Hrest seen Ha) as [?|(j & c & ? & ?)]; [by left|right; by exists (S j), c].
    + destruct (Hrest seen Ha) as [?|(j & c & ? & ?)]; [by left|right; by exists (S j), c].
    + destruct (Hrest (q :: seen) Ha) as [[->|?]%elem_of_cons|(j & c' & ? & ?)].
      * right. exists 0%nat, c. split; [lia|done].
      * by left.
      * right. by exists (S j), c'.
Qed.

Lemma plan_announces (j : Job) (width height : Z) (p : string) :
  j ∈ plan → j_msg j = MGenerated width height p → p ∈ j_paths j.
Proof.
  intros [(platform & ->)|[(row & _ & ->)|[(row & _ & ->)|(row & _ & ->)]]]%plan_job_cases;
    try destruct row as [[w h] name]; cbn.
  - done.
  - intros [= _ _ <-]. by left.
  - intros [= _ _ <-]. right. by left.
  - unfold store_job. case_match; cbn; intros [= _ _ <-]; by left.
Qed.

Lemma announced_saves (seen : list string) (im : Image) (ps : list string) :
  announced seen ((fun p => EWrite p (CImage "PNG" im)) <$> ps).
Proof. revert seen. induction ps as [|p ps IH]; intros seen; [done|]. cbn. apply IH. Qed.

Lemma run_job_announced (img : Image) (j : Job) (w : World) (seen : list string) :
  j ∈ plan → announced seen (events (run_job img j w)).
Proof.
  intros Hj. rewrite run_job_unfold. destruct (j_make j img) as [im|]; [|done].
  destruct (save_all_spec im (j_paths j) w) as (k & Hev & _ & _ & _ & Hout).
  destruct Hout as [[Ho Ht]|(e & p & Ho & _)]; rewrite Ho; cbn [events]; rewrite Hev.
  - apply announced_app; [apply announced_saves|].
    rewrite written_paths_saves, Ht.
    destruct (j_msg j) eqn:Hmsg; try done. cbn. split; [|done].
    apply elem_of_app. left. by eapply plan_announces.
  - apply announced_saves.
Qed.

Lemma run_jobs_announced (img : Image) (js : list Job) (w : World) (seen : list string) :
  js ⊆ plan → announced seen (events (run_jobs img js w)).
Proof.
  revert w seen. induction js as [|j js IH]; intros w seen Hsub; [done|].
  rewrite run_jobs_cons, bind_run.
  assert (Hj : j ∈ plan) by (apply Hsub; by left).
  assert (Hjs : js ⊆ plan) by (intros x Hx; apply Hsub; by right).
  destruct (outcome (run_job img j w)); cbn [events].
  - apply announced_app; [by apply run_job_announced|by apply IH].
  - by apply run_job_announced.
Qed.

Lemma generate_icons_announced (src : string) (w : World) :
  announced [] (events (generate_icons src w)).
Proof.
  destruct (generate_icons_cases src w) as [(m & Hr & Hwhy)|(img & Hl)].
  - destruct (exists_in w src) eqn:Hex.
    + destruct Hwhy as [?|[e Ho]]; [done|].
      by rewrite (generate_icons_unreadable src w e Hex Ho).
    + by rewrite (generate_icons_missing src w Hex).
  - rewrite (generate_icons_loaded src w img Hl).
    assert (Hwarn : ∀ evs, announced [] evs → announced [] (size_warning img ++ evs)).
    { intros evs Hevs. unfold size_warning. by destruct (negb _). }
    destruct (outcome (run_jobs img plan w)); cbn [events]; apply Hwarn.
    + by apply run_jobs_announced.
    + apply announced_app; [by apply run_jobs_announced|done].
Qed.

(** X16.  The progress lines of [generate_icons] are true when they are
    printed: every line [width x height -> path] comes after the write
    of the file at [path]. *)
Theorem X16_generate_icons_announces (src : string) (w : World)
    (i : nat) (width height : Z) (p : string) :
  events (generate_icons src w) !! i = Some (EPrint (MGenerated width height p)) →
  ∃ j c, (j < i)%nat ∧ events (generate_icons src w) !! j = Some (EWrite p c).
Proof.
  intros Hi.
  destruct (announced_lookup [] _ i width height p (generate_icons_announced src w) Hi)
    as [Hin|?]; [by apply elem_of_nil in Hin|done].
Qed.

(** *** Where a generation stops *)



(** *** A run of [main] that fails late *)

Lemma finish_lines (w : World) :
  lines_of ["create_ios_contents_json"; "copy_icons_to_ios"; "print_next_steps"]
    (events (finish w)).
Proof.
  unfold finish. apply lines_of_bind.
  { eapply lines_of_mono; [|apply create_ios_contents_json_lines].
    intros x ->%list_elem_of_singleton. by left. }
  intros _ w1. apply lines_of_bind.
  { eapply lines_of_mono; [|apply copy_icons_to_ios_lines].
    intros x ->%list_elem_of_singleton. right. by left. }
  intros _ w2. rewrite print_next_steps_run. cbn [events].
  intros m (line & [= ->] & _)%list_elem_of_fmap. right. right. by left.
Qed.

(** The success branch leaves every file outside the appiconset
    directory as it is, however it ends. *)
Lemma finish_keeps (w : World) (q : string) :
  Path.under target_dir q = false → files (final (finish w)) !! q = files w !! q.
Proof.
  intros Hq.
  assert (Hm : files (final (create_ios_contents_json w)) !! q = files w !! q).
  { destruct (writable w contents_path) eqn:Hw.
    - rewrite (create_ios_contents_json_ok w Hw). cbn [final files].
      apply lookup_insert_ne. intros <-. by vm_compute in Hq.
    - by destruct (create_ios_contents_json_fail w Hw) as (e & _ & ->). }
  assert (Hc : files (final (copy_icons_to_ios (final (create_ios_contents_json w)))) !! q
               = files (final (create_ios_contents_json w)) !! q).
  { destruct (copy_icons_to_ios_spec (final (create_ios_contents_json w)))
      as (_ & -> & _ & Hall & _).
    apply apply_writes_other. intros Hin. rewrite Forall_forall in Hall.
    destruct (Hall q Hin) as [Hu _]. congruence. }
  rewrite finish_run. destruct (outcome (create_ios_contents_json w)); [|done].
  destruct (outcome (copy_icons_to_ios _)); cbn [final]; by rewrite Hc.
Qed.

Lemma main_result_failed (cd : Run unit) (gen : Run bool) (fin : Run unit) :
  lines_of ["create_directories"] (events cd) →
  lines_of ["generate_icons"] (events gen) →
  lines_of ["create_ios_contents_json"; "copy_icons_to_ios"; "print_next_steps"]
    (events fin) →
  outcome gen = Ok true ∨ outcome gen = Ok false →
  (EPrint MFailed ∈ events (main_result cd gen fin)
   ↔ outcome cd = Ok tt ∧ outcome gen = Ok false).
Proof.
  intros Lcd Lgen Lfin Hgen.
  assert (Hb : EPrint MFailed ∉ banner).
  { intros [Hin|Hin]%elem_of_cons; [discriminate Hin|].
    apply list_elem_of_singleton in Hin. discriminate Hin. }
  assert (Hno : ∀ fs evs, lines_of fs evs → "main" ∉ fs → EPrint MFailed ∉ evs).
  { intros fs evs Hl Hfs Hin. by apply Hl in Hin. }
  assert (Ncd := Hno _ _ Lcd ltac:(by intros ?%list_elem_of_singleton)).
  assert (Ngen := Hno _ _ Lgen ltac:(by intros ?%list_elem_of_singleton)).
  assert (Nfin : EPrint MFailed ∉ events fin).
  { apply (Hno _ _ Lfin). apply (bool_decide_unpack (_ ∉ _)). by vm_compute. }
  unfold main_result. destruct (outcome cd) as [[]|e]; cbn [events].
  - destruct Hgen as [-> | ->]; cbn [events]; rewrite !elem_of_app.
    + split; [intros [?|[?|[?|?]]]; done|by intros [_ ?]].
    + split; [done|]. intros _. do 3 right. by left.
  - rewrite elem_of_app. split; [intros [?|?]; done|by intros [? _]].
Qed.

Lemma main_result_late (cd : Run unit) (gen : Run bool) (fin : Run unit) :
  outcome cd = Ok tt → outcome gen = Ok true →
  (∀ e, outcome fin = Raise e → is_Exception e = true) →
  final (main_result cd gen fin) = final fin
  ∧ (exit_status (main_result cd gen fin) = 1 →
     ∃ e, outcome (main_result cd gen fin) = Raise e ∧ is_Exception e = true).
Proof.
  intros Hcd Hgen Hexn. unfold main_result, exit_status. rewrite Hcd, Hgen.
  cbn [final outcome]. split; [done|].
  destruct (outcome fin) as [[]|e]; [done|]. intros _. exists e. split; [done|].
  by apply Hexn.
Qed.

(** X18.  The line "Icon generation failed" is printed exactly when
    [generate_icons] has returned [False].  A run in which the generation
    returned [True] and which still ends with status 1 was stopped by an
    exception of the manifest or of a copy, which nothing catches: it
    prints no failure line and leaves the 29 generated files in place. *)
Theorem X18_main_failure_line (prog src : string) (w : World) :
  (EPrint MFailed ∈ events (main [prog; src] w)
   ↔ outcome (create_directories w) = Ok tt
     ∧ outcome (generate_icons src (final (create_directories w))) = Ok false)
  ∧ (outcome (create_directories w) = Ok tt →
     outcome (generate_icons src (final (create_directories w))) = Ok true →
     exit_status (main [prog; src] w) = 1 →
     (∃ e, outcome (main [prog; src] w) = Raise e ∧ is_Exception e = true)
     ∧ (EPrint MFailed ∉ events (main [prog; src] w))
     ∧ ∀ p, p ∈ generated_files →
         ∃ im, files (final (main [prog; src] w)) !! p = Some (CImage "PNG" im)).
Proof.
  rewrite main_run.
  assert (Hfailed := main_result_failed _ _ _
            (create_directories_lines w)
            (generate_icons_lines src (final (create_directories w)))
            (finish_lines (final (generate_icons src (final (create_directories w)))))
            (generate_icons_returns src (final (create_directories w)))).
  split; [exact Hfailed|].
  intros Hcd Hgen Hone.
  destruct (finish_spec (final (generate_icons src (final (create_directories w)))))
    as (_ & _ & _ & _ & _ & Hexn).
  destruct (main_result_late _ _ _ Hcd Hgen Hexn) as [Hfinal Hraise].
  split; [exact (Hraise Hone)|]. split.
  - intros Hin. apply Hfailed in Hin as [_ Hfalse]. congruence.
  - intros p Hp. rewrite Hfinal.
    rewrite (finish_keeps _ p (generated_files_elsewhere p Hp)).
    exact (generate_icons_present src _ p Hgen Hp).
Qed.

End Properties.

(** ** The claims on concrete runs

    Runs of the script on the sample file systems, with the raster
    library: the hypotheses of the theorems above hold there, and the
    claims that had to be amended fail there as they were stated. *)


Lemma prepared_loads (img : Raster.t) : loads (Sample.prepared img) Sample.source img.
Proof. split; [by vm_compute|]. exists "PNG". by vm_compute. Qed.


Lemma with_leftover_loads (img : Raster.t) :
  loads (Sample.with_leftover img) Sample.source img.
Proof. split; [by vm_compute|]. exists "PNG". by vm_compute. Qed.

Lemma prepared_generates :
  outcome (generate_icons Sample.source (Sample.prepared (Raster.card 1024))) = Ok true.
Proof. by vm_compute. Qed.



(** C2 as stated fails: the file written for the 1024x500 row of the store
    table is not the source resampled to 1024x500; its top left pixel has
    the colour of the canvas, not that of the source. *)
Lemma C2_counterexample :
  (1024, 500, "play_store_feature") ∈ getitem ICON_SIZES "store"
  ∧ ∃ graphic resampled,
      files (final (generate_icons Sample.source (Sample.prepared (Raster.card 1024))))
        !! feature_graphic_path = Some (CImage "PNG" graphic)
      ∧ im_resize (Raster.card 1024) (1024, 500) = Some resampled
      ∧ Raster.pixel graphic 0 0 = (25, 118, 210, 255)
      ∧ Raster.pixel resampled 0 0 = (0, 0, 128, 255)
      ∧ graphic ≠ resampled.
Proof.
  split; [apply (bool_decide_unpack (_ ∈ _)); by vm_compute|].
  eexists. eexists.
  split; [vm_compute; reflexivity|].
  split; [vm_compute; reflexivity|].
  split; [by vm_compute|]. split; [by vm_compute|].
  intros Heq. apply (f_equal (fun r => Raster.pixel r 0 0)) in Heq.
  vm_compute in Heq. discriminate Heq.
Qed.

Lemma C2_witness :
  ∃ c,
    (feature_graphic_path, c)
    ∈ writes (events (generate_icons Sample.source (Sample.prepared (Raster.card 1024))))
    ∧ ∃ img, loads (Sample.prepared (Raster.card 1024)) Sample.source img.
Proof.
  assert (Hm : { c | writes (events (generate_icons Sample.source
                                       (Sample.prepared (Raster.card 1024)))) !! 28%nat
                     = Some (feature_graphic_path, c) })
    by (eexists; vm_compute; reflexivity).
  destruct Hm as [c Hc]. apply list_elem_of_lookup_2 in Hc.
  exists c. split; [exact Hc|].
  destruct (C2_outputs_resampled Sample.source _ _ c Hc) as (img & Hl & _).
  by exists img.
Defined.






Lemma C7_witness :
  in_layout Sample.source = false
  ∧ files (final (main Sample.argv (Sample.checkout (Raster.card 1024))))
      !! Sample.source
    = files (Sample.checkout (Raster.card 1024)) !! Sample.source.
Proof.
  assert (Hout : in_layout Sample.source = false) by (by vm_compute).
  split; [exact Hout|].
  exact (proj2 (proj2 (proj2 (proj2 (proj2
           (C7_writes_in_layout (Sample.checkout (Raster.card 1024)))))))
           Sample.argv Sample.source Hout).
Defined.

(** C8 as stated fails: two runs of the tool on the same source image,
    both ending with status 0, one of which copies a file that an earlier
    run had left among the generated iOS icons. *)
Lemma C8_counterexample :
  loads (Sample.prepared (Raster.card 1024)) Sample.source (Raster.card 1024)
  ∧ loads (Sample.with_leftover (Raster.card 1024)) Sample.source (Raster.card 1024)
  ∧ exit_status (main Sample.argv (Sample.prepared (Raster.card 1024))) = 0
  ∧ exit_status (main Sample.argv (Sample.with_leftover (Raster.card 1024))) = 0
  ∧ "ios/Runner/Assets.xcassets/AppIcon.appiconset/old_logo.png"
    ∈ written_paths (events (main Sample.argv (Sample.with_leftover (Raster.card 1024))))
  ∧ "ios/Runner/Assets.xcassets/AppIcon.appiconset/old_logo.png"
    ∉ written_paths (events (main Sample.argv (Sample.prepared (Raster.card 1024)))).
Proof.
  split; [apply prepared_loads|]. split; [apply with_leftover_loads|].
  split; [by vm_compute|]. split; [by vm_compute|].
  split; [apply (bool_decide_unpack (_ ∈ _))|apply (bool_decide_unpack (_ ∉ _))];
    by vm_compute.
Qed.

Lemma C8_witness :
  loads (Sample.prepared (Raster.card 1024)) Sample.source (Raster.card 1024)
  ∧ loads (Sample.with_leftover (Raster.card 1024)) Sample.source (Raster.card 1024)
  ∧ writes (events (generate_icons Sample.source (Sample.prepared (Raster.card 1024))))
    = writes (events (generate_icons Sample.source
                        (Sample.with_leftover (Raster.card 1024)))).
Proof.
  split; [apply prepared_loads|]. split; [apply with_leftover_loads|].
  exact (proj1 (C8_generation_deterministic Sample.source Sample.source
                  (Sample.prepared (Raster.card 1024))
                  (Sample.with_leftover (Raster.card 1024)) (Raster.card 1024)
                  (prepared_loads _) (with_leftover_loads _)
                  prepared_generates ltac:(by vm_compute))).
Defined.

Lemma C9_witness :
  (192, 192, "xxxhdpi") ∈ getitem ICON_SIZES "android"
  ∧ files (final (generate_icons Sample.source (Sample.prepared (Raster.card 1024))))
      !! launcher_round_path "xxxhdpi"
    = files (final (generate_icons Sample.source (Sample.prepared (Raster.card 1024))))
        !! launcher_path "xxxhdpi".
Proof.
  assert (Hrow : (192, 192, "xxxhdpi") ∈ getitem ICON_SIZES "android")
    by (apply (bool_decide_unpack (_ ∈ _)); by vm_compute).
  split; [exact Hrow|].
  destruct (proj2 (C9_round_is_launcher Sample.source
                     (Sample.prepared (Raster.card 1024)) 192 192 "xxxhdpi" Hrow)
              prepared_generates) as (img & resized & _ & _ & Hround & Hlaunch).
  by rewrite Hround, Hlaunch.
Defined.

Lemma C10_witness :
  length ["setup_app_icon.py"] ≠ 2%nat
  ∧ exit_status (main ["setup_app_icon.py"] (Sample.checkout (Raster.card 1024))) = 1
  ∧ events (main ["setup_app_icon.py"] (Sample.checkout (Raster.card 1024)))
    = [EPrint MUsage; EPrint MExample].
Proof.
  assert (Hlen : length ["setup_app_icon.py"] ≠ 2%nat) by (by vm_compute).
  destruct (C10_usage_exit ["setup_app_icon.py"] (Sample.checkout (Raster.card 1024))
              Hlen) as (Hrun & Hexit & _).
  split; [exact Hlen|]. split; [exact Hexit|]. by rewrite Hrun.
Defined.

(** ** The further properties on concrete runs *)

Lemma checkout_clear (img : Raster.t) :
  Forall (fun a => mkdir_possible (Sample.checkout img) a = true) layout.
Proof. apply (bool_decide_unpack (Forall _ _)). by vm_compute. Qed.

Lemma X2_witness :
  Forall (fun a => mkdir_possible (Sample.checkout (Raster.card 1024)) a = true) layout
  ∧ created (events (create_directories (Sample.checkout (Raster.card 1024))))
    ≡ₚ filter (fun d => d ∉ dirs (Sample.checkout (Raster.card 1024)))
         (remove_dups layout).
Proof.
  split; [apply checkout_clear|].
  destruct (X2_create_directories_effect (Sample.checkout (Raster.card 1024))
              (checkout_clear _)) as (_ & _ & _ & _ & _ & Hnd & Hin).
  apply NoDup_Permutation; [done|apply NoDup_filter, NoDup_remove_dups|].
  intros d. rewrite Hin, list_elem_of_filter, elem_of_remove_dups. tauto.
Defined.

Lemma X3_witness :
  outcome (create_directories (Sample.checkout (Raster.card 1024))) = Ok tt
  ∧ events (create_directories (Sample.prepared (Raster.card 1024)))
    = (fun d => EPrint (MCreatedDirectory d)) <$> directories.
Proof.
  assert (Ho : outcome (create_directories (Sample.checkout (Raster.card 1024))) = Ok tt)
    by (by vm_compute).
  split; [exact Ho|].
  destruct (X3_create_directories_idempotent (Sample.checkout (Raster.card 1024)) Ho)
    as [_ Hrun].
  unfold Sample.prepared. by rewrite Hrun.
Defined.

Lemma X5_witness :
  outcome (generate_icons Sample.source (Sample.prepared (Raster.card 1024))) = Ok true
  ∧ (Sample.source ∉ generated_files)
  ∧ final (generate_icons Sample.source
             (final (generate_icons Sample.source (Sample.prepared (Raster.card 1024)))))
    = final (generate_icons Sample.source (Sample.prepared (Raster.card 1024))).
Proof.
  assert (Hsrc : Sample.source ∉ generated_files)
    by (apply (bool_decide_unpack (_ ∉ _)); by vm_compute).
  split; [exact prepared_generates|]. split; [exact Hsrc|].
  exact (proj2 (proj2 (X5_generate_icons_repeatable Sample.source
                         (Sample.prepared (Raster.card 1024))
                         prepared_generates Hsrc))).
Defined.

Lemma with_leftover_entries :
  entries (Sample.with_leftover (Raster.card 1024)) source_dir = ["old_logo.png"].
Proof. by vm_compute. Qed.

Lemma with_leftover_source_dir :
  is_dir (Sample.with_leftover (Raster.card 1024)) source_dir = true.
Proof. by vm_compute. Qed.

Lemma X4_witness :
  is_dir (Sample.checkout (Raster.card 1024)) source_dir = false
  ∧ writes (events (generate_icons Sample.source (Sample.checkout (Raster.card 1024))))
    = [].
Proof.
  assert (Hd : is_dir (Sample.checkout (Raster.card 1024)) source_dir = false)
    by (by vm_compute).
  split; [exact Hd|].
  exact (proj2 (proj2 (proj2 (proj2
           (X4_generate_icons_needs_directories Sample.source
              (Sample.checkout (Raster.card 1024)))))) Hd).
Defined.

Lemma X7_witness :
  is_dir (Sample.with_leftover (Raster.card 1024)) source_dir = true
  ∧ outcome (copy_icons_to_ios (Sample.with_leftover (Raster.card 1024))) = Ok tt.
Proof.
  split; [exact with_leftover_source_dir|].
  apply (proj1 (X7_copy_icons_to_ios_outcome _ with_leftover_source_dir)).
  intros name Hn _. rewrite with_leftover_entries in Hn.
  apply list_elem_of_singleton in Hn. subst name. split; by vm_compute.
Defined.

Lemma X8_witness :
  is_dir (Sample.with_leftover (Raster.card 1024)) source_dir = true
  ∧ files (final (copy_icons_to_ios (Sample.with_leftover (Raster.card 1024))))
      !! "ios/Runner/Assets.xcassets/AppIcon.appiconset/old_logo.png"
    = Some (CBytes "old").
Proof.
  split; [exact with_leftover_source_dir|].
  destruct (X8_copy_icons_to_ios_exact _ with_leftover_source_dir) as (_ & Hcopied & _).
  destruct (Hcopied ltac:(by vm_compute) "old_logo.png") as (c & Hc & Hdst).
  - rewrite with_leftover_entries. by left.
  - by vm_compute.
  - assert (Hold : files (Sample.with_leftover (Raster.card 1024))
                     !! Path.join source_dir "old_logo.png" = Some (CBytes "old"))
      by (by vm_compute).
    rewrite Hold in Hc. injection Hc as <-. exact Hdst.
Defined.

Lemma X9_witness :
  exists_in (Sample.checkout (Raster.card 1024)) source_dir = false
  ∧ events (copy_icons_to_ios (Sample.checkout (Raster.card 1024)))
    = [EPrint (MIosIconsNotFound source_dir)].
Proof.
  assert (Hex : exists_in (Sample.checkout (Raster.card 1024)) source_dir = false)
    by (by vm_compute).
  split; [exact Hex|].
  by rewrite (proj1 (X9_copy_icons_to_ios_edges (Sample.checkout (Raster.card 1024))) Hex).
Defined.

Lemma checkout_completes :
  exit_status (main Sample.argv (Sample.checkout (Raster.card 1024))) = 0.
Proof. by vm_compute. Qed.

Lemma X12_witness :
  exit_status (main Sample.argv (Sample.checkout (Raster.card 1024))) = 0
  ∧ files (final (main Sample.argv (Sample.checkout (Raster.card 1024))))
      !! contents_path = Some (CJson contents).
Proof.
  split; [exact checkout_completes|].
  exact (proj1 (proj2 (proj2 (proj2
           (X12_main_delivers Sample.argv (Sample.checkout (Raster.card 1024))
              checkout_completes))))).
Defined.




Lemma X14_witness :
  (∀ img, ¬ loads (Sample.checkout (Raster.card 1024)) "missing.png" img)
  ∧ exit_status (main ["setup_app_icon.py"; "missing.png"]
                   (Sample.checkout (Raster.card 1024))) = 1.
Proof.
  assert (Hno : ∀ img, ¬ loads (Sample.checkout (Raster.card 1024)) "missing.png" img).
  { intros img [_ [format Hf]]. vm_compute in Hf. discriminate Hf. }
  split; [exact Hno|].
  exact (proj1 (X14_main_refuses "setup_app_icon.py" "missing.png"
                  (Sample.checkout (Raster.card 1024)) Hno)).
Defined.

Lemma X15_witness :
  exit_status (main ["setup_app_icon.py"; Sample.source]
                 (Sample.checkout (Raster.card 1024))) = 0
  ∧ in_layout Sample.source = false
  ∧ exit_status
      (main ["setup_app_icon.py"; Sample.source]
         (final (main ["setup_app_icon.py"; Sample.source]
                   (Sample.checkout (Raster.card 1024))))) = 0.
Proof.
  assert (Hz : exit_status (main ["setup_app_icon.py"; Sample.source]
                              (Sample.checkout (Raster.card 1024))) = 0)
    by (by vm_compute).
  assert (Hout : in_layout Sample.source = false) by (by vm_compute).
  split; [exact Hz|]. split; [exact Hout|].
  exact (proj1 (X15_main_repeatable "setup_app_icon.py" Sample.source
                  (Sample.checkout (Raster.card 1024)) Hz Hout)).
Defined.

Lemma X16_witness :
  events (generate_icons Sample.source (Sample.prepared (Raster.card 1024))) !! 2%nat
  = Some (EPrint (MGenerated 1024 1024
            "assets/app_icons/generated/ios/icon_1024x1024_ios-marketing.png"))
  ∧ ∃ j c, (j < 2)%nat
      ∧ events (generate_icons Sample.source (Sample.prepared (Raster.card 1024))) !! j
        = Some (EWrite "assets/app_icons/generated/ios/icon_1024x1024_ios-marketing.png"
                  c).
Proof.
  assert (Hi : events (generate_icons Sample.source (Sample.prepared (Raster.card 1024)))
                 !! 2%nat
               = Some (EPrint (MGenerated 1024 1024
                   "assets/app_icons/generated/ios/icon_1024x1024_ios-marketing.png")))
    by (by vm_compute).
  split; [exact Hi|].
  exact (X16_generate_icons_announces Sample.source (Sample.prepared (Raster.card 1024))
           2%nat 1024 1024 _ Hi).
Defined.


Lemma X18_witness :
  outcome (create_directories (Sample.checkout (Raster.card 1024))) = Ok tt
  ∧ outcome (generate_icons "missing.png"
               (final (create_directories (Sample.checkout (Raster.card 1024)))))
    = Ok false
  ∧ EPrint MFailed
    ∈ events (main ["setup_app_icon.py"; "missing.png"]
                (Sample.checkout (Raster.card 1024))).
Proof.
  assert (Hcd : outcome (create_directories (Sample.checkout (Raster.card 1024)))
                = Ok tt) by (by vm_compute).
  assert (Hgen : outcome (generate_icons "missing.png"
                            (final (create_directories
                                      (Sample.checkout (Raster.card 1024)))))
                 = Ok false) by (by vm_compute).
  split; [exact Hcd|]. split; [exact Hgen|].
  exact (proj2 (proj1 (X18_main_failure_line "setup_app_icon.py" "missing.png"
                         (Sample.checkout (Raster.card 1024))))
           (conj Hcd Hgen)).
Defined.
